(** * Ongdu: hand evaluation, matchup scoring and arrangement search

    A shallow embedding of the game engine of the Ongdu card game
    ([lib/types.ts], [lib/game-logic.ts], [lib/ai.ts]) and the proofs of its
    specified properties.

    JavaScript numbers are modelled by [Z] (every number the engine handles
    is a small integer), [-Infinity] by an explicit bottom element, arrays by
    lists, [Card | null] slots by [option Card], and objects used as string
    keyed dictionaries by [gmap string].  A function that would raise a
    [TypeError] on an out-of-range read returns [None], and a lemma shows the
    read to be in range wherever the engine calls it.

    [game-logic.ts] exists in two variants.  [GameLogic] is the later one,
    with the wildcard and same-suit rules, per-category points and special
    hands, which the specification follows; [Legacy] holds the functions of
    the earlier one that differ.  [AI] is [ai.ts]. *)

From Stdlib Require Import ZArith List Bool String Lia Permutation Sorted.
From stdpp Require Import gmap strings list fin_maps pretty.

Local Open Scope string_scope.
Local Open Scope list_scope.
Local Open Scope Z_scope.

(** ** types.ts *)

Inductive Suit := hearts | diamonds | clubs | spades.

Inductive Rank :=
  | R2 | R3 | R4 | R5 | R6 | R7 | R8 | R9 | R10 | RJ | RQ | RK | RA.

(** [Suit | 'wild'] and [Rank | 'WILD']. *)
Inductive CardSuit := SuitOf (s : Suit) | wild.
Inductive CardRank := RankOf (r : Rank) | WILD.

#[global] Instance Suit_eq_dec : EqDecision Suit.
Proof. solve_decision. Defined.
#[global] Instance Rank_eq_dec : EqDecision Rank.
Proof. solve_decision. Defined.
#[global] Instance CardSuit_eq_dec : EqDecision CardSuit.
Proof. solve_decision. Defined.
#[global] Instance CardRank_eq_dec : EqDecision CardRank.
Proof. solve_decision. Defined.

Record Card := mkCard {
  card_id : string;
  suit : CardSuit;
  rank : CardRank;
  isWild : bool;
}.

#[global] Instance Card_eq_dec : EqDecision Card.
Proof. solve_decision. Defined.

(** A layer is an array of slots, each a card or [null]. *)
Record Layer := mkLayer { cards : list (option Card) }.

Record PlayerArrangement := mkArrangement {
  top : Layer;
  middle : Layer;
  bottom : Layer;
}.

Record Player := mkPlayer {
  player_id : string;
  name : string;
  isHuman : bool;
  cash : Z;
  hand : list Card;
  arrangement : option PlayerArrangement;
  isReady : bool;
  isBankrupt : bool;
}.

(** The enum [HandType]; [handTypeNum] gives the numeric value of a member. *)
Inductive HandType :=
  | THREE_OF_KIND_PURE
  | STRAIGHT_FLUSH_JQK
  | STRAIGHT_JQK
  | THREE_OF_KIND_WILD
  | THREE_FACE_CARDS
  | SUM_MODULO.

#[global] Instance HandType_eq_dec : EqDecision HandType.
Proof. solve_decision. Defined.

Definition handTypeNum (t : HandType) : Z :=
  match t with
  | THREE_OF_KIND_PURE => 1
  | STRAIGHT_FLUSH_JQK => 2
  | STRAIGHT_JQK => 3
  | THREE_OF_KIND_WILD => 4
  | THREE_FACE_CARDS => 5
  | SUM_MODULO => 6
  end.

(** [isSameSuit] is an optional field: [None] is an absent ([undefined])
    field, which JavaScript treats as false in a condition. *)
Record HandEvaluation := mkEval {
  type : HandType;
  value : Z;
  description : string;
  isSameSuit : option bool;
}.

Definition truthy (o : option bool) : bool := default false o.

Inductive LayerName := Ltop | Lmiddle | Lbottom.

#[global] Instance LayerName_eq_dec : EqDecision LayerName.
Proof. solve_decision. Defined.

Record LayerComparison := mkLayerComparison {
  layer : LayerName;
  player1Score : Z;
  player2Score : Z;
  winner : option string;
}.

Record MatchupResult := mkMatchup {
  player1Id : string;
  player2Id : string;
  layerComparisons : list LayerComparison;
  player1TotalPoints : Z;
  player2TotalPoints : Z;
  player1Foul : bool;
  player2Foul : bool;
}.

Record RoundScore := mkRoundScore {
  playerId : string;
  playerName : string;
  pointsAgainst : gmap string Z;
  totalPoints : Z;
  cashChange : Z;
}.

(** The text JavaScript produces when a rank is interpolated in a template. *)
Definition rankText (r : CardRank) : string :=
  match r with
  | RankOf R2 => "2" | RankOf R3 => "3" | RankOf R4 => "4" | RankOf R5 => "5"
  | RankOf R6 => "6" | RankOf R7 => "7" | RankOf R8 => "8" | RankOf R9 => "9"
  | RankOf R10 => "10" | RankOf RJ => "J" | RankOf RQ => "Q"
  | RankOf RK => "K" | RankOf RA => "A" | WILD => "WILD"
  end.

Definition suitText (s : Suit) : string :=
  match s with
  | hearts => "hearts" | diamonds => "diamonds"
  | clubs => "clubs" | spades => "spades"
  end.

(** The two card literals [createDeck] pushes: a standard card and the
    [i]-th wildcard. *)
Definition standardCard (r : Rank) (s : Suit) : Card :=
  mkCard (rankText (RankOf r) +:+ "-" +:+ suitText s) (SuitOf s) (RankOf r) false.

Definition wildCard (i : Z) : Card :=
  mkCard ("wild-" +:+ pretty i) wild WILD true.

(** [layer.cards.filter(c => c !== null)] *)
Definition placed (l : Layer) : list Card := omap id (cards l).

(** [-Infinity] and the finite scores. *)
Inductive Score := NegInfinity | Num (z : Z).

(** [a > b] on scores. *)
Definition score_gt (a b : Score) : bool :=
  match a, b with
  | NegInfinity, _ => false
  | Num _, NegInfinity => true
  | Num x, Num y => x >? y
  end.

(** ** game-logic.ts, the later variant (with the wildcard and same-suit
    rules, per-category points and special hands) *)

Module GameLogic.

Definition getRankValue (r : CardRank) : Z :=
  match r with
  | WILD => 0
  | RankOf R2 => 2 | RankOf R3 => 3 | RankOf R4 => 4 | RankOf R5 => 5
  | RankOf R6 => 6 | RankOf R7 => 7 | RankOf R8 => 8 | RankOf R9 => 9
  | RankOf R10 => 10 | RankOf RJ => 10 | RankOf RQ => 10 | RankOf RK => 10
  | RankOf RA => 1
  end.

Definition getComparisonRankValue (r : CardRank) : Z :=
  match r with
  | WILD => 0
  | RankOf R2 => 2 | RankOf R3 => 3 | RankOf R4 => 4 | RankOf R5 => 5
  | RankOf R6 => 6 | RankOf R7 => 7 | RankOf R8 => 8 | RankOf R9 => 9
  | RankOf R10 => 10 | RankOf RJ => 11 | RankOf RQ => 12 | RankOf RK => 13
  | RankOf RA => 14
  end.

Definition isFaceCard (r : CardRank) : bool :=
  bool_decide (r = RankOf RJ) || bool_decide (r = RankOf RQ)
  || bool_decide (r = RankOf RK).

Definition nonWild (cs : list Card) : list Card :=
  List.filter (fun c => negb (isWild c)) cs.

Definition wildCount (cs : list Card) : nat :=
  length (List.filter (fun c => isWild c) cs).

Definition isJQKStraight (cs : list Card) : bool :=
  let nonWildCards := nonWild cs in
  let ranks := map rank nonWildCards in
  let needed :=
    List.filter (fun r => negb (bool_decide (RankOf r ∈ ranks))) [RJ; RQ; RK] in
  (length needed <=? wildCount cs)%nat
  && forallb (fun c => isFaceCard (rank c)) nonWildCards.

Definition isJQKStraightFlush (cs : list Card) : bool :=
  if negb (isJQKStraight cs) then false
  else match nonWild cs with
       | [] => true
       | (c0 :: _) as nonWildCards =>
           forallb (fun c => bool_decide (suit c = suit c0)) nonWildCards
       end.

Definition isThreeFaceCards (cs : list Card) : bool :=
  forallb (fun c => isWild c || isFaceCard (rank c)) cs.

Definition isSameSuit_cards (cs : list Card) : bool :=
  match nonWild cs with
  | [] | [_] => true
  | (c0 :: _) as nonWildCards =>
      forallb (fun c => bool_decide (suit c = suit c0)) nonWildCards
  end.

Record ThreeOfKind := mkThreeOfKind {
  isThreeOfKind_flag : bool;
  hasWild : bool;
  rankValue : Z;
}.

(** [isThreeOfKind] reads [nonWildCards[0..2]]; reading a field of a missing
    element raises a [TypeError] in the source, which is [None] here.  For a
    hand of three cards every index read is in range
    ([isThreeOfKind_three] below). *)
Definition isThreeOfKind (cs : list Card) : option ThreeOfKind :=
  let nonWildCards := nonWild cs in
  let wc := wildCount cs in
  if (wc =? 3)%nat then Some (mkThreeOfKind true true 0)
  else if (wc =? 2)%nat then
    c0 ← nonWildCards !! 0%nat;
    Some (mkThreeOfKind true true (getComparisonRankValue (rank c0)))
  else if (wc =? 1)%nat then
    c0 ← nonWildCards !! 0%nat;
    c1 ← nonWildCards !! 1%nat;
    if bool_decide (rank c0 = rank c1)
    then Some (mkThreeOfKind true true (getComparisonRankValue (rank c0)))
    else Some (mkThreeOfKind false false 0)
  else
    c0 ← nonWildCards !! 0%nat;
    c1 ← nonWildCards !! 1%nat;
    c2 ← nonWildCards !! 2%nat;
    if bool_decide (rank c0 = rank c1) && bool_decide (rank c1 = rank c2)
    then Some (mkThreeOfKind true false (getComparisonRankValue (rank c0)))
    else Some (mkThreeOfKind false false 0).

Definition getSumModulo (cs : list Card) : Z :=
  let sum :=
    fold_left (fun acc c => if isWild c then acc else acc + getRankValue (rank c))
              cs 0 in
  sum mod 10.

Definition invalidHand : HandEvaluation :=
  mkEval SUM_MODULO 0 "Invalid hand" None.

(** The body of [evaluateHand] once the guard has passed. *)
Definition evaluateCards (cs : list Card) : HandEvaluation :=
  match isThreeOfKind cs with
  | None => invalidHand (* a TypeError in the source; not reached with 3 cards *)
  | Some threeOfKind =>
    if isThreeOfKind_flag threeOfKind && negb (hasWild threeOfKind) then
      mkEval THREE_OF_KIND_PURE (rankValue threeOfKind)
        ("Three of a kind: " +:+ rankText (default WILD (rank <$> cs !! 0%nat)) +:+ "s")
        None
    else if isJQKStraightFlush cs then
      mkEval STRAIGHT_FLUSH_JQK 100 "Straight Flush J-Q-K" None
    else if isJQKStraight cs then
      mkEval STRAIGHT_JQK 100 "Straight J-Q-K" None
    else if isThreeOfKind_flag threeOfKind && hasWild threeOfKind then
      mkEval THREE_OF_KIND_WILD (rankValue threeOfKind)
        ("Three of a kind (with wild): " +:+ pretty (rankValue threeOfKind))
        None
    else if isThreeFaceCards cs then
      mkEval THREE_FACE_CARDS
        (fold_left (fun sum c => sum + getComparisonRankValue (rank c)) cs 0)
        "Three face cards" None
    else
      let hasWildcard := existsb (fun c => isWild c) cs in
      let sameSuit := isSameSuit_cards cs in
      if hasWildcard then
        mkEval SUM_MODULO 9
          (if sameSuit then "Sum: 9 (wild, same suit)" else "Sum: 9 (wild)")
          (Some sameSuit)
      else
        let sumMod := getSumModulo cs in
        mkEval SUM_MODULO sumMod
          (if sameSuit then "Sum: " +:+ pretty sumMod +:+ " (same suit)"
           else "Sum: " +:+ pretty sumMod)
          (Some sameSuit)
  end.

(** [evaluateHand] is declared on [Card[]] but tests its elements against
    [null], so the argument is an array of slots. *)
Definition evaluateHand (slots : list (option Card)) : HandEvaluation :=
  if negb (length slots =? 3)%nat || existsb (fun c => bool_decide (c = None)) slots
  then invalidHand
  else evaluateCards (omap id slots).

(** A call site that passes an array of cards. *)
Definition evalCards (cs : list Card) : HandEvaluation :=
  evaluateHand (Some <$> cs).

Definition getHandPoints (h : HandEvaluation) : Z :=
  match type h with
  | THREE_OF_KIND_PURE | THREE_OF_KIND_WILD => 5
  | STRAIGHT_FLUSH_JQK | STRAIGHT_JQK | THREE_FACE_CARDS => 3
  | SUM_MODULO => if truthy (isSameSuit h) then 3 else 1
  end.

Definition compareHands (hand1 hand2 : HandEvaluation) : Z :=
  if negb (bool_decide (type hand1 = type hand2)) then
    if handTypeNum (type hand1) <? handTypeNum (type hand2) then 1 else -1
  else if bool_decide (type hand1 = STRAIGHT_FLUSH_JQK)
          || bool_decide (type hand1 = STRAIGHT_JQK) then 0
  else if bool_decide (type hand1 = THREE_OF_KIND_PURE)
          || bool_decide (type hand1 = THREE_OF_KIND_WILD)
          || bool_decide (type hand1 = THREE_FACE_CARDS) then
    if value hand1 >? value hand2 then 1
    else if value hand1 <? value hand2 then -1
    else 0
  else
    if value hand1 >? value hand2 then 1
    else if value hand1 <? value hand2 then -1
    else 0.

Definition validateArrangement (a : PlayerArrangement) : bool :=
  let topCards := placed (top a) in
  let middleCards := placed (middle a) in
  let bottomCards := placed (bottom a) in
  if negb (length topCards =? 3)%nat || negb (length middleCards =? 3)%nat
     || negb (length bottomCards =? 3)%nat
  then false
  else
    let topEval := evalCards topCards in
    let middleEval := evalCards middleCards in
    let bottomEval := evalCards bottomCards in
    if compareHands topEval middleEval >? 0 then false
    else if compareHands middleEval bottomEval >? 0 then false
    else true.

Definition createEmptyArrangement : PlayerArrangement :=
  mkArrangement (mkLayer [None; None; None]) (mkLayer [None; None; None])
                (mkLayer [None; None; None]).

Definition getCardsFromArrangement (a : PlayerArrangement) : list Card :=
  omap id (cards (top a) ++ cards (middle a) ++ cards (bottom a)).

(** One pass of the loop body of [checkAllNines] over a layer: [true] when
    the layer does not make the function return [false]. *)
Definition layerIsNine (l : Layer) : bool :=
  let cs := placed l in
  if negb (length cs =? 3)%nat then false
  else if existsb (fun c => isWild c) cs then false
  else
    let eval_ := evalCards cs in
    if negb (bool_decide (type eval_ = SUM_MODULO)) || (value eval_ <? 9)
    then false
    else true.

Definition checkAllNines (p : Player) : bool :=
  match arrangement p with
  | None => false
  | Some a => forallb layerIsNine [top a; middle a; bottom a]
  end.

(** [rankCounts[card.rank] = (rankCounts[card.rank] || 0) + 1] over the
    non-wild cards; the object's keys are the rank texts. *)
Definition countRanks (allCards : list Card) : gmap string Z :=
  fold_left
    (fun (rankCounts : gmap string Z) c =>
       if negb (isWild c)
       then <[rankText (rank c) := default 0 (rankCounts !! rankText (rank c)) + 1]>
              rankCounts
       else rankCounts)
    allCards ∅.

Definition someCountAtLeast4 (rankCounts : gmap string Z) : bool :=
  existsb (fun kv => snd kv >=? 4) (map_to_list rankCounts).

Definition checkFourOfAKind (p : Player) : bool :=
  match arrangement p with
  | None => false
  | Some a => someCountAtLeast4 (countRanks (getCardsFromArrangement a))
  end.

Definition hasSpecialHand (p : Player) : bool :=
  checkAllNines p || checkFourOfAKind p.

Definition checkAutoWin (p : Player) : bool := hasSpecialHand p.

Definition layerOf (a : PlayerArrangement) (l : LayerName) : Layer :=
  match l with Ltop => top a | Lmiddle => middle a | Lbottom => bottom a end.

Definition setPoints (r : MatchupResult) (p1 p2 : Z) : MatchupResult :=
  mkMatchup (player1Id r) (player2Id r) (layerComparisons r) p1 p2
            (player1Foul r) (player2Foul r).

(** The body of the loop over the three layers in [compareArrangements]. *)
Definition compareLayer (player1 player2 : Player) (a1 a2 : PlayerArrangement)
    (result : MatchupResult) (l : LayerName) : MatchupResult :=
  let p1Eval := evalCards (placed (layerOf a1 l)) in
  let p2Eval := evalCards (placed (layerOf a2 l)) in
  let comparison := compareHands p1Eval p2Eval in
  let winningEval :=
    if comparison >? 0 then Some p1Eval
    else if comparison <? 0 then Some p2Eval else None in
  let pointsAwarded :=
    match winningEval with Some e => getHandPoints e | None => 0 end in
  let layerResult :=
    mkLayerComparison l (value p1Eval) (value p2Eval)
      (if comparison >? 0 then Some (player_id player1)
       else if comparison <? 0 then Some (player_id player2) else None) in
  let p1 :=
    if comparison >? 0 then player1TotalPoints result + pointsAwarded
    else player1TotalPoints result in
  let p2 :=
    if comparison >? 0 then player2TotalPoints result
    else if comparison <? 0 then player2TotalPoints result + pointsAwarded
    else player2TotalPoints result in
  mkMatchup (player1Id result) (player2Id result)
            (layerComparisons result ++ [layerResult]) p1 p2
            (player1Foul result) (player2Foul result).

Definition isFoul (p : Player) : bool :=
  match arrangement p with
  | Some a => negb (validateArrangement a)
  | None => true
  end.

Definition compareArrangements (player1 player2 : Player) : MatchupResult :=
  let result :=
    mkMatchup (player_id player1) (player_id player2) [] 0 0
              (isFoul player1) (isFoul player2) in
  let p1SpecialHand := negb (player1Foul result) && hasSpecialHand player1 in
  let p2SpecialHand := negb (player2Foul result) && hasSpecialHand player2 in
  if p1SpecialHand && p2SpecialHand then result
  else if p1SpecialHand then setPoints result 10 (player2TotalPoints result)
  else if p2SpecialHand then setPoints result (player1TotalPoints result) 10
  else if player1Foul result && player2Foul result then result
  else if player1Foul result then setPoints result (player1TotalPoints result) 10
  else if player2Foul result then setPoints result 10 (player2TotalPoints result)
  else
    match arrangement player1, arrangement player2 with
    | Some a1, Some a2 =>
        fold_left (compareLayer player1 player2 a1 a2) [Ltop; Lmiddle; Lbottom]
                  result
    | _, _ => result (* not reached: a missing arrangement is a foul *)
    end.

(** [scores.find(s => s.playerId === id)]: the position of the entry found;
    the source holds a reference to that entry and mutates it in place. *)
Definition findScore (pid : string) (scores : list RoundScore) : option nat :=
  fst <$> list_find (fun s => playerId s = pid) scores.

(** [s.pointsAgainst[k] = v].  [pointsAgainst] is a plain object, created as
    [{}]; the map holds its own properties.  The assignment stores [v] under
    every key but ["__proto__"]: that key reaches the setter inherited from
    [Object.prototype], which ignores a value that is a number, so nothing
    is stored. *)
Definition setPointsAgainst (k : string) (v : Z) (s : RoundScore) : RoundScore :=
  if bool_decide (k = "__proto__") then s
  else mkRoundScore (playerId s) (playerName s) (<[k := v]> (pointsAgainst s))
                    (totalPoints s) (cashChange s).

Definition addTotalPoints (d : Z) (s : RoundScore) : RoundScore :=
  mkRoundScore (playerId s) (playerName s) (pointsAgainst s)
               (totalPoints s + d) (cashChange s).

Definition setCashChange (s : RoundScore) : RoundScore :=
  mkRoundScore (playerId s) (playerName s) (pointsAgainst s)
               (totalPoints s) (totalPoints s).

(** [result.player1TotalPoints - result.player2TotalPoints] *)
Definition netPoints (result : MatchupResult) : Z :=
  player1TotalPoints result - player2TotalPoints result.

(** The body of the inner loop of [calculateRoundScores].  The two entries
    are looked up first and then updated through their references, in the
    order of the four assignments of the source; when both references are to
    the same entry the updates land on that one entry.  A failed [find]
    (a [TypeError] in the source) cannot occur, see [findScore_initial]. *)
Definition scorePair (pi pj : Player) (scores : list RoundScore)
    : list RoundScore :=
  let result := compareArrangements pi pj in
  match findScore (player1Id result) scores,
        findScore (player2Id result) scores with
  | Some k1, Some k2 =>
      let p1Net := netPoints result in
      let scores := alter (setPointsAgainst (player2Id result) p1Net) k1 scores in
      let scores := alter (setPointsAgainst (player1Id result) (- p1Net)) k2 scores in
      let scores := alter (addTotalPoints p1Net) k1 scores in
      let scores := alter (addTotalPoints (- p1Net)) k2 scores in
      scores
  | _, _ => scores
  end.

Definition scoreIndexPair (activePlayers : list Player)
    (scores : list RoundScore) (ij : nat * nat) : list RoundScore :=
  match activePlayers !! fst ij, activePlayers !! snd ij with
  | Some pi, Some pj => scorePair pi pj scores
  | _, _ => scores
  end.

Definition initialScores (activePlayers : list Player) : list RoundScore :=
  map (fun p => mkRoundScore (player_id p) (name p) ∅ 0 0) activePlayers.

Definition calculateRoundScores (players : list Player) : list RoundScore :=
  let activePlayers := List.filter (fun p => negb (isBankrupt p)) players in
  let n := length activePlayers in
  let scores :=
    fold_left
      (fun scores i =>
         fold_left
           (fun scores j => scoreIndexPair activePlayers scores (i, j))
           (seq (i + 1) (n - (i + 1))) scores)
      (seq 0 n) (initialScores activePlayers) in
  map setCashChange scores.

Fixpoint combinations {T} (arr : list T) (k : nat) : list (list T) :=
  match k with
  | O => [[]]
  | S k' =>
      if (length arr <? k)%nat then []
      else match arr with
           | [] => []
           | first :: rest =>
               map (cons first) (combinations rest k') ++ combinations rest k
           end
  end.

(** [scoreArrangement] of game-logic.ts: the plain sum, no special case. *)
Definition scoreArrangement (a : PlayerArrangement) : Z :=
  let topEval := evalCards (placed (top a)) in
  let middleEval := evalCards (placed (middle a)) in
  let bottomEval := evalCards (placed (bottom a)) in
  let typeScore (t : HandType) := (7 - handTypeNum t) * 100 in
  let topScore := typeScore (type topEval) + value topEval in
  let middleScore := typeScore (type middleEval) + value middleEval in
  let bottomScore := typeScore (type bottomEval) + value bottomEval in
  topScore + middleScore + bottomScore.

(** The six assignments of the three groups to the layers. *)
Definition layerPermutations : list (nat * nat * nat) :=
  [(0, 1, 2); (0, 2, 1); (1, 0, 2); (1, 2, 0); (2, 0, 1); (2, 1, 0)]%nat.

Definition tryArrangement (best : option PlayerArrangement * Score)
    (a : PlayerArrangement) : option PlayerArrangement * Score :=
  if validateArrangement a then
    let score := Num (scoreArrangement a) in
    if score_gt score (snd best) then (Some a, score) else best
  else best.

(** [findBestArrangement] of game-logic.ts.  [group.includes(c)] compares
    card objects; the cards of a hand are distinct objects with distinct
    ids, so equality of cards stands for it. *)
Definition findBestArrangement (hand : list Card) : option PlayerArrangement :=
  if negb (length hand =? 9)%nat then None
  else
    fst (fold_left
      (fun best group1 =>
         let remaining1 :=
           List.filter (fun c => negb (bool_decide (c ∈ group1))) hand in
         fold_left
           (fun best group2 =>
              let group3 :=
                List.filter (fun c => negb (bool_decide (c ∈ group2))) remaining1 in
              let groups := [group1; group2; group3] in
              fold_left
                (fun best (perm : nat * nat * nat) =>
                   let '(i, j, k) := perm in
                   tryArrangement best
                     (mkArrangement
                        (mkLayer (Some <$> groups !!! i))
                        (mkLayer (Some <$> groups !!! j))
                        (mkLayer (Some <$> groups !!! k))))
                layerPermutations best)
           (combinations remaining1 3) best)
      (combinations hand 3) (None, NegInfinity)).

(** *** The deck and the deal *)

Definition SUITS : list Suit := [hearts; diamonds; clubs; spades].
Definition RANKS : list Rank :=
  [R2; R3; R4; R5; R6; R7; R8; R9; R10; RJ; RQ; RK; RA].

Definition createDeck : list Card :=
  flat_map (fun s => map (fun r => standardCard r s) RANKS) SUITS
  ++ map wildCard [1; 2; 3].

(** [[shuffled[i], shuffled[j]] = [shuffled[j], shuffled[i]]]: both elements
    are read, then both are written.  The loop only swaps positions inside
    the array. *)
Definition swapAt (shuffled : list Card) (i j : nat) : list Card :=
  match shuffled !! i, shuffled !! j with
  | Some xi, Some xj => <[j := xi]> (<[i := xj]> shuffled)
  | _, _ => shuffled
  end.

(** [shuffleDeck], with the array of random unsigned 32-bit values that
    [crypto.getRandomValues] fills given as an argument; it has one entry
    for each card.  The loop runs [i] from [length - 1] down to 1. *)
Definition shuffleDeck (array : list N) (deck : list Card) : list Card :=
  fold_left
    (fun shuffled i =>
       let j := N.to_nat (default 0%N (array !! i) mod N.of_nat (i + 1)) in
       swapAt shuffled i j)
    (rev (seq 1 (length deck - 1))) deck.

Definition getCardCount (numPlayers startingPlayerIndex playerIndex : nat) : nat :=
  if (numPlayers =? 6)%nat && (playerIndex =? startingPlayerIndex)%nat
  then 10%nat else 9%nat.

(** The two loops of [dealCards] over an already shuffled deck.  A hand is
    filled with [shuffled[cardIndex++]], which is [undefined] ([None]) past
    the end of the deck. *)
Definition dealFrom (shuffled : list Card) (numPlayers startingPlayerIndex : nat)
    : list (list (option Card)) * list Card :=
  let '(cardIndex, hands) :=
    fold_left
      (fun (st : nat * list (list (option Card))) i =>
         let cardCount := getCardCount numPlayers startingPlayerIndex i in
         (fst st + cardCount,
          snd st ++ [map (fun k => shuffled !! k) (seq (fst st) cardCount)])%nat)
      (seq 0 numPlayers) (0%nat, []) in
  (hands, drop cardIndex shuffled).

Definition dealCards (array : list N) (deck : list Card)
    (numPlayers startingPlayerIndex : nat)
    : list (list (option Card)) * list Card :=
  dealFrom (shuffleDeck array deck) numPlayers startingPlayerIndex.

(** *** After the round *)

(** The amounts are integers.  [player.cash + score.cashChange] is the sum
    of the integers as long as both and the sum are safe integers (at most
    2^53 - 1 in absolute value); what is proved of this function is proved
    for amounts in that range. *)
Definition applyRoundScores (players : list Player) (scores : list RoundScore)
    : list Player :=
  map (fun player =>
         match list_find (fun s => playerId s = player_id player) scores with
         | None => player
         | Some (_, score) =>
             let newCash := cash player + cashChange score in
             mkPlayer (player_id player) (name player) (isHuman player) newCash
                      (hand player) (arrangement player) (isReady player)
                      (newCash <=? 0)
         end)
      players.

Definition isArrangementComplete (a : PlayerArrangement) : bool :=
  forallb (fun c : option Card => negb (bool_decide (c = None)))
          (cards (top a) ++ cards (middle a) ++ cards (bottom a)).

(** [activePlayers.reduce(...)] without initial value starts from the first
    active player. *)
Definition findWinner (players : list Player) : option Player :=
  match List.filter (fun p => negb (isBankrupt p)) players with
  | [] => None
  | first :: rest =>
      Some (fold_left (fun richest player =>
                         if cash player >? cash richest then player else richest)
                      rest first)
  end.

Definition shouldGameEnd (players : list Player) : bool :=
  existsb (fun p => isBankrupt p) players.

End GameLogic.

(** ** game-logic.ts, the earlier variant

    The earlier text of the file differs from the later one in three
    functions: [evaluateHand] has no wildcard rule and no same-suit flag in
    its sum-modulo case, only all nines is an automatic win, and a layer won
    is worth one point.  The helpers they call are the same text in both
    variants and are taken from [GameLogic]. *)

Module Legacy.

Import GameLogic.

Definition evaluateCards (cs : list Card) : HandEvaluation :=
  match isThreeOfKind cs with
  | None => invalidHand
  | Some threeOfKind =>
    if isThreeOfKind_flag threeOfKind && negb (hasWild threeOfKind) then
      mkEval THREE_OF_KIND_PURE (rankValue threeOfKind)
        ("Three of a kind: " +:+ rankText (default WILD (rank <$> cs !! 0%nat)) +:+ "s")
        None
    else if isJQKStraightFlush cs then
      mkEval STRAIGHT_FLUSH_JQK 100 "Straight Flush J-Q-K" None
    else if isJQKStraight cs then
      mkEval STRAIGHT_JQK 100 "Straight J-Q-K" None
    else if isThreeOfKind_flag threeOfKind && hasWild threeOfKind then
      mkEval THREE_OF_KIND_WILD (rankValue threeOfKind)
        ("Three of a kind (with wild): " +:+ pretty (rankValue threeOfKind))
        None
    else if isThreeFaceCards cs then
      mkEval THREE_FACE_CARDS
        (fold_left (fun sum c => sum + getComparisonRankValue (rank c)) cs 0)
        "Three face cards" None
    else
      let sumMod := getSumModulo cs in
      mkEval SUM_MODULO sumMod ("Sum: " +:+ pretty sumMod) None
  end.

Definition evaluateHand (slots : list (option Card)) : HandEvaluation :=
  if negb (length slots =? 3)%nat || existsb (fun c => bool_decide (c = None)) slots
  then invalidHand
  else evaluateCards (omap id slots).

Definition evalCards (cs : list Card) : HandEvaluation :=
  evaluateHand (Some <$> cs).

Definition validateArrangement (a : PlayerArrangement) : bool :=
  let topCards := placed (top a) in
  let middleCards := placed (middle a) in
  let bottomCards := placed (bottom a) in
  if negb (length topCards =? 3)%nat || negb (length middleCards =? 3)%nat
     || negb (length bottomCards =? 3)%nat
  then false
  else
    let topEval := evalCards topCards in
    let middleEval := evalCards middleCards in
    let bottomEval := evalCards bottomCards in
    if compareHands topEval middleEval >? 0 then false
    else if compareHands middleEval bottomEval >? 0 then false
    else true.

Definition checkAutoWin (p : Player) : bool :=
  match arrangement p with
  | None => false
  | Some a =>
      forallb
        (fun l : Layer =>
           let cs := placed l in
           if negb (length cs =? 3)%nat then false
           else if existsb (fun c => isWild c) cs then false
           else
             let eval_ := evalCards cs in
             if negb (bool_decide (type eval_ = SUM_MODULO)) || (value eval_ <? 9)
             then false
             else true)
        [top a; middle a; bottom a]
  end.

Definition compareLayer (player1 player2 : Player) (a1 a2 : PlayerArrangement)
    (result : MatchupResult) (l : LayerName) : MatchupResult :=
  let p1Eval := evalCards (placed (layerOf a1 l)) in
  let p2Eval := evalCards (placed (layerOf a2 l)) in
  let comparison := compareHands p1Eval p2Eval in
  let layerResult :=
    mkLayerComparison l (value p1Eval) (value p2Eval)
      (if comparison >? 0 then Some (player_id player1)
       else if comparison <? 0 then Some (player_id player2) else None) in
  let p1 :=
    if comparison >? 0 then player1TotalPoints result + 1
    else player1TotalPoints result in
  let p2 :=
    if comparison >? 0 then player2TotalPoints result
    else if comparison <? 0 then player2TotalPoints result + 1
    else player2TotalPoints result in
  mkMatchup (player1Id result) (player2Id result)
            (layerComparisons result ++ [layerResult]) p1 p2
            (player1Foul result) (player2Foul result).

Definition isFoul (p : Player) : bool :=
  match arrangement p with
  | Some a => negb (validateArrangement a)
  | None => true
  end.

Definition compareArrangements (player1 player2 : Player) : MatchupResult :=
  let result :=
    mkMatchup (player_id player1) (player_id player2) [] 0 0
              (isFoul player1) (isFoul player2) in
  let p1AutoWin := negb (player1Foul result) && checkAutoWin player1 in
  let p2AutoWin := negb (player2Foul result) && checkAutoWin player2 in
  if p1AutoWin && p2AutoWin then result
  else if p1AutoWin then setPoints result 10 (player2TotalPoints result)
  else if p2AutoWin then setPoints result (player1TotalPoints result) 10
  else if player1Foul result && player2Foul result then result
  else if player1Foul result then setPoints result (player1TotalPoints result) 10
  else if player2Foul result then setPoints result 10 (player2TotalPoints result)
  else
    match arrangement player1, arrangement player2 with
    | Some a1, Some a2 =>
        fold_left (compareLayer player1 player2 a1 a2) [Ltop; Lmiddle; Lbottom]
                  result
    | _, _ => result
    end.

End Legacy.

(** ** ai.ts *)

Module AI.

Import GameLogic.

Definition isAllNinesArrangement (a : PlayerArrangement) : bool :=
  forallb
    (fun l : Layer =>
       let cs := placed l in
       if negb (length cs =? 3)%nat then false
       else if existsb (fun c => isWild c) cs then false
       else
         let eval_ := evalCards cs in
         if negb (bool_decide (type eval_ = SUM_MODULO)) || (value eval_ <? 9)
         then false
         else true)
    [top a; middle a; bottom a].

Definition hasFourOfAKindArrangement (a : PlayerArrangement) : bool :=
  let allCards := omap id (cards (top a) ++ cards (middle a) ++ cards (bottom a)) in
  someCountAtLeast4 (countRanks allCards).

Definition hasSpecialHandArrangement (a : PlayerArrangement) : bool :=
  isAllNinesArrangement a || hasFourOfAKindArrangement a.

Definition handScore (eval_ : HandEvaluation) : Z :=
  let typeScore := (7 - handTypeNum (type eval_)) * 100 in
  typeScore + value eval_.

Definition scoreArrangement (a : PlayerArrangement) : Score :=
  let topCards := placed (top a) in
  let middleCards := placed (middle a) in
  let bottomCards := placed (bottom a) in
  if negb (length topCards =? 3)%nat || negb (length middleCards =? 3)%nat
     || negb (length bottomCards =? 3)%nat
  then NegInfinity
  else if negb (validateArrangement a) then NegInfinity
  else if hasSpecialHandArrangement a then Num 10000
  else
    let topEval := evalCards topCards in
    let middleEval := evalCards middleCards in
    let bottomEval := evalCards bottomCards in
    Num (handScore topEval + handScore middleEval + handScore bottomEval).

Definition indices : list nat := [0; 1; 2; 3; 4; 5; 6; 7; 8]%nat.

(** The index triples [(topIndices, middleIndices, bottomIndices)] in the
    order the six nested loops of [findBestArrangement] produce them.
    [remaining1] has six elements, so [remaining1[m]] with [m < 6] is always
    in range. *)
Definition candidateIndices : list (list nat * list nat * list nat) :=
  b1 ← seq 0 7;
  b2 ← seq (b1 + 1) (8 - (b1 + 1));
  b3 ← seq (b2 + 1) (9 - (b2 + 1));
  let bottomIndices := [b1; b2; b3] in
  let remaining1 :=
    List.filter (fun i => negb (bool_decide (i ∈ bottomIndices))) indices in
  m1 ← seq 0 4;
  m2 ← seq (m1 + 1) (5 - (m1 + 1));
  m3 ← seq (m2 + 1) (6 - (m2 + 1));
  let middleIndices := [remaining1 !!! m1; remaining1 !!! m2; remaining1 !!! m3] in
  let topIndices :=
    List.filter (fun i => negb (bool_decide (i ∈ middleIndices))) remaining1 in
  [(topIndices, middleIndices, bottomIndices)].

(** [idx.map(i => cards[i])]; every index used is below 9, the length of
    the hand, so each slot holds a card. *)
Definition pick (cards : list Card) (idx : list nat) : Layer :=
  mkLayer (map (fun i => cards !! i) idx).

Definition arrangementOf (cards : list Card)
    (c : list nat * list nat * list nat) : PlayerArrangement :=
  let '(topIndices, middleIndices, bottomIndices) := c in
  mkArrangement (pick cards topIndices) (pick cards middleIndices)
                (pick cards bottomIndices).

(** The innermost loop body: score the candidate, keep it when strictly
    better than the best so far. *)
Definition consider (best : option PlayerArrangement * Score)
    (a : PlayerArrangement) : option PlayerArrangement * Score :=
  let score := scoreArrangement a in
  if score_gt score (snd best) then (Some a, score) else best.

Definition getCardSortValue (c : Card) : Z :=
  if isWild c then 15
  else match rank c with
       | RankOf R2 => 2 | RankOf R3 => 3 | RankOf R4 => 4 | RankOf R5 => 5
       | RankOf R6 => 6 | RankOf R7 => 7 | RankOf R8 => 8 | RankOf R9 => 9
       | RankOf R10 => 10 | RankOf RJ => 11 | RankOf RQ => 12
       | RankOf RK => 13 | RankOf RA => 14
       | WILD => 0
       end.

(** The comparator given to [sort] in [createSimpleArrangement]. *)
Definition compareCards (a b : Card) : Z :=
  if isWild a && negb (isWild b) then 1
  else if negb (isWild a) && isWild b then -1
  else if isWild a && isWild b then 0
  else getCardSortValue b - getCardSortValue a.

(** [Array.prototype.sort] is a stable sort; with this comparator (a total
    preorder) its result is the stable insertion sort. *)
Fixpoint insertCard (x : Card) (l : list Card) : list Card :=
  match l with
  | [] => [x]
  | y :: l' => if compareCards x y <=? 0 then x :: y :: l' else y :: insertCard x l'
  end.

Fixpoint sortCards (l : list Card) : list Card :=
  match l with
  | [] => []
  | x :: l' => insertCard x (sortCards l')
  end.

Definition createSimpleArrangement (cards : list Card) : PlayerArrangement :=
  let sorted := sortCards cards in
  let arrangement :=
    mkArrangement (pick sorted [6; 7; 8]%nat) (pick sorted [3; 4; 5]%nat)
                  (pick sorted [0; 1; 2]%nat) in
  if validateArrangement arrangement then arrangement
  else
    let reversed :=
      mkArrangement (pick sorted [0; 1; 2]%nat) (pick sorted [3; 4; 5]%nat)
                    (pick sorted [6; 7; 8]%nat) in
    if validateArrangement reversed then reversed
    else
      mkArrangement (pick cards [0; 1; 2]%nat) (pick cards [3; 4; 5]%nat)
                    (pick cards [6; 7; 8]%nat).

Definition searchCandidates (cards : list Card)
    : option PlayerArrangement * Score :=
  fold_left (fun best c => consider best (arrangementOf cards c))
            candidateIndices (None, NegInfinity).

(** [findBestArrangement] of ai.ts (the message written to the console for
    a hand that is not of nine cards is not modelled). *)
Definition findBestArrangement (cards : list Card) : PlayerArrangement :=
  if negb (length cards =? 9)%nat then createEmptyArrangement
  else
    match searchCandidates cards with
    | (Some bestArrangement, Num _) => bestArrangement
    | _ => createSimpleArrangement cards
    end.

(** [[...cards.slice(0, i), ...cards.slice(i + 1)]] *)
Definition removeAt (cards : list Card) (i : nat) : list Card :=
  take i cards ++ drop (i + 1) cards.

(** The score [chooseCardToDiscard] computes for position [i]. *)
Definition discardScore (cards : list Card) (i : nat) : Score :=
  scoreArrangement (findBestArrangement (removeAt cards i)).

(** [cards[0]] of an empty array is [undefined], here [None]. *)
Definition chooseCardToDiscard (cards : list Card) : option Card :=
  if negb (length cards =? 10)%nat then cards !! 0%nat
  else
    fst (fold_left
      (fun (best : option Card * Score) i =>
         let score := discardScore cards i in
         if score_gt score (snd best) then (cards !! i, score) else best)
      (seq 0 (length cards)) (cards !! 0%nat, NegInfinity)).

(** [permutations]: the recursion is on an array one element shorter, so
    [length arr] levels of recursion are enough; [fuel] counts them. *)
Fixpoint permutationsFuel {T} (fuel : nat) (arr : list T) : list (list T) :=
  if (length arr <=? 1)%nat then [arr]
  else match fuel with
       | O => []
       | S fuel' =>
           flat_map
             (fun i =>
                match arr !! i with
                | Some current =>
                    map (cons current)
                        (permutationsFuel fuel' (take i arr ++ drop (i + 1) arr))
                | None => []
                end)
             (seq 0 (length arr))
       end.

Definition permutations {T} (arr : list T) : list (list T) :=
  permutationsFuel (length arr) arr.

End AI.

(** * Properties *)

(** ** The evaluator *)

Section Evaluator.

Import GameLogic.

Lemma omap_id_Some {A} (l : list A) : omap id (Some <$> l) = l.
Proof.
  induction l as [|x l IH]; [reflexivity|].
  change (x :: omap id (Some <$> l) = x :: l). now rewrite IH.
Qed.

Lemma existsb_null_Some {A} `{EqDecision A} (l : list A) :
  existsb (fun c : option A => bool_decide (c = None)) (Some <$> l) = false.
Proof. induction l as [|x l IH]; simpl; [reflexivity | exact IH]. Qed.

Lemma evalCards_eq (cs : list Card) :
  evalCards cs = if (length cs =? 3)%nat then evaluateCards cs else invalidHand.
Proof.
  unfold evalCards, evaluateHand.
  rewrite length_fmap, existsb_null_Some, omap_id_Some.
  destruct (length cs =? 3)%nat; reflexivity.
Qed.

Lemma evalCards_three (cs : list Card) :
  length cs = 3%nat -> evalCards cs = evaluateCards cs.
Proof. intros H. rewrite evalCards_eq, H. reflexivity. Qed.

(** With three cards [isThreeOfKind] never reads past the end of
    [nonWildCards]. *)
Lemma isThreeOfKind_three (cs : list Card) :
  length cs = 3%nat -> is_Some (isThreeOfKind cs).
Proof.
  destruct cs as [|a [|b [|c [|d l]]]]; try discriminate. intros _.
  unfold isThreeOfKind, nonWild, wildCount. simpl.
  destruct (isWild a), (isWild b), (isWild c); simpl;
    repeat match goal with
      | |- context [bool_decide ?P] => destruct (bool_decide P)
      end; simpl; eauto.
Qed.

Lemma isSameSuit_cards_spec (cs : list Card) :
  isSameSuit_cards cs = true <->
  forall a b, a ∈ cs -> b ∈ cs -> isWild a = false -> isWild b = false ->
              suit a = suit b.
Proof.
  assert (Hnw : forall c, c ∈ nonWild cs <-> c ∈ cs /\ isWild c = false).
  { intros c. unfold nonWild. rewrite !list_elem_of_In, filter_In.
    destruct (isWild c); simpl; intuition congruence. }
  unfold isSameSuit_cards. destruct (nonWild cs) as [|c0 [|c1 l]] eqn:E.
  - split; [|reflexivity]. intros _ a b Ha _ Hwa _.
    assert (H : a ∈ @nil Card) by (apply Hnw; auto). inversion H.
  - split; [|reflexivity]. intros _ a b Ha Hb Hwa Hwb.
    assert (H1 : a ∈ [c0]) by (apply Hnw; auto).
    assert (H2 : b ∈ [c0]) by (apply Hnw; auto).
    apply list_elem_of_singleton in H1, H2. congruence.
  - rewrite forallb_forall. split.
    + intros H a b Ha Hb Hwa Hwb.
      assert (H1 : a ∈ c0 :: c1 :: l) by (apply Hnw; auto).
      assert (H2 : b ∈ c0 :: c1 :: l) by (apply Hnw; auto).
      apply list_elem_of_In, H, bool_decide_eq_true in H1.
      apply list_elem_of_In, H, bool_decide_eq_true in H2. congruence.
    + intros H c Hc. apply bool_decide_eq_true.
      apply list_elem_of_In in Hc.
      assert (H0 : c0 ∈ c0 :: c1 :: l) by left.
      apply Hnw in Hc, H0. apply H; tauto.
Qed.

(** C10.  [evaluateHand] on an input whose length is not 3, or that holds an
    empty slot, returns the sentinel evaluation: the weakest category
    [SUM_MODULO] with tie-break value 0 (labelled "Invalid hand"); the
    function is total, nothing is raised on this path. *)
Theorem evaluateHand_malformed (slots : list (option Card)) :
  length slots <> 3%nat \/ None ∈ slots ->
  evaluateHand slots = mkEval SUM_MODULO 0 "Invalid hand" None.
Proof.
  intros H. unfold evaluateHand.
  destruct (length slots =? 3)%nat eqn:El; simpl; [|reflexivity].
  apply Nat.eqb_eq in El. destruct H as [H|H]; [contradiction|].
  assert (Hex : existsb (fun c : option Card => bool_decide (c = None)) slots = true).
  { apply existsb_exists. exists None. split.
    - now apply list_elem_of_In.
    - now apply bool_decide_eq_true. }
  rewrite Hex. reflexivity.
Qed.

Lemma evaluateHand_malformed_witness :
  evaluateHand [Some (standardCard RJ hearts); None; Some (standardCard RQ clubs)]
  = mkEval SUM_MODULO 0 "Invalid hand" None.
Proof.
  apply (evaluateHand_malformed
           [Some (standardCard RJ hearts); None; Some (standardCard RQ clubs)]).
  right. apply list_elem_of_In. simpl. tauto.
Defined.

(** C3.  A hand of three cards that evaluates to [SUM_MODULO] and holds a
    wildcard has tie-break value 9, whatever the sum of its cards; its
    same-suit flag is still computed from the non-wild cards: it is set
    exactly when all the non-wild cards share one suit. *)
Theorem evaluateHand_sum_modulo_wild (cs : list Card) :
  length cs = 3%nat ->
  type (evalCards cs) = SUM_MODULO ->
  (exists c, c ∈ cs /\ isWild c = true) ->
  value (evalCards cs) = 9
  /\ isSameSuit (evalCards cs) = Some (isSameSuit_cards cs)
  /\ (isSameSuit (evalCards cs) = Some true <->
      forall a b, a ∈ cs -> b ∈ cs -> isWild a = false -> isWild b = false ->
                  suit a = suit b).
Proof.
  intros Hlen Hty (c & Hc & Hw).
  assert (Hex : existsb (fun c => isWild c) cs = true).
  { apply existsb_exists. exists c. split; [now apply list_elem_of_In | exact Hw]. }
  rewrite evalCards_three in * by assumption.
  destruct (isThreeOfKind_three cs Hlen) as [tk Htk].
  unfold evaluateCards in *. rewrite Htk in *.
  destruct (isThreeOfKind_flag tk && negb (hasWild tk)); [discriminate|].
  destruct (isJQKStraightFlush cs); [discriminate|].
  destruct (isJQKStraight cs); [discriminate|].
  destruct (isThreeOfKind_flag tk && hasWild tk); [discriminate|].
  destruct (isThreeFaceCards cs); [discriminate|].
  rewrite Hex. simpl. repeat split.
  - intros H. apply isSameSuit_cards_spec. congruence.
  - intros H. apply isSameSuit_cards_spec in H. congruence.
Qed.

Lemma evaluateHand_sum_modulo_wild_witness :
  value (evalCards [standardCard R2 hearts; wildCard 1; standardCard R4 spades]) = 9
  /\ isSameSuit (evalCards [standardCard R2 hearts; wildCard 1; standardCard R4 spades])
     = Some false.
Proof.
  destruct (evaluateHand_sum_modulo_wild
              [standardCard R2 hearts; wildCard 1; standardCard R4 spades])
    as (Hv & Hs & _).
  - reflexivity.
  - vm_compute. reflexivity.
  - exists (wildCard 1). split; [|reflexivity].
    apply list_elem_of_In. simpl. tauto.
  - split; [exact Hv | exact Hs].
Defined.

(** C7.  Two evaluations that are both [STRAIGHT_FLUSH_JQK], or both
    [STRAIGHT_JQK], compare as a tie, whatever their tie-break values
    and whatever cards they were built from. *)
Theorem compareHands_jqk_tie (h1 h2 : HandEvaluation) :
  (type h1 = STRAIGHT_FLUSH_JQK /\ type h2 = STRAIGHT_FLUSH_JQK)
  \/ (type h1 = STRAIGHT_JQK /\ type h2 = STRAIGHT_JQK) ->
  compareHands h1 h2 = 0.
Proof.
  intros [[H1 H2]|[H1 H2]]; unfold compareHands; rewrite H1, H2; reflexivity.
Qed.

Lemma compareHands_jqk_tie_witness :
  compareHands
    (evalCards [standardCard RJ spades; standardCard RQ spades; standardCard RK spades])
    (evalCards [wildCard 1; standardCard RQ diamonds; standardCard RK diamonds])
  = 0
  /\ compareHands (mkEval STRAIGHT_JQK 100 "Straight J-Q-K" None)
                  (mkEval STRAIGHT_JQK 7 "Straight J-Q-K" None) = 0.
Proof.
  split.
  - apply compareHands_jqk_tie. left. split; vm_compute; reflexivity.
  - apply compareHands_jqk_tie. right. split; reflexivity.
Defined.

Lemma getComparisonRankValue_bound (r : CardRank) :
  0 <= getComparisonRankValue r <= 14.
Proof. destruct r as [[]|]; simpl; lia. Qed.

(** The tie-break value of a three-card hand lies between 0 and 100. *)
Lemma evaluateCards_value_bound (cs : list Card) :
  length cs = 3%nat -> 0 <= value (evaluateCards cs) <= 100.
Proof.
  intros Hlen. destruct (isThreeOfKind_three cs Hlen) as [tk Htk].
  assert (Htkv : 0 <= rankValue tk <= 14).
  { revert Htk. unfold isThreeOfKind.
    repeat match goal with
      | |- context [if ?b then _ else _] => destruct b
      | |- context [?l !! ?i] => destruct (l !! i) as [?c|]; simpl
      end; intros [= <-]; simpl;
      try lia; apply getComparisonRankValue_bound. }
  unfold evaluateCards. rewrite Htk.
  destruct (isThreeOfKind_flag tk && negb (hasWild tk)); [simpl; lia|].
  destruct (isJQKStraightFlush cs); [simpl; lia|].
  destruct (isJQKStraight cs); [simpl; lia|].
  destruct (isThreeOfKind_flag tk && hasWild tk); [simpl; lia|].
  destruct (isThreeFaceCards cs).
  - destruct cs as [|a [|b [|c [|d l]]]]; try discriminate. simpl.
    pose proof (getComparisonRankValue_bound (rank a)).
    pose proof (getComparisonRankValue_bound (rank b)).
    pose proof (getComparisonRankValue_bound (rank c)). lia.
  - destruct (existsb (fun c => isWild c) cs); simpl; [lia|].
    unfold getSumModulo.
    match goal with |- context [?x mod 10] =>
      pose proof (Z.mod_pos_bound x 10 ltac:(lia)) end. lia.
Qed.

(** A [SUM_MODULO] evaluation of three cards has value at most 9. *)
Lemma evaluateCards_sum_modulo_bound (cs : list Card) :
  length cs = 3%nat -> type (evaluateCards cs) = SUM_MODULO ->
  0 <= value (evaluateCards cs) <= 9.
Proof.
  intros Hlen. destruct (isThreeOfKind_three cs Hlen) as [tk Htk].
  unfold evaluateCards. rewrite Htk.
  destruct (isThreeOfKind_flag tk && negb (hasWild tk)); [discriminate|].
  destruct (isJQKStraightFlush cs); [discriminate|].
  destruct (isJQKStraight cs); [discriminate|].
  destruct (isThreeOfKind_flag tk && hasWild tk); [discriminate|].
  destruct (isThreeFaceCards cs); [discriminate|].
  destruct (existsb (fun c => isWild c) cs); simpl; intros _; [lia|].
  unfold getSumModulo.
  match goal with |- context [?x mod 10] =>
    pose proof (Z.mod_pos_bound x 10 ltac:(lia)) end. lia.
Qed.

End Evaluator.

(** ** The order of the cards of a hand does not matter *)

Section EvaluationOrder.

Import GameLogic.

Lemma filter_perm {A} (f : A -> bool) (l l' : list A) :
  Permutation l l' -> Permutation (List.filter f l) (List.filter f l').
Proof.
  induction 1 as [|x l l' _ IH|x y l|l l' l'' _ IH1 _ IH2]; simpl.
  - constructor.
  - destruct (f x); [now constructor | exact IH].
  - destruct (f x), (f y); try reflexivity. apply perm_swap.
  - now transitivity (List.filter f l').
Qed.

Lemma forallb_perm {A} (f : A -> bool) (l l' : list A) :
  Permutation l l' -> forallb f l = forallb f l'.
Proof.
  induction 1 as [|x l l' _ IH|x y l|l l' l'' _ IH1 _ IH2]; simpl.
  - reflexivity.
  - now rewrite IH.
  - destruct (f x), (f y); reflexivity.
  - congruence.
Qed.

Lemma existsb_perm {A} (f : A -> bool) (l l' : list A) :
  Permutation l l' -> existsb f l = existsb f l'.
Proof.
  induction 1 as [|x l l' _ IH|x y l|l l' l'' _ IH1 _ IH2]; simpl.
  - reflexivity.
  - now rewrite IH.
  - destruct (f x), (f y); reflexivity.
  - congruence.
Qed.

Lemma fold_left_perm {A B} (f : B -> A -> B) (l l' : list A) :
  (forall b x y, f (f b x) y = f (f b y) x) ->
  Permutation l l' -> forall b, fold_left f l b = fold_left f l' b.
Proof.
  intros Hcomm.
  induction 1 as [|x l l' _ IH|x y l|l l' l'' _ IH1 _ IH2]; intros b; simpl.
  - reflexivity.
  - apply IH.
  - now rewrite Hcomm.
  - now rewrite IH1, IH2.
Qed.

Lemma Permutation_three_inv {A} (a b c : A) (l : list A) :
  Permutation [a; b; c] l ->
  l = [a; b; c] \/ l = [a; c; b] \/ l = [b; a; c] \/ l = [b; c; a]
  \/ l = [c; a; b] \/ l = [c; b; a].
Proof.
  intros H. symmetry in H.
  apply Permutation_cons_inv_r in H as (k1 & k2 & -> & H).
  apply Permutation_length_2_inv in H.
  destruct k1 as [|x [|y [|z k1]]]; simpl in H;
    destruct H as [H|H]; try discriminate H;
    simplify_eq; simpl; tauto.
Qed.

Lemma nonWild_perm cs cs' :
  Permutation cs cs' -> Permutation (nonWild cs) (nonWild cs').
Proof. apply filter_perm. Qed.

Lemma wildCount_perm cs cs' : Permutation cs cs' -> wildCount cs = wildCount cs'.
Proof. intros H. unfold wildCount. apply Permutation_length, filter_perm, H. Qed.

Lemma isJQKStraight_perm cs cs' :
  Permutation cs cs' -> isJQKStraight cs = isJQKStraight cs'.
Proof.
  intros H. unfold isJQKStraight.
  rewrite (wildCount_perm _ _ H), (forallb_perm _ _ _ (nonWild_perm _ _ H)).
  assert (Hmem : forall r, bool_decide (RankOf r ∈ map rank (nonWild cs))
                           = bool_decide (RankOf r ∈ map rank (nonWild cs'))).
  { intros r. apply bool_decide_ext. rewrite !list_elem_of_In.
    pose proof (Permutation_map rank (nonWild_perm _ _ H)) as Hp.
    split; apply Permutation_in; [exact Hp | now symmetry]. }
  cbn [List.filter]. rewrite !Hmem. reflexivity.
Qed.

(** "Every card has the suit of the first one" says that any two cards
    have the same suit. *)
Lemma head_suit_spec (l : list Card) :
  match l with
  | [] => true
  | c0 :: rest => forallb (fun c => bool_decide (suit c = suit c0)) (c0 :: rest)
  end = true <->
  forall x y, In x l -> In y l -> suit x = suit y.
Proof.
  destruct l as [|c0 l]; [split; [intros _ x y []|reflexivity]|].
  rewrite forallb_forall. split.
  - intros H x y Hx Hy. apply H, bool_decide_eq_true in Hx.
    apply H, bool_decide_eq_true in Hy. congruence.
  - intros H x Hx. apply bool_decide_eq_true, H; [exact Hx | now left].
Qed.

Lemma head_suit_perm (l l' : list Card) :
  Permutation l l' ->
  match l with
  | [] => true
  | c0 :: rest => forallb (fun c => bool_decide (suit c = suit c0)) (c0 :: rest)
  end
  = match l' with
    | [] => true
    | c0 :: rest => forallb (fun c => bool_decide (suit c = suit c0)) (c0 :: rest)
    end.
Proof.
  intros H. apply eq_true_iff_eq. rewrite !head_suit_spec.
  split; intros Hs x y Hx Hy; apply Hs;
    eauto using Permutation_in, Permutation_sym.
Qed.

Lemma isJQKStraightFlush_perm cs cs' :
  Permutation cs cs' -> isJQKStraightFlush cs = isJQKStraightFlush cs'.
Proof.
  intros H. unfold isJQKStraightFlush. rewrite (isJQKStraight_perm _ _ H).
  destruct (negb (isJQKStraight cs')); [reflexivity|].
  apply (head_suit_perm _ _ (nonWild_perm _ _ H)).
Qed.

Lemma isSameSuit_cards_perm cs cs' :
  Permutation cs cs' -> isSameSuit_cards cs = isSameSuit_cards cs'.
Proof.
  intros H. apply eq_true_iff_eq. rewrite !isSameSuit_cards_spec.
  split; intros Hs x y Hx Hy; apply Hs; rewrite list_elem_of_In in *;
    eauto using Permutation_in, Permutation_sym.
Qed.

Lemma isThreeFaceCards_perm cs cs' :
  Permutation cs cs' -> isThreeFaceCards cs = isThreeFaceCards cs'.
Proof. apply forallb_perm. Qed.

Lemma isThreeOfKind_perm (a b c : Card) (l : list Card) :
  Permutation [a; b; c] l -> isThreeOfKind [a; b; c] = isThreeOfKind l.
Proof.
  intros H. apply Permutation_three_inv in H.
  destruct H as [-> | [-> | [-> | [-> | [-> | ->]]]]];
    unfold isThreeOfKind, nonWild, wildCount; simpl;
    destruct (isWild a), (isWild b), (isWild c); simpl;
    repeat case_bool_decide; simpl; congruence.
Qed.

(** In a pure three of a kind the three ranks are equal. *)
Lemma isThreeOfKind_pure_ranks (a b c : Card) tk :
  isThreeOfKind [a; b; c] = Some tk ->
  isThreeOfKind_flag tk && negb (hasWild tk) = true ->
  rank a = rank b /\ rank b = rank c.
Proof.
  unfold isThreeOfKind, nonWild, wildCount. simpl.
  destruct (isWild a), (isWild b), (isWild c); simpl;
    repeat case_bool_decide; simpl; intros [= <-]; simpl;
    try discriminate; auto.
Qed.

(** The evaluation of three cards does not depend on their order. *)
Lemma evaluateCards_perm (cs cs' : list Card) :
  length cs = 3%nat -> Permutation cs cs' ->
  evaluateCards cs = evaluateCards cs'.
Proof.
  intros Hlen H.
  destruct cs as [|a [|b [|c [|d l]]]]; try discriminate. clear Hlen.
  unfold evaluateCards.
  rewrite <- (isThreeOfKind_perm _ _ _ _ H), <- (isJQKStraightFlush_perm _ _ H),
    <- (isJQKStraight_perm _ _ H), <- (isThreeFaceCards_perm _ _ H),
    <- (existsb_perm _ _ _ H), <- (isSameSuit_cards_perm _ _ H).
  assert (Hsum : getSumModulo [a; b; c] = getSumModulo cs').
  { unfold getSumModulo. f_equal. apply fold_left_perm; [|exact H].
    intros z x y. destruct (isWild x), (isWild y); lia. }
  assert (Hface :
    fold_left (fun sum c => sum + getComparisonRankValue (rank c)) [a; b; c] 0
    = fold_left (fun sum c => sum + getComparisonRankValue (rank c)) cs' 0).
  { apply fold_left_perm; [|exact H]. intros z x y. lia. }
  rewrite <- Hsum, <- Hface.
  destruct (isThreeOfKind [a; b; c]) as [tk|] eqn:Etk; [|reflexivity].
  destruct (isThreeOfKind_flag tk && negb (hasWild tk)) eqn:Epure; [|reflexivity].
  destruct (isThreeOfKind_pure_ranks a b c tk Etk Epure) as [Hab Hbc].
  apply Permutation_three_inv in H.
  destruct H as [-> | [-> | [-> | [-> | [-> | ->]]]]]; simpl; congruence.
Qed.

Theorem evalCards_perm (cs cs' : list Card) :
  Permutation cs cs' -> evalCards cs = evalCards cs'.
Proof.
  intros H. rewrite !evalCards_eq, <- (Permutation_length H).
  destruct (length cs =? 3)%nat eqn:E; [|reflexivity].
  apply evaluateCards_perm; [now apply Nat.eqb_eq | exact H].
Qed.

End EvaluationOrder.

(** ** Layer ordering and special hands *)

Section Arrangements.

Import GameLogic.

Lemma placed_length_le (l : Layer) : (length (placed l) <= length (cards l))%nat.
Proof.
  unfold placed. induction (cards l) as [|[c|] sl IH]; [cbn; lia | |].
  - change (omap id (Some c :: sl)) with (c :: omap id sl). cbn. lia.
  - change (omap id (None :: sl)) with (omap id sl). cbn. lia.
Qed.

(** The layers of the examples: three placed cards. *)
Definition layer3 (a b c : Card) : Layer := mkLayer [Some a; Some b; Some c].

(** C8.  [validateArrangement] returns false whenever a layer has fewer than
    three placed cards.  Otherwise (the layers being arrays of three slots)
    it returns false exactly when the top evaluation strictly beats the
    middle one or the middle one strictly beats the bottom one under
    [compareHands]; in particular it accepts an arrangement whose
    neighbouring layers tie. *)
Theorem validateArrangement_spec (a : PlayerArrangement) :
  ((length (placed (top a)) < 3 \/ length (placed (middle a)) < 3
    \/ length (placed (bottom a)) < 3)%nat ->
   validateArrangement a = false)
  /\ (length (cards (top a)) = 3%nat -> length (cards (middle a)) = 3%nat ->
      length (cards (bottom a)) = 3%nat ->
      ~ (length (placed (top a)) < 3 \/ length (placed (middle a)) < 3
         \/ length (placed (bottom a)) < 3)%nat ->
      (validateArrangement a = false <->
         compareHands (evalCards (placed (top a)))
                      (evalCards (placed (middle a))) > 0
         \/ compareHands (evalCards (placed (middle a)))
                         (evalCards (placed (bottom a))) > 0)
      /\ (compareHands (evalCards (placed (top a)))
                       (evalCards (placed (middle a))) = 0 ->
          compareHands (evalCards (placed (middle a)))
                       (evalCards (placed (bottom a))) = 0 ->
          validateArrangement a = true)).
Proof.
  split.
  - intros H. unfold validateArrangement.
    destruct (length (placed (top a)) =? 3)%nat eqn:E1;
    destruct (length (placed (middle a)) =? 3)%nat eqn:E2;
    destruct (length (placed (bottom a)) =? 3)%nat eqn:E3; simpl; try reflexivity.
    apply Nat.eqb_eq in E1, E2, E3. lia.
  - intros S1 S2 S3 H.
    pose proof (placed_length_le (top a)).
    pose proof (placed_length_le (middle a)).
    pose proof (placed_length_le (bottom a)).
    assert (E1 : (length (placed (top a)) =? 3)%nat = true)
      by (apply Nat.eqb_eq; lia).
    assert (E2 : (length (placed (middle a)) =? 3)%nat = true)
      by (apply Nat.eqb_eq; lia).
    assert (E3 : (length (placed (bottom a)) =? 3)%nat = true)
      by (apply Nat.eqb_eq; lia).
    unfold validateArrangement. rewrite E1, E2, E3. simpl.
    destruct (compareHands (evalCards (placed (top a)))
                           (evalCards (placed (middle a))) >? 0) eqn:C1;
    destruct (compareHands (evalCards (placed (middle a)))
                           (evalCards (placed (bottom a))) >? 0) eqn:C2;
      rewrite ?Z.gtb_gt in *; rewrite ?Z.gtb_ltb, ?Z.ltb_ge in *;
      (split; [split; [intros ?; try discriminate; lia | intros ?; try reflexivity; lia]
              | intros; try reflexivity; lia]).
Qed.

Lemma validateArrangement_spec_witness :
  validateArrangement
    (mkArrangement
       (layer3 (standardCard R2 spades) (standardCard R3 diamonds) (standardCard R4 clubs))
       (layer3 (standardCard R2 hearts) (standardCard R3 clubs) (standardCard R4 diamonds))
       (layer3 (standardCard R2 clubs) (standardCard R3 spades) (standardCard R4 hearts)))
  = true
  /\ validateArrangement
       (mkArrangement
          (layer3 (standardCard R2 spades) (standardCard R3 diamonds) (standardCard R4 clubs))
          (mkLayer [Some (standardCard R2 hearts); None; Some (standardCard R4 diamonds)])
          (layer3 (standardCard R2 clubs) (standardCard R3 spades) (standardCard R4 hearts)))
     = false.
Proof.
  split.
  - apply (proj2 (validateArrangement_spec _)); try reflexivity.
    vm_compute. lia.
  - apply (proj1 (validateArrangement_spec _)). right. left. vm_compute. lia.
Defined.

Lemma layerIsNine_spec (l : Layer) :
  layerIsNine l = true <->
  length (placed l) = 3%nat
  /\ (forall c, c ∈ placed l -> isWild c = false)
  /\ type (evalCards (placed l)) = SUM_MODULO
  /\ value (evalCards (placed l)) = 9.
Proof.
  unfold layerIsNine.
  destruct (length (placed l) =? 3)%nat eqn:El; simpl.
  2:{ apply Nat.eqb_neq in El. split; [discriminate | tauto]. }
  apply Nat.eqb_eq in El.
  destruct (existsb (fun c => isWild c) (placed l)) eqn:Ew.
  { split; [discriminate|]. intros (_ & Hnw & _).
    apply existsb_exists in Ew as (c & Hc & Hw).
    apply list_elem_of_In, Hnw in Hc. congruence. }
  assert (Hnw : forall c, c ∈ placed l -> isWild c = false).
  { intros c Hc. destruct (isWild c) eqn:Hw; [|reflexivity].
    assert (existsb (fun c => isWild c) (placed l) = true); [|congruence].
    apply existsb_exists. exists c. split; [now apply list_elem_of_In | exact Hw]. }
  destruct (bool_decide (type (evalCards (placed l)) = SUM_MODULO)) eqn:Et; simpl.
  2:{ apply bool_decide_eq_false in Et. split; [discriminate | tauto]. }
  apply bool_decide_eq_true in Et.
  pose proof Et as Hb. rewrite evalCards_three in Hb by exact El.
  apply evaluateCards_sum_modulo_bound in Hb; [|exact El].
  rewrite <- evalCards_three in Hb by exact El.
  destruct (value (evalCards (placed l)) <? 9) eqn:Ev.
  - apply Z.ltb_lt in Ev. split; [discriminate|]. intros (_ & _ & _ & ?). lia.
  - apply Z.ltb_ge in Ev. split; [|reflexivity]. intros _.
    repeat split; auto. lia.
Qed.

Definition playerWith (a : option PlayerArrangement) : Player :=
  mkPlayer "p" "p" false 1000 [] a true false.

(** An arrangement with a wildcard in the top layer whose three layers all
    evaluate to [SUM_MODULO] with value 9. *)
Definition wildNines : PlayerArrangement :=
  mkArrangement
    (layer3 (standardCard R2 spades) (wildCard 1) (standardCard R5 clubs))
    (layer3 (standardCard R2 hearts) (standardCard R3 clubs) (standardCard R4 diamonds))
    (layer3 (standardCard R2 clubs) (standardCard R3 spades) (standardCard R4 hearts)).

(** C6.  The all-nines special hand holds exactly when the player has an
    arrangement each of whose layers consists of three non-wild cards that
    evaluate to [SUM_MODULO] with tie-break value 9.  A wildcard anywhere
    among the placed cards rules it out, even when every layer (the one with
    the wildcard included, by the rule that a wildcard forces value 9)
    evaluates to [SUM_MODULO] with value 9. *)
Theorem checkAllNines_spec :
  (forall p : Player,
     checkAllNines p = true <->
     exists a, arrangement p = Some a
       /\ forall l, l ∈ [top a; middle a; bottom a] ->
            length (placed l) = 3%nat
            /\ (forall c, c ∈ placed l -> isWild c = false)
            /\ type (evalCards (placed l)) = SUM_MODULO
            /\ value (evalCards (placed l)) = 9)
  /\ (forall (p : Player) a l c,
        arrangement p = Some a -> l ∈ [top a; middle a; bottom a] ->
        c ∈ placed l -> isWild c = true -> checkAllNines p = false)
  /\ (exists a,
        (exists l c, l ∈ [top a; middle a; bottom a] /\ c ∈ placed l
                     /\ isWild c = true)
        /\ (forall l, l ∈ [top a; middle a; bottom a] ->
               type (evalCards (placed l)) = SUM_MODULO
               /\ value (evalCards (placed l)) = 9)
        /\ checkAllNines (playerWith (Some a)) = false).
Proof.
  assert (Hiff : forall p : Player,
     checkAllNines p = true <->
     exists a, arrangement p = Some a
       /\ forall l, l ∈ [top a; middle a; bottom a] ->
            length (placed l) = 3%nat
            /\ (forall c, c ∈ placed l -> isWild c = false)
            /\ type (evalCards (placed l)) = SUM_MODULO
            /\ value (evalCards (placed l)) = 9).
  { intros p. unfold checkAllNines. destruct (arrangement p) as [a|].
    - rewrite forallb_forall. split.
      + intros H. exists a. split; [reflexivity|]. intros l Hl.
        apply layerIsNine_spec, H, list_elem_of_In, Hl.
      + intros (a' & [= <-] & H) l Hl.
        apply layerIsNine_spec, H, list_elem_of_In, Hl.
    - split; [discriminate|]. intros (a & Ha & _). discriminate. }
  split; [exact Hiff|]. split.
  - intros p a l c Ha Hl Hc Hw.
    destruct (checkAllNines p) eqn:E; [|reflexivity].
    apply Hiff in E as (a' & Ha' & H).
    assert (a' = a) as -> by congruence.
    destruct (H l Hl) as (_ & Hnw & _). apply Hnw in Hc. congruence.
  - exists wildNines. split; [|split].
    + exists (top wildNines), (wildCard 1). split; [left|].
      split; [|reflexivity]. apply list_elem_of_In. simpl. tauto.
    + intros l Hl. apply list_elem_of_In in Hl. simpl in Hl.
      destruct Hl as [<-|[<-|[<-|[]]]]; vm_compute; split; reflexivity.
    + vm_compute. reflexivity.
Qed.

Definition allNines : PlayerArrangement :=
  mkArrangement
    (layer3 (standardCard R2 spades) (standardCard R3 diamonds) (standardCard R4 clubs))
    (layer3 (standardCard R2 hearts) (standardCard R3 clubs) (standardCard R4 diamonds))
    (layer3 (standardCard R2 clubs) (standardCard R3 spades) (standardCard R4 hearts)).

Lemma checkAllNines_spec_witness :
  checkAllNines (playerWith (Some allNines)) = true.
Proof.
  apply (proj1 checkAllNines_spec (playerWith (Some allNines))).
  exists allNines. split; [reflexivity|]. intros l Hl.
  apply list_elem_of_In in Hl. simpl in Hl.
  destruct Hl as [<-|[<-|[<-|[]]]]; (split; [reflexivity|]);
    (split; [|vm_compute; split; reflexivity]);
    intros c Hc; apply list_elem_of_In in Hc; simpl in Hc;
    destruct Hc as [<-|[<-|[<-|[]]]]; reflexivity.
Defined.

End Arrangements.

(** ** Matchups *)

Section Matchup.

Import GameLogic.

(** The points of a winning hand, in the words of the specification: 5 for
    the two three-of-a-kind categories, 3 for the two J-Q-K straights and
    for three face cards, and for sum-modulo 3 when the same-suit flag is
    set and 1 otherwise. *)
Definition specPoints (h : HandEvaluation) : Z :=
  match type h with
  | THREE_OF_KIND_PURE => 5
  | THREE_OF_KIND_WILD => 5
  | STRAIGHT_FLUSH_JQK => 3
  | STRAIGHT_JQK => 3
  | THREE_FACE_CARDS => 3
  | SUM_MODULO => if bool_decide (isSameSuit h = Some true) then 3 else 1
  end.

(** The points the two sides earn on one layer: the winner's points go to
    the winner, a tie gives nothing to either side. *)
Definition layerAward (a1 a2 : PlayerArrangement) (l : LayerName) : Z * Z :=
  let e1 := evalCards (placed (layerOf a1 l)) in
  let e2 := evalCards (placed (layerOf a2 l)) in
  if compareHands e1 e2 >? 0 then (specPoints e1, 0)
  else if compareHands e1 e2 <? 0 then (0, specPoints e2)
  else (0, 0).

Lemma getHandPoints_specPoints (h : HandEvaluation) :
  getHandPoints h = specPoints h.
Proof.
  unfold getHandPoints, specPoints.
  destruct (type h); try reflexivity.
  destruct (isSameSuit h) as [[|]|]; reflexivity.
Qed.

Lemma isFoul_valid (p : Player) (a : PlayerArrangement) :
  arrangement p = Some a -> validateArrangement a = true -> isFoul p = false.
Proof. intros Ha Hv. unfold isFoul. rewrite Ha, Hv. reflexivity. Qed.

Lemma compareLayer_p1 p1 p2 a1 a2 r l :
  player1TotalPoints (compareLayer p1 p2 a1 a2 r l)
  = player1TotalPoints r + fst (layerAward a1 a2 l).
Proof.
  unfold compareLayer, layerAward. cbn [player1TotalPoints].
  destruct (compareHands _ _ >? 0); [|destruct (compareHands _ _ <? 0)];
    cbn [fst]; rewrite ?getHandPoints_specPoints; lia.
Qed.

Lemma compareLayer_p2 p1 p2 a1 a2 r l :
  player2TotalPoints (compareLayer p1 p2 a1 a2 r l)
  = player2TotalPoints r + snd (layerAward a1 a2 l).
Proof.
  unfold compareLayer, layerAward. cbn [player2TotalPoints].
  destruct (compareHands _ _ >? 0); [|destruct (compareHands _ _ <? 0)];
    cbn [snd]; rewrite ?getHandPoints_specPoints; lia.
Qed.

Lemma compareLayer_layers p1 p2 a1 a2 r l :
  map layer (layerComparisons (compareLayer p1 p2 a1 a2 r l))
  = map layer (layerComparisons r) ++ [l].
Proof.
  unfold compareLayer. cbn [layerComparisons]. rewrite map_app. reflexivity.
Qed.

(** C1.  When neither player fouls and neither has a special hand,
    [compareArrangements] gives each player the sum over the three layers of
    what the player earns on the layer: the winner of a layer earns the
    points of the winning hand's own category, the loser nothing, and a tied
    layer gives nothing to either side. *)
Theorem compareArrangements_layer_points (p1 p2 : Player)
    (a1 a2 : PlayerArrangement) :
  arrangement p1 = Some a1 -> arrangement p2 = Some a2 ->
  validateArrangement a1 = true -> validateArrangement a2 = true ->
  hasSpecialHand p1 = false -> hasSpecialHand p2 = false ->
  player1TotalPoints (compareArrangements p1 p2)
  = fst (layerAward a1 a2 Ltop) + fst (layerAward a1 a2 Lmiddle)
    + fst (layerAward a1 a2 Lbottom)
  /\ player2TotalPoints (compareArrangements p1 p2)
     = snd (layerAward a1 a2 Ltop) + snd (layerAward a1 a2 Lmiddle)
       + snd (layerAward a1 a2 Lbottom)
  /\ map layer (layerComparisons (compareArrangements p1 p2))
     = [Ltop; Lmiddle; Lbottom].
Proof.
  intros Ha1 Ha2 Hv1 Hv2 Hs1 Hs2.
  unfold compareArrangements. cbn [player1Foul player2Foul].
  rewrite (isFoul_valid p1 a1 Ha1 Hv1), (isFoul_valid p2 a2 Ha2 Hv2).
  rewrite Hs1, Hs2, Ha1, Ha2. cbn [negb andb fold_left].
  rewrite !compareLayer_p1, !compareLayer_p2, !compareLayer_layers.
  cbn [player1TotalPoints player2TotalPoints layerComparisons app map].
  repeat split; lia.
Qed.

Definition playerA : Player :=
  mkPlayer "human" "A" true 1000 []
    (Some (mkArrangement
       (layer3 (standardCard R2 spades) (standardCard R3 diamonds) (standardCard R4 clubs))
       (layer3 (standardCard R5 hearts) (standardCard R6 hearts) (standardCard R8 hearts))
       (layer3 (standardCard RJ spades) (standardCard RQ spades) (standardCard RK spades))))
    true false.

Definition playerB : Player :=
  mkPlayer "ai-1" "B" false 1000 []
    (Some (mkArrangement
       (layer3 (standardCard R2 hearts) (standardCard R3 hearts) (standardCard R5 clubs))
       (layer3 (standardCard R9 spades) (standardCard R9 diamonds) (standardCard R9 clubs))
       (layer3 (standardCard RK hearts) (standardCard RK diamonds) (standardCard RK clubs))))
    true false.

Lemma compareArrangements_layer_points_witness :
  player1TotalPoints (compareArrangements playerA playerB) = 1
  /\ player2TotalPoints (compareArrangements playerA playerB) = 10.
Proof.
  destruct (arrangement playerA) as [a1|] eqn:E1; [|discriminate].
  destruct (arrangement playerB) as [a2|] eqn:E2; [|discriminate].
  injection E1 as <-. injection E2 as <-.
  destruct (compareArrangements_layer_points playerA playerB _ _
              eq_refl eq_refl) as (H1 & H2 & _);
    try (vm_compute; reflexivity).
  rewrite H1, H2. split; vm_compute; reflexivity.
Defined.

(** A player holds a special hand, in the words of the specification, when
    the player does not foul and has all nines or four of a kind. *)
Definition specSpecial (p : Player) : bool :=
  negb (isFoul p) && (checkAllNines p || checkFourOfAKind p).

(** C2.  All nines or four of a kind, either alone, makes a special hand for
    a player who does not foul.  When exactly one player has a special hand
    that player gets 10 points and the opponent 0, whatever the opponent's
    arrangement (missing and invalid ones included); when both have special
    hands the matchup is a draw: no points and no layer comparison. *)
Theorem compareArrangements_special (p1 p2 : Player) :
  (specSpecial p1 = true -> specSpecial p2 = false ->
   player1TotalPoints (compareArrangements p1 p2) = 10
   /\ player2TotalPoints (compareArrangements p1 p2) = 0)
  /\ (specSpecial p1 = false -> specSpecial p2 = true ->
      player1TotalPoints (compareArrangements p1 p2) = 0
      /\ player2TotalPoints (compareArrangements p1 p2) = 10)
  /\ (specSpecial p1 = true -> specSpecial p2 = true ->
      player1TotalPoints (compareArrangements p1 p2) = 0
      /\ player2TotalPoints (compareArrangements p1 p2) = 0
      /\ layerComparisons (compareArrangements p1 p2) = []).
Proof.
  unfold specSpecial, compareArrangements, hasSpecialHand.
  cbn [player1Foul player2Foul player1TotalPoints player2TotalPoints].
  split; [|split]; intros H1 H2; rewrite H1, H2; repeat split; reflexivity.
Qed.

(** Four sevens spread over the layers of a valid arrangement. *)
Definition fourSevens : PlayerArrangement :=
  mkArrangement
    (layer3 (standardCard R7 hearts) (standardCard R2 clubs) (standardCard R3 spades))
    (layer3 (standardCard R7 diamonds) (standardCard R2 hearts) (standardCard R4 spades))
    (layer3 (standardCard R7 spades) (standardCard R7 clubs) (standardCard RA spades)).

Lemma compareArrangements_special_witness :
  (player1TotalPoints
     (compareArrangements (playerWith (Some fourSevens)) (playerWith None)) = 10
   /\ player2TotalPoints
        (compareArrangements (playerWith (Some fourSevens)) (playerWith None)) = 0)
  /\ (player1TotalPoints
        (compareArrangements (playerWith (Some wildNines)) (playerWith (Some allNines))) = 0
      /\ player2TotalPoints
           (compareArrangements (playerWith (Some wildNines)) (playerWith (Some allNines))) = 10).
Proof.
  split.
  - apply (proj1 (compareArrangements_special _ _)); vm_compute; reflexivity.
  - apply (proj1 (proj2 (compareArrangements_special _ _))); vm_compute; reflexivity.
Defined.

End Matchup.

(** ** Round scores *)

Section Round.

Import GameLogic.

(** The sum of [totalPoints] over the entries of a ledger. *)
Definition sumTotalPoints (scores : list RoundScore) : Z :=
  fold_right Z.add 0 (map totalPoints scores).

(** The entry stored under [key] in [pointsAgainst] of the score at position
    [k] ([None]: the object has no property of its own under that key). *)
Definition ledgerEntry (scores : list RoundScore) (k : nat) (key : string)
    : option Z :=
  s ← scores !! k; pointsAgainst s !! key.

Lemma compareLayer_ids p1 p2 a1 a2 r l :
  player1Id (compareLayer p1 p2 a1 a2 r l) = player1Id r
  /\ player2Id (compareLayer p1 p2 a1 a2 r l) = player2Id r.
Proof. split; reflexivity. Qed.

Lemma compareArrangements_ids (p1 p2 : Player) :
  player1Id (compareArrangements p1 p2) = player_id p1
  /\ player2Id (compareArrangements p1 p2) = player_id p2.
Proof.
  unfold compareArrangements.
  repeat match goal with
    | |- context [if ?b then _ else _] => destruct b
    end; try (split; reflexivity).
  destruct (arrangement p1), (arrangement p2); split; reflexivity.
Qed.

Lemma setPointsAgainst_fields key v (s : RoundScore) :
  playerId (setPointsAgainst key v s) = playerId s
  /\ totalPoints (setPointsAgainst key v s) = totalPoints s
  /\ cashChange (setPointsAgainst key v s) = cashChange s
  /\ pointsAgainst (setPointsAgainst key v s)
     = if bool_decide (key = "__proto__") then pointsAgainst s
       else <[key := v]> (pointsAgainst s).
Proof.
  unfold setPointsAgainst. destruct (bool_decide (key = "__proto__"));
    repeat split.
Qed.

Lemma ids_alter (f : RoundScore -> RoundScore) k (scores : list RoundScore) :
  (forall s, playerId (f s) = playerId s) ->
  map playerId (alter f k scores) = map playerId scores.
Proof.
  intros Hf. revert k. induction scores as [|s scores IH]; intros [|k];
    cbn; try reflexivity.
  - now rewrite Hf.
  - f_equal. apply IH.
Qed.

Lemma sum_alter_set key v k (scores : list RoundScore) :
  sumTotalPoints (alter (setPointsAgainst key v) k scores) = sumTotalPoints scores.
Proof.
  unfold sumTotalPoints. revert k.
  induction scores as [|s scores IH]; intros [|k]; cbn; try reflexivity.
  - f_equal. apply setPointsAgainst_fields.
  - f_equal. apply IH.
Qed.

Lemma sum_alter_add d k (scores : list RoundScore) :
  (k < length scores)%nat ->
  sumTotalPoints (alter (addTotalPoints d) k scores) = sumTotalPoints scores + d.
Proof.
  unfold sumTotalPoints. revert k.
  induction scores as [|s scores IH]; intros [|k] Hk; cbn in *; try lia.
  rewrite IH by lia. lia.
Qed.

Lemma findScore_lt pid (scores : list RoundScore) k :
  findScore pid scores = Some k -> (k < length scores)%nat.
Proof.
  unfold findScore. destruct (list_find _ scores) as [[i x]|] eqn:E; [|discriminate].
  intros [= <-]. apply list_find_Some in E as (E & _).
  now apply lookup_lt_Some in E.
Qed.

Lemma findScore_is_Some pid (scores : list RoundScore) :
  pid ∈ map playerId scores -> is_Some (findScore pid scores).
Proof.
  intros H. apply list_elem_of_In, in_map_iff in H as (s & Hs & Hin).
  unfold findScore.
  destruct (list_find_elem_of (fun s => playerId s = pid) scores s) as [[i x] E].
  - now apply list_elem_of_In.
  - exact Hs.
  - rewrite E. eauto.
Qed.

Lemma scorePair_ids pi pj scores :
  map playerId (scorePair pi pj scores) = map playerId scores.
Proof.
  unfold scorePair. set (r := compareArrangements pi pj).
  destruct (findScore (player1Id r) scores) as [k1|]; [|reflexivity].
  destruct (findScore (player2Id r) scores) as [k2|]; [|reflexivity].
  rewrite !ids_alter; try reflexivity; intros s; apply setPointsAgainst_fields.
Qed.

Lemma scorePair_sum pi pj scores :
  sumTotalPoints (scorePair pi pj scores) = sumTotalPoints scores.
Proof.
  unfold scorePair. set (r := compareArrangements pi pj).
  destruct (findScore (player1Id r) scores) as [k1|] eqn:E1; [|reflexivity].
  destruct (findScore (player2Id r) scores) as [k2|] eqn:E2; [|reflexivity].
  apply findScore_lt in E1, E2.
  rewrite !sum_alter_add, !sum_alter_set by (rewrite ?length_alter; lia).
  lia.
Qed.

Lemma scoreIndexPair_ids active scores ij :
  map playerId (scoreIndexPair active scores ij) = map playerId scores.
Proof.
  unfold scoreIndexPair.
  destruct (active !! ij.1), (active !! ij.2); try reflexivity.
  apply scorePair_ids.
Qed.

Lemma scoreIndexPair_sum active scores ij :
  sumTotalPoints (scoreIndexPair active scores ij) = sumTotalPoints scores.
Proof.
  unfold scoreIndexPair.
  destruct (active !! ij.1), (active !! ij.2); try reflexivity.
  apply scorePair_sum.
Qed.

(** The pairs [(i, j)] with [i < j < n] in the order the two nested loops
    visit them. *)
Definition indexPairs (n : nat) : list (nat * nat) :=
  flat_map (fun i => map (pair i) (seq (i + 1) (n - (i + 1)))) (seq 0 n).

Lemma fold_left_flat_map {A B C} (f : A -> C -> A) (g : B -> list C) l a :
  fold_left f (flat_map g l) a = fold_left (fun a x => fold_left f (g x) a) l a.
Proof.
  revert a. induction l as [|x l IH]; intros a; simpl; [reflexivity|].
  now rewrite fold_left_app, IH.
Qed.

Lemma fold_left_map {A B C} (f : A -> C -> A) (h : B -> C) l a :
  fold_left f (map h l) a = fold_left (fun a x => f a (h x)) l a.
Proof. revert a. induction l as [|x l IH]; intros a; simpl; auto. Qed.

Lemma fold_left_pointwise {A B} (f g : A -> B -> A) l a :
  (forall a x, f a x = g a x) -> fold_left f l a = fold_left g l a.
Proof.
  intros H. revert a. induction l as [|x l IH]; intros a; simpl; [reflexivity|].
  now rewrite H, IH.
Qed.

(** The two nested loops of [calculateRoundScores] as one pass over
    [indexPairs]. *)
Lemma calculateRoundScores_pairs (players : list Player) :
  let active := List.filter (fun p => negb (isBankrupt p)) players in
  calculateRoundScores players
  = map setCashChange
      (fold_left (scoreIndexPair active) (indexPairs (length active))
                 (initialScores active)).
Proof.
  intros active. unfold calculateRoundScores, indexPairs. fold active.
  f_equal. rewrite fold_left_flat_map.
  apply fold_left_pointwise. intros scores i.
  rewrite fold_left_map. reflexivity.
Qed.

Lemma elem_of_indexPairs (n i j : nat) :
  (i, j) ∈ indexPairs n <-> (i < j /\ j < n)%nat.
Proof.
  unfold indexPairs. rewrite list_elem_of_In, in_flat_map. split.
  - intros (x & Hx & Hin). apply in_map_iff in Hin as (y & [= <- <-] & Hy).
    apply in_seq in Hx, Hy. lia.
  - intros [Hij Hjn]. exists i. split; [apply in_seq; lia|].
    apply in_map_iff. exists j. split; [reflexivity | apply in_seq; lia].
Qed.

Lemma fold_scoreIndexPair_ids active ps scores :
  map playerId (fold_left (scoreIndexPair active) ps scores) = map playerId scores.
Proof.
  revert scores. induction ps as [|p ps IH]; intros scores; simpl; [reflexivity|].
  now rewrite IH, scoreIndexPair_ids.
Qed.

Lemma fold_scoreIndexPair_sum active ps scores :
  sumTotalPoints (fold_left (scoreIndexPair active) ps scores)
  = sumTotalPoints scores.
Proof.
  revert scores. induction ps as [|p ps IH]; intros scores; simpl; [reflexivity|].
  now rewrite IH, scoreIndexPair_sum.
Qed.

Lemma initialScores_ids active :
  map playerId (initialScores active) = map player_id active.
Proof. unfold initialScores. rewrite map_map. reflexivity. Qed.

Lemma initialScores_sum active : sumTotalPoints (initialScores active) = 0.
Proof. induction active as [|p l IH]; [reflexivity | exact IH]. Qed.

(** Every [find] of the inner loop succeeds: the ids looked up are ids of
    active players, and every active player has an entry. *)
Lemma findScore_initial active ps i p :
  active !! i = Some p ->
  is_Some (findScore (player_id p)
             (fold_left (scoreIndexPair active) ps (initialScores active))).
Proof.
  intros Hp. apply findScore_is_Some.
  rewrite fold_scoreIndexPair_ids, initialScores_ids.
  apply list_elem_of_In, in_map, list_elem_of_In.
  eapply list_elem_of_lookup_2, Hp.
Qed.

Section Ledger.

Variable active : list Player.
Hypothesis ids_NoDup : NoDup (map player_id active).

Lemma player_id_inj i j pi pj :
  active !! i = Some pi -> active !! j = Some pj ->
  player_id pi = player_id pj -> i = j.
Proof.
  intros Hi Hj Heq. apply (NoDup_lookup _ i j (player_id pi) ids_NoDup).
  - change (map player_id active) with (player_id <$> active).
    rewrite list_lookup_fmap, Hi. reflexivity.
  - change (map player_id active) with (player_id <$> active).
    rewrite list_lookup_fmap, Hj, Heq. reflexivity.
Qed.

Lemma findScore_NoDup scores i pi :
  map playerId scores = map player_id active ->
  active !! i = Some pi ->
  findScore (player_id pi) scores = Some i.
Proof.
  intros Hids Hi.
  assert (Hs : exists s, scores !! i = Some s /\ playerId s = player_id pi).
  { assert (H : (playerId <$> scores) !! i = Some (player_id pi)).
    { change (playerId <$> scores) with (map playerId scores). rewrite Hids.
      change (map player_id active) with (player_id <$> active).
      rewrite list_lookup_fmap, Hi. reflexivity. }
    rewrite list_lookup_fmap in H. destruct (scores !! i) as [s|]; [|discriminate].
    exists s. split; [reflexivity|]. now injection H. }
  destruct Hs as (s & Hs & Hps).
  unfold findScore.
  destruct (list_find (fun s => playerId s = player_id pi) scores) as [[k x]|] eqn:E.
  - apply list_find_Some in E as (Hk & Hpx & _). simpl. f_equal.
    apply (NoDup_lookup _ k i (player_id pi) ids_NoDup).
    + rewrite <- Hids. change (map playerId scores) with (playerId <$> scores).
      rewrite list_lookup_fmap, Hk. simpl. now rewrite Hpx.
    + change (map player_id active) with (player_id <$> active).
      rewrite list_lookup_fmap, Hi. reflexivity.
  - apply list_find_None in E. rewrite Forall_forall in E.
    exfalso. apply (E s); [|exact Hps].
    eapply list_elem_of_lookup_2, Hs.
Qed.

Lemma lookup_setPointsAgainst k v (s : RoundScore) key :
  pointsAgainst (setPointsAgainst k v s) !! key
  = if decide (key = k /\ key <> "__proto__") then Some v
    else pointsAgainst s !! key.
Proof.
  unfold setPointsAgainst. case_bool_decide as Hk.
  - rewrite decide_False by (intros [-> ?]; contradiction). reflexivity.
  - cbn [pointsAgainst]. destruct (decide (key = k)) as [->|Hne].
    + rewrite decide_True by tauto. apply lookup_insert_eq.
    + rewrite decide_False by tauto. apply lookup_insert_ne. congruence.
Qed.

(** What one pass of the inner loop leaves in the ledgers. *)
Lemma scoreIndexPair_entry scores i j pi pj a key :
  map playerId scores = map player_id active ->
  active !! i = Some pi -> active !! j = Some pj -> i <> j ->
  ledgerEntry (scoreIndexPair active scores (i, j)) a key
  = if decide (a = i /\ key = player_id pj /\ key <> "__proto__")
    then Some (netPoints (compareArrangements pi pj))
    else if decide (a = j /\ key = player_id pi /\ key <> "__proto__")
    then Some (- netPoints (compareArrangements pi pj))
    else ledgerEntry scores a key.
Proof.
  intros Hids Hi Hj Hij.
  unfold scoreIndexPair. cbn [fst snd]. rewrite Hi, Hj.
  unfold scorePair.
  destruct (compareArrangements_ids pi pj) as [-> ->].
  rewrite (findScore_NoDup scores i pi Hids Hi), (findScore_NoDup scores j pj Hids Hj).
  assert (Hli : is_Some (scores !! i)).
  { apply lookup_lt_is_Some. rewrite <- (length_map playerId), Hids, length_map.
    now apply lookup_lt_Some in Hi. }
  assert (Hlj : is_Some (scores !! j)).
  { apply lookup_lt_is_Some. rewrite <- (length_map playerId), Hids, length_map.
    now apply lookup_lt_Some in Hj. }
  destruct Hli as [si Hsi], Hlj as [sj Hsj].
  unfold ledgerEntry.
  destruct (decide (a = i)) as [->|Hai].
  - rewrite (list_lookup_alter_ne _ _ j i) by congruence.
    rewrite list_lookup_alter_eq.
    rewrite (list_lookup_alter_ne _ _ j i) by congruence.
    rewrite list_lookup_alter_eq, Hsi.
    cbn [fmap option_fmap option_map mbind option_bind addTotalPoints pointsAgainst].
    rewrite lookup_setPointsAgainst.
    rewrite (decide_False (P := i = j /\ _)) by (intros [? _]; congruence).
    destruct (decide (key = player_id pj /\ key <> "__proto__")) as [Hk|Hk].
    + rewrite decide_True by tauto. reflexivity.
    + rewrite decide_False by tauto. reflexivity.
  - rewrite decide_False by tauto.
    destruct (decide (a = j)) as [->|Haj].
    + rewrite list_lookup_alter_eq.
      rewrite (list_lookup_alter_ne _ _ i j) by congruence.
      rewrite list_lookup_alter_eq.
      rewrite (list_lookup_alter_ne _ _ i j) by congruence.
      rewrite Hsj.
      cbn [fmap option_fmap option_map mbind option_bind addTotalPoints pointsAgainst].
      rewrite lookup_setPointsAgainst.
      destruct (decide (key = player_id pi /\ key <> "__proto__")) as [Hk|Hk].
      * rewrite decide_True by tauto. reflexivity.
      * rewrite decide_False by tauto. reflexivity.
    + rewrite decide_False by tauto.
      rewrite !list_lookup_alter_ne by congruence. reflexivity.
Qed.

Lemma ledger_fold ps :
  forall scores,
    map playerId scores = map player_id active ->
    (forall i j, (i, j) ∈ ps -> (i < j /\ j < length active)%nat) ->
    forall i j pi pj,
      (i, j) ∈ ps -> active !! i = Some pi -> active !! j = Some pj ->
      (player_id pj <> "__proto__" ->
       ledgerEntry (fold_left (scoreIndexPair active) ps scores) i (player_id pj)
       = Some (netPoints (compareArrangements pi pj)))
      /\ (player_id pi <> "__proto__" ->
          ledgerEntry (fold_left (scoreIndexPair active) ps scores) j (player_id pi)
          = Some (- netPoints (compareArrangements pi pj))).
Proof.
  induction ps as [|[i' j'] ps IH] using rev_ind; intros scores Hids Hps i j pi pj Hin Hi Hj.
  { inversion Hin. }
  rewrite fold_left_app. cbn [fold_left].
  assert (Hij' : (i' < j' /\ j' < length active)%nat).
  { apply Hps, elem_of_app. right. left. }
  destruct (lookup_lt_is_Some_2 active i' ltac:(lia)) as [pi' Hi'].
  destruct (lookup_lt_is_Some_2 active j' ltac:(lia)) as [pj' Hj'].
  rewrite !(scoreIndexPair_entry _ i' j' pi' pj')
    by (rewrite ?fold_scoreIndexPair_ids; auto; lia).
  destruct (decide (i = i' /\ j = j')) as [[-> ->]|Hne].
  - assert (pi' = pi) as -> by congruence.
    assert (pj' = pj) as -> by congruence.
    split; intros Hproto.
    + rewrite decide_True by tauto. reflexivity.
    + rewrite decide_False by (intros [? _]; lia).
      rewrite decide_True by tauto. reflexivity.
  - assert (Hin' : (i, j) ∈ ps).
    { apply elem_of_app in Hin as [Hin|Hin]; [exact Hin|].
      apply list_elem_of_singleton in Hin. injection Hin as -> ->. tauto. }
    assert (Hij : (i < j /\ j < length active)%nat).
    { apply Hps, elem_of_app. now left. }
    destruct (IH scores Hids) with (i := i) (j := j) (pi := pi) (pj := pj)
      as [H1 H2]; auto.
    { intros a b Hab. apply Hps, elem_of_app. now left. }
    split; intros Hproto.
    + rewrite decide_False.
      2:{ intros (-> & Hk & _). apply Hne. split; [reflexivity|].
          eapply player_id_inj; eauto. }
      rewrite decide_False.
      2:{ intros (-> & Hk & _). assert (j = i') by (eapply player_id_inj; eauto). lia. }
      now apply H1.
    + rewrite decide_False.
      2:{ intros (-> & Hk & _). assert (i = j') by (eapply player_id_inj; eauto). lia. }
      rewrite decide_False.
      2:{ intros (-> & Hk & _). apply Hne. split; [|reflexivity].
          eapply player_id_inj; eauto. }
      now apply H2.
Qed.

End Ledger.

(** No pass stores anything under the key ["__proto__"]. *)
Definition noProtoEntry (s : RoundScore) : Prop :=
  pointsAgainst s !! "__proto__" = None.

Lemma scorePair_noProto pi pj scores :
  Forall noProtoEntry scores -> Forall noProtoEntry (scorePair pi pj scores).
Proof.
  intros H. unfold scorePair. set (r := compareArrangements pi pj).
  destruct (findScore (player1Id r) scores) as [k1|]; [|exact H].
  destruct (findScore (player2Id r) scores) as [k2|]; [|exact H].
  repeat apply Forall_alter; try exact H; intros s _ Hs; unfold noProtoEntry in *;
    try exact Hs.
  all: rewrite lookup_setPointsAgainst, decide_False by (intros [_ ?]; contradiction);
    exact Hs.
Qed.

Lemma fold_scoreIndexPair_noProto active ps scores :
  Forall noProtoEntry scores ->
  Forall noProtoEntry (fold_left (scoreIndexPair active) ps scores).
Proof.
  revert scores. induction ps as [|p ps IH]; intros scores H; [exact H|].
  cbn [fold_left]. apply IH. unfold scoreIndexPair.
  destruct (active !! p.1), (active !! p.2); try exact H.
  now apply scorePair_noProto.
Qed.

Lemma initialScores_noProto active : Forall noProtoEntry (initialScores active).
Proof.
  unfold initialScores. apply Forall_forall. intros s Hs.
  apply list_elem_of_In, in_map_iff in Hs as (p & <- & _). reflexivity.
Qed.

Lemma setCashChange_fields (s : RoundScore) :
  playerId (setCashChange s) = playerId s
  /\ pointsAgainst (setCashChange s) = pointsAgainst s
  /\ totalPoints (setCashChange s) = totalPoints s
  /\ cashChange (setCashChange s) = totalPoints s.
Proof. repeat split. Qed.

Lemma sumTotalPoints_setCashChange scores :
  sumTotalPoints (map setCashChange scores) = sumTotalPoints scores.
Proof.
  unfold sumTotalPoints. rewrite map_map. reflexivity.
Qed.

Lemma ledgerEntry_setCashChange scores k key :
  ledgerEntry (map setCashChange scores) k key = ledgerEntry scores k key.
Proof.
  unfold ledgerEntry. change (map setCashChange scores) with (setCashChange <$> scores).
  rewrite list_lookup_fmap. destruct (scores !! k); reflexivity.
Qed.

(** C5.  The ledger [calculateRoundScores] returns is zero-sum, for every list
    of players and whatever the outcomes of the matchups: the [totalPoints]
    of its entries sum to 0 and each entry's [cashChange] equals its
    [totalPoints].  There is one entry per active player, in order, and (the
    players being told apart by their ids) for every pair [i < j] of active
    players the net of their matchup stands in [i]'s ledger under [j]'s id
    and its opposite in [j]'s ledger under [i]'s id.  The ledger is a plain
    object: the one id it cannot hold an entry for is ["__proto__"], under
    which nothing is ever stored. *)
Theorem calculateRoundScores_zero_sum (players : list Player) :
  sumTotalPoints (calculateRoundScores players) = 0
  /\ (forall s, s ∈ calculateRoundScores players -> cashChange s = totalPoints s)
  /\ map playerId (calculateRoundScores players)
     = map player_id (List.filter (fun p => negb (isBankrupt p)) players)
  /\ (NoDup (map player_id (List.filter (fun p => negb (isBankrupt p)) players)) ->
      forall i j pi pj,
        (i < j)%nat ->
        List.filter (fun p => negb (isBankrupt p)) players !! i = Some pi ->
        List.filter (fun p => negb (isBankrupt p)) players !! j = Some pj ->
        (player_id pj <> "__proto__" ->
         ledgerEntry (calculateRoundScores players) i (player_id pj)
         = Some (netPoints (compareArrangements pi pj)))
        /\ (player_id pi <> "__proto__" ->
            ledgerEntry (calculateRoundScores players) j (player_id pi)
            = Some (- netPoints (compareArrangements pi pj))))
  /\ (forall k, ledgerEntry (calculateRoundScores players) k "__proto__" = None).
Proof.
  rewrite calculateRoundScores_pairs. cbv zeta.
  set (active := List.filter (fun p => negb (isBankrupt p)) players).
  split; [|split; [|split; [|split]]].
  - rewrite sumTotalPoints_setCashChange, fold_scoreIndexPair_sum.
    apply initialScores_sum.
  - intros s Hs. apply list_elem_of_In, in_map_iff in Hs as (s0 & <- & _).
    reflexivity.
  - rewrite map_map. cbn [setCashChange playerId].
    rewrite fold_scoreIndexPair_ids. apply initialScores_ids.
  - intros Hnd i j pi pj Hij Hi Hj.
    rewrite !ledgerEntry_setCashChange.
    apply (ledger_fold active Hnd); auto.
    + apply initialScores_ids.
    + intros a b Hab. now apply elem_of_indexPairs.
    + apply elem_of_indexPairs. split; [exact Hij|].
      now apply lookup_lt_Some in Hj.
  - intros k. rewrite ledgerEntry_setCashChange. unfold ledgerEntry.
    destruct (fold_left (scoreIndexPair active) (indexPairs (length active))
                (initialScores active) !! k) as [s|] eqn:E; [|reflexivity].
    cbn [mbind option_bind].
    pose proof (fold_scoreIndexPair_noProto active (indexPairs (length active))
                  _ (initialScores_noProto active)) as Hall.
    rewrite Forall_forall in Hall. apply Hall.
    eapply list_elem_of_lookup_2, E.
Qed.

(** A third participant whose arrangement is missing (a foul). *)
Definition playerC : Player :=
  mkPlayer "ai-2" "C" false 1000 [] None true false.

Lemma calculateRoundScores_zero_sum_witness :
  sumTotalPoints (calculateRoundScores [playerA; playerB; playerC]) = 0
  /\ ledgerEntry (calculateRoundScores [playerA; playerB; playerC]) 0 "ai-1"
     = Some (-9)
  /\ ledgerEntry (calculateRoundScores [playerA; playerB; playerC]) 1 "human"
     = Some 9.
Proof.
  destruct (calculateRoundScores_zero_sum [playerA; playerB; playerC])
    as (Hsum & _ & _ & Hledger & _).
  split; [exact Hsum|].
  destruct (Hledger ltac:(apply (bool_decide_unpack _); vm_compute; exact I)
              0%nat 1%nat playerA playerB ltac:(lia) eq_refl eq_refl)
    as [H1 H2].
  split; [apply H1 | apply H2]; discriminate.
Defined.

(** A player whose id is ["__proto__"]: the matchup counts in both totals,
    and the opponent's ledger holds no entry for it. *)
Definition playerProto : Player :=
  mkPlayer "__proto__" "P" false 1000 [] None true false.

Lemma ledger_proto_key :
  map totalPoints (calculateRoundScores [playerA; playerProto]) = [10; -10]
  /\ ledgerEntry (calculateRoundScores [playerA; playerProto]) 0 "__proto__" = None
  /\ ledgerEntry (calculateRoundScores [playerA; playerProto]) 1 "human"
     = Some (-10).
Proof. repeat split; vm_compute; reflexivity. Qed.

End Round.

(** ** Search *)

Section Search.

Import GameLogic.

Lemma score_gt_irrefl a : score_gt a a = false.
Proof. destruct a; simpl; [reflexivity|]. rewrite Z.gtb_ltb. apply Z.ltb_irrefl. Qed.

Lemma score_gt_le_trans a b c :
  score_gt a b = true -> score_gt c b = false -> score_gt a c = true.
Proof.
  destruct a, b, c; simpl; try congruence; try reflexivity;
    rewrite ?Z.gtb_ltb, ?Z.ltb_lt, ?Z.ltb_ge; lia.
Qed.

Lemma score_le_trans a b c :
  score_gt a b = false -> score_gt b c = false -> score_gt a c = false.
Proof.
  destruct a, b, c; simpl; try congruence; try reflexivity;
    rewrite ?Z.gtb_ltb, ?Z.ltb_lt, ?Z.ltb_ge; lia.
Qed.

Lemma score_gt_asym a b : score_gt a b = true -> score_gt b a = false.
Proof.
  destruct a, b; simpl; try congruence; try reflexivity;
    rewrite ?Z.gtb_ltb, ?Z.ltb_lt, ?Z.ltb_ge; lia.
Qed.

(** The loop "keep the candidate when its score is strictly greater than the
    best so far", which both [findBestArrangement] and [chooseCardToDiscard]
    run: either nothing beat the initial score, or the result is the first
    candidate of maximal score. *)
Lemma keep_best_fold {A B} (f : A -> Score) (g : A -> B) (l : list A)
    (b0 : B) (s0 : Score) :
  let res :=
    fold_left (fun (best : B * Score) x =>
                 if score_gt (f x) (snd best) then (g x, f x) else best)
              l (b0, s0) in
  (forall x, x ∈ l -> score_gt (f x) (snd res) = false)
  /\ ((res = (b0, s0) /\ forall x, x ∈ l -> score_gt (f x) s0 = false)
      \/ exists i x, l !! i = Some x /\ res = (g x, f x)
           /\ score_gt (f x) s0 = true
           /\ forall j y, (j < i)%nat -> l !! j = Some y ->
                          score_gt (f x) (f y) = true).
Proof.
  induction l as [|x l IH] using rev_ind.
  { cbn. split; [intros x Hx; inversion Hx|]. left. split; [reflexivity|].
    intros x Hx. inversion Hx. }
  cbv zeta in *. rewrite fold_left_app. cbn [fold_left].
  set (res := fold_left _ l (b0, s0)) in *.
  destruct IH as [Hmax Hcase].
  destruct (score_gt (f x) (snd res)) eqn:Egt.
  - cbn [snd]. split.
    + intros y Hy. apply elem_of_app in Hy as [Hy|Hy].
      * specialize (Hmax y Hy). apply score_gt_asym.
        eapply score_gt_le_trans; eauto.
      * apply list_elem_of_singleton in Hy as ->. apply score_gt_irrefl.
    + right. exists (length l), x. split; [|split; [reflexivity|split]].
      * rewrite lookup_app_r by lia. now rewrite Nat.sub_diag.
      * destruct Hcase as [[Hres _]|(i & y & _ & Hres & Hy & _)].
        -- rewrite Hres in Egt. exact Egt.
        -- rewrite Hres in Egt. cbn in Egt.
           destruct (f x), (f y), s0; simpl in *; try congruence;
             rewrite ?Z.gtb_ltb, ?Z.ltb_lt in *; lia.
      * intros j y Hj Hy. rewrite lookup_app_l in Hy by lia.
        eapply score_gt_le_trans; [exact Egt|].
        apply Hmax. eapply list_elem_of_lookup_2, Hy.
  - split.
    + intros y Hy. apply elem_of_app in Hy as [Hy|Hy]; [now apply Hmax|].
      apply list_elem_of_singleton in Hy as ->. exact Egt.
    + destruct Hcase as [[Hres Hall]|(i & y & Hi & Hres & Hy & Hfirst)].
      * left. split; [exact Hres|]. intros y Hy.
        apply elem_of_app in Hy as [Hy|Hy]; [now apply Hall|].
        apply list_elem_of_singleton in Hy as ->.
        rewrite Hres in Egt. exact Egt.
      * right. exists i, y. split; [|split; [exact Hres|split; [exact Hy|]]].
        -- apply lookup_app_l_Some. exact Hi.
        -- intros j z Hj Hz. apply (Hfirst j z Hj).
           rewrite lookup_app_l in Hz; [exact Hz|].
           apply lookup_lt_Some in Hi. lia.
Qed.

(** C9.  On ten cards [chooseCardToDiscard] returns the card at some
    position [i] of the input.  The score [scoreArrangement] gives the
    arrangement [findBestArrangement] returns for the nine cards left when
    position [i] is removed is not exceeded by the score so obtained for
    any other position, and is strictly greater than the score for every
    earlier position (the first best card in iteration order is
    returned). *)
Theorem chooseCardToDiscard_best (cards : list Card) :
  length cards = 10%nat ->
  exists i c,
    (i < 10)%nat /\ cards !! i = Some c
    /\ AI.chooseCardToDiscard cards = Some c
    /\ (forall j, (j < 10)%nat ->
          score_gt
            (AI.scoreArrangement
               (AI.findBestArrangement (take j cards ++ drop (j + 1) cards)))
            (AI.scoreArrangement
               (AI.findBestArrangement (take i cards ++ drop (i + 1) cards)))
          = false)
    /\ (forall j, (j < i)%nat ->
          score_gt
            (AI.scoreArrangement
               (AI.findBestArrangement (take i cards ++ drop (i + 1) cards)))
            (AI.scoreArrangement
               (AI.findBestArrangement (take j cards ++ drop (j + 1) cards)))
          = true).
Proof.
  intros Hlen. unfold AI.chooseCardToDiscard. rewrite Hlen. cbn [Nat.eqb negb].
  destruct (keep_best_fold (AI.discardScore cards) (fun i => cards !! i)
              (seq 0 10) (cards !! 0%nat) NegInfinity) as [Hmax Hcase].
  cbv zeta in Hmax, Hcase.
  set (res := fold_left _ (seq 0 10) (cards !! 0%nat, NegInfinity)) in *.
  unfold AI.discardScore, AI.removeAt in Hmax, Hcase.
  destruct Hcase as [[Hres Hall]|(i & x & Hi & Hres & Hgt & Hfirst)].
  - destruct (lookup_lt_is_Some_2 cards 0 ltac:(lia)) as [c Hc].
    exists 0%nat, c. rewrite Hres. cbn [fst].
    split; [lia|]. split; [exact Hc|]. split; [exact Hc|]. split; [|lia].
    intros j Hj. specialize (Hall j).
    destruct (AI.scoreArrangement
                (AI.findBestArrangement (take j cards ++ drop (j + 1) cards)));
      [reflexivity|].
    discriminate Hall. apply list_elem_of_In, in_seq. lia.
  - assert (Hx : x = i /\ (i < 10)%nat).
    { apply lookup_seq in Hi. lia. }
    destruct Hx as [-> Hi10].
    destruct (lookup_lt_is_Some_2 cards i ltac:(lia)) as [c Hc].
    exists i, c. rewrite Hres. cbn [fst].
    split; [exact Hi10|]. split; [exact Hc|]. split; [exact Hc|]. split.
    + intros j Hj. specialize (Hmax j). rewrite Hres in Hmax.
      apply Hmax, list_elem_of_In, in_seq. lia.
    + intros j Hj. apply (Hfirst j j Hj). apply lookup_seq. lia.
Qed.

(** A ten-card hand: nine cards that arrange into all nines, and a king. *)
Definition tenCards : list Card :=
  [standardCard RK hearts;
   standardCard R2 hearts; standardCard R3 hearts; standardCard R4 hearts;
   standardCard R2 spades; standardCard R3 spades; standardCard R4 spades;
   standardCard R2 clubs; standardCard R3 clubs; standardCard R4 clubs].

(** The same ten cards with the king in the fifth place.  Without the king
    the hand arranges into all nines (score 10000); without any other card
    it has no special hand. *)
Definition kingFifth : list Card :=
  [standardCard R2 hearts; standardCard R3 hearts; standardCard R4 hearts;
   standardCard R2 spades; standardCard RK hearts;
   standardCard R3 spades; standardCard R4 spades;
   standardCard R2 clubs; standardCard R3 clubs; standardCard R4 clubs].

Lemma chooseCardToDiscard_best_witness :
  AI.chooseCardToDiscard kingFifth = Some (standardCard RK hearts)
  /\ kingFifth !! 4%nat = Some (standardCard RK hearts)
  /\ AI.scoreArrangement
       (AI.findBestArrangement (take 4 kingFifth ++ drop (4 + 1) kingFifth))
     = Num 10000
  /\ (forall j, (j < 4)%nat ->
        score_gt
          (Num 10000)
          (AI.scoreArrangement
             (AI.findBestArrangement (take j kingFifth ++ drop (j + 1) kingFifth)))
        = true)
  /\ (forall j, (j < 10)%nat ->
        score_gt
          (AI.scoreArrangement
             (AI.findBestArrangement (take j kingFifth ++ drop (j + 1) kingFifth)))
          (Num 10000)
        = false).
Proof.
  destruct (chooseCardToDiscard_best kingFifth eq_refl)
    as (i & c & Hi & Hc & Hres & Hmax & Hfirst).
  assert (E : AI.chooseCardToDiscard kingFifth = Some (standardCard RK hearts))
    by (vm_compute; reflexivity).
  assert (Ei : i = 4%nat).
  { rewrite E in Hres. injection Hres as <-.
    do 10 (destruct i as [|i]; [first [reflexivity | discriminate Hc]|]). lia. }
  subst i.
  assert (Es : AI.scoreArrangement
                 (AI.findBestArrangement (take 4 kingFifth ++ drop (4 + 1) kingFifth))
               = Num 10000) by (vm_compute; reflexivity).
  rewrite Es in Hmax, Hfirst.
  split; [exact E|]. split; [reflexivity|]. split; [exact Es|].
  split; [exact Hfirst | exact Hmax].
Defined.

(** *** The candidates of [findBestArrangement]

    An assignment gives each of the nine positions of the hand a layer; it
    is a partition of the hand when each layer gets three positions. *)
Definition positionsOf (asg : list LayerName) (l : LayerName) : list nat :=
  List.filter (fun i => bool_decide (asg !! i = Some l)) (seq 0 (length asg)).

Definition partitionOf (asg : list LayerName)
    : list nat * list nat * list nat :=
  (positionsOf asg Ltop, positionsOf asg Lmiddle, positionsOf asg Lbottom).

Definition isPartitionb (asg : list LayerName) : bool :=
  (length asg =? 9)%nat
  && (length (positionsOf asg Ltop) =? 3)%nat
  && (length (positionsOf asg Lmiddle) =? 3)%nat
  && (length (positionsOf asg Lbottom) =? 3)%nat.

Definition isPartition (asg : list LayerName) : Prop := isPartitionb asg = true.

(** The arrangement that deals the cards to the layers as [asg] says, the
    cards of a layer in the order of the hand. *)
Definition dealt (cards : list Card) (asg : list LayerName) : PlayerArrangement :=
  AI.arrangementOf cards (partitionOf asg).

(** All lists of [n] layer names. *)
Fixpoint assignments (n : nat) : list (list LayerName) :=
  match n with
  | O => [[]]
  | S n' =>
      flat_map (fun asg => [Ltop :: asg; Lmiddle :: asg; Lbottom :: asg])
               (assignments n')
  end.

Lemma assignments_complete (asg : list LayerName) :
  asg ∈ assignments (length asg).
Proof.
  induction asg as [|l asg IH]; [left|].
  cbn [length assignments]. apply list_elem_of_In, in_flat_map.
  exists asg. split; [now apply list_elem_of_In|].
  destruct l; simpl; tauto.
Qed.

(** The assignment read back from a triple of index lists. *)
Definition assignmentOf (c : list nat * list nat * list nat) : list LayerName :=
  let '(t, m, _) := c in
  map (fun i => if bool_decide (i ∈ t) then Ltop
                else if bool_decide (i ∈ m) then Lmiddle else Lbottom)
      (seq 0 9).

Fixpoint indicesEqb (a b : list nat) : bool :=
  match a, b with
  | [], [] => true
  | x :: a', y :: b' => (x =? y)%nat && indicesEqb a' b'
  | _, _ => false
  end.

Definition tripleEqb (c d : list nat * list nat * list nat) : bool :=
  if indicesEqb c.2 d.2 then
    if indicesEqb c.1.2 d.1.2 then indicesEqb c.1.1 d.1.1 else false
  else false.

Lemma indicesEqb_eq a b : indicesEqb a b = true -> a = b.
Proof.
  revert b. induction a as [|x a IH]; intros [|y b]; simpl; try discriminate;
    [reflexivity|].
  intros H. apply andb_true_iff in H as [H1 H2].
  apply Nat.eqb_eq in H1. apply IH in H2. congruence.
Qed.

Lemma tripleEqb_eq c d : tripleEqb c d = true -> c = d.
Proof.
  destruct c as [[t m] b], d as [[t' m'] b']. unfold tripleEqb. cbn [fst snd].
  destruct (indicesEqb b b') eqn:H3; [|discriminate].
  destruct (indicesEqb m m') eqn:H2; [|discriminate].
  intros H1. apply indicesEqb_eq in H1, H2, H3. congruence.
Qed.

Definition coveredBy (candidates : list (list nat * list nat * list nat))
    (asgs : list (list LayerName)) : bool :=
  forallb (fun asg =>
             if isPartitionb asg then
               let p := partitionOf asg in
               existsb (fun c => tripleEqb p c) candidates
             else true)
          asgs.

Lemma candidateIndices_complete_check :
  coveredBy AI.candidateIndices (assignments 9) = true.
Proof. vm_compute. reflexivity. Qed.

Lemma candidateIndices_sound_check :
  forallb (fun c => isPartitionb (assignmentOf c)
                    && tripleEqb (partitionOf (assignmentOf c)) c)
          AI.candidateIndices = true.
Proof. vm_compute. reflexivity. Qed.

Lemma coveredBy_spec candidates asgs asg :
  coveredBy candidates asgs = true -> In asg asgs -> isPartitionb asg = true ->
  In (partitionOf asg) candidates.
Proof.
  unfold coveredBy. rewrite forallb_forall. intros Hc Hin Hp.
  specialize (Hc asg Hin). rewrite Hp in Hc. cbv zeta in Hc.
  apply existsb_exists in Hc as (c & Hc1 & Hc2).
  apply tripleEqb_eq in Hc2 as ->. exact Hc1.
Qed.

Lemma isPartition_length asg : isPartition asg -> length asg = 9%nat.
Proof.
  unfold isPartition, isPartitionb. rewrite !andb_true_iff.
  intros [[[H _] _] _]. now apply Nat.eqb_eq.
Qed.

(** The loops of [findBestArrangement] visit exactly the partitions of the
    nine positions into three layers of three. *)
Lemma candidateIndices_complete (asg : list LayerName) :
  isPartition asg -> partitionOf asg ∈ AI.candidateIndices.
Proof.
  intros H. apply list_elem_of_In.
  apply (coveredBy_spec _ (assignments 9) asg candidateIndices_complete_check);
    [|exact H].
  pose proof (assignments_complete asg) as Hin.
  rewrite (isPartition_length asg H) in Hin. now apply list_elem_of_In.
Qed.

Lemma sound_spec candidates c :
  forallb (fun c => isPartitionb (assignmentOf c)
                    && tripleEqb (partitionOf (assignmentOf c)) c)
          candidates = true ->
  In c candidates -> exists asg, isPartition asg /\ c = partitionOf asg.
Proof.
  rewrite forallb_forall. intros Hc H. apply Hc in H.
  apply andb_true_iff in H as [H1 H2]. apply tripleEqb_eq in H2.
  exists (assignmentOf c). split; [exact H1 | now symmetry].
Qed.

Lemma candidateIndices_sound c :
  c ∈ AI.candidateIndices -> exists asg, isPartition asg /\ c = partitionOf asg.
Proof.
  intros H. apply (sound_spec _ c candidateIndices_sound_check).
  now apply list_elem_of_In.
Qed.

(** *** The score of a candidate *)

(** The strength of one layer in the search heuristic, in the words of the
    specification: (7 - category number) * 100 + tie-break value. *)
Definition layerStrength (l : Layer) : Z :=
  (7 - handTypeNum (type (evalCards (placed l)))) * 100
  + value (evalCards (placed l)).

(** The heuristic score of a valid candidate as the specification has it:
    the dominant constant for a special hand, else the sum over the layers. *)
Definition specScore (a : PlayerArrangement) : Z :=
  if AI.hasSpecialHandArrangement a then 10000
  else layerStrength (top a) + layerStrength (middle a) + layerStrength (bottom a).

Lemma validateArrangement_lengths (a : PlayerArrangement) :
  validateArrangement a = true ->
  length (placed (top a)) = 3%nat /\ length (placed (middle a)) = 3%nat
  /\ length (placed (bottom a)) = 3%nat.
Proof.
  unfold validateArrangement.
  destruct (length (placed (top a)) =? 3)%nat eqn:E1;
  destruct (length (placed (middle a)) =? 3)%nat eqn:E2;
  destruct (length (placed (bottom a)) =? 3)%nat eqn:E3; simpl; try discriminate.
  apply Nat.eqb_eq in E1, E2, E3. auto.
Qed.

Lemma scoreArrangement_valid (a : PlayerArrangement) :
  validateArrangement a = true -> AI.scoreArrangement a = Num (specScore a).
Proof.
  intros Hv. destruct (validateArrangement_lengths a Hv) as (H1 & H2 & H3).
  unfold AI.scoreArrangement, specScore, layerStrength, AI.handScore.
  rewrite H1, H2, H3, Hv. cbn [Nat.eqb negb orb].
  destruct (AI.hasSpecialHandArrangement a); reflexivity.
Qed.

Lemma scoreArrangement_Num (a : PlayerArrangement) z :
  AI.scoreArrangement a = Num z -> validateArrangement a = true.
Proof.
  unfold AI.scoreArrangement.
  destruct (negb _ || negb _ || negb _); [discriminate|].
  destruct (validateArrangement a); [reflexivity | discriminate].
Qed.

Lemma evalCards_value_bound (cs : list Card) : 0 <= value (evalCards cs) <= 100.
Proof.
  rewrite evalCards_eq. destruct (length cs =? 3)%nat eqn:E.
  - apply evaluateCards_value_bound. now apply Nat.eqb_eq.
  - simpl. lia.
Qed.

Lemma layerStrength_bound (l : Layer) : 100 <= layerStrength l <= 700.
Proof.
  unfold layerStrength. pose proof (evalCards_value_bound (placed l)).
  destruct (type (evalCards (placed l))); simpl; lia.
Qed.

(** An ordinary score stays below the constant of the special hands. *)
Lemma specScore_ordinary (a : PlayerArrangement) :
  AI.hasSpecialHandArrangement a = false -> specScore a < 10000.
Proof.
  intros H. unfold specScore. rewrite H.
  pose proof (layerStrength_bound (top a)).
  pose proof (layerStrength_bound (middle a)).
  pose proof (layerStrength_bound (bottom a)). lia.
Qed.

Lemma specScore_special (a : PlayerArrangement) :
  AI.hasSpecialHandArrangement a = true -> specScore a = 10000.
Proof. intros H. unfold specScore. now rewrite H. Qed.

(** The loop of [findBestArrangement] over its candidates. *)
Lemma searchCandidates_spec (cards : list Card) :
  (forall c, c ∈ AI.candidateIndices ->
     score_gt (AI.scoreArrangement (AI.arrangementOf cards c))
              (snd (AI.searchCandidates cards)) = false)
  /\ ((AI.searchCandidates cards = (None, NegInfinity)
       /\ forall c, c ∈ AI.candidateIndices ->
            score_gt (AI.scoreArrangement (AI.arrangementOf cards c)) NegInfinity
            = false)
      \/ exists i x, AI.candidateIndices !! i = Some x
           /\ AI.searchCandidates cards
              = (Some (AI.arrangementOf cards x),
                 AI.scoreArrangement (AI.arrangementOf cards x))
           /\ score_gt (AI.scoreArrangement (AI.arrangementOf cards x)) NegInfinity
              = true
           /\ forall j y, (j < i)%nat -> AI.candidateIndices !! j = Some y ->
                 score_gt (AI.scoreArrangement (AI.arrangementOf cards x))
                          (AI.scoreArrangement (AI.arrangementOf cards y)) = true).
Proof.
  unfold AI.searchCandidates. generalize AI.candidateIndices. intros cands.
  exact (keep_best_fold (fun c => AI.scoreArrangement (AI.arrangementOf cards c))
           (fun c => Some (AI.arrangementOf cards c)) cands None NegInfinity).
Qed.

(** The search over the partitions of the positions: when some partition
    is valid the result is a valid partition of maximal score. *)
Lemma findBestArrangement_partitions (cards : list Card) :
  length cards = 9%nat ->
  (exists asg, isPartition asg /\ validateArrangement (dealt cards asg) = true) ->
  validateArrangement (AI.findBestArrangement cards) = true
  /\ (exists asg, isPartition asg /\ AI.findBestArrangement cards = dealt cards asg)
  /\ AI.scoreArrangement (AI.findBestArrangement cards)
     = Num (specScore (AI.findBestArrangement cards))
  /\ (forall asg, isPartition asg -> validateArrangement (dealt cards asg) = true ->
        AI.scoreArrangement (dealt cards asg) = Num (specScore (dealt cards asg))
        /\ specScore (dealt cards asg) <= specScore (AI.findBestArrangement cards))
  /\ (forall a b, AI.hasSpecialHandArrangement a = true ->
        AI.hasSpecialHandArrangement b = false -> specScore b < specScore a)
  /\ ((exists asg, isPartition asg /\ validateArrangement (dealt cards asg) = true
                   /\ AI.hasSpecialHandArrangement (dealt cards asg) = true) ->
      AI.hasSpecialHandArrangement (AI.findBestArrangement cards) = true).
Proof.
  intros Hlen (asg0 & Hp0 & Hv0).
  destruct (searchCandidates_spec cards) as [Hmax Hcase].
  pose proof (candidateIndices_complete asg0 Hp0) as Hin0.
  pose proof (scoreArrangement_valid _ Hv0) as Hs0. unfold dealt in Hs0.
  destruct Hcase as [[Hres Hall]|(i & x & Hi & Hres & Hgt & _)].
  { specialize (Hall _ Hin0). rewrite Hs0 in Hall. discriminate. }
  destruct (AI.scoreArrangement (AI.arrangementOf cards x)) as [|z] eqn:Ex;
    [discriminate|].
  assert (Hbest : AI.findBestArrangement cards = AI.arrangementOf cards x).
  { unfold AI.findBestArrangement. rewrite Hlen, Hres.
    cbn [Nat.eqb negb]. reflexivity. }
  pose proof (scoreArrangement_Num _ _ Ex) as Hvx.
  pose proof (scoreArrangement_valid _ Hvx) as Hsx.
  rewrite Hres in Hmax. cbn [snd] in Hmax.
  assert (Hopt : forall asg, isPartition asg ->
            validateArrangement (dealt cards asg) = true ->
            specScore (dealt cards asg) <= specScore (AI.arrangementOf cards x)).
  { intros asg Hp Hv. specialize (Hmax _ (candidateIndices_complete asg Hp)).
    pose proof (scoreArrangement_valid _ Hv) as Hs. unfold dealt in *.
    rewrite Hs in Hmax. rewrite Hsx in Ex. injection Ex as <-.
    cbn in Hmax. rewrite Z.gtb_ltb, Z.ltb_ge in Hmax. exact Hmax. }
  rewrite Hbest. split; [exact Hvx|]. split.
  { apply list_elem_of_lookup_2, candidateIndices_sound in Hi as (asg & Hp & ->).
    exists asg. split; [exact Hp | reflexivity]. }
  split; [exact Hsx|]. split.
  { intros asg Hp Hv. split; [now apply scoreArrangement_valid | now apply Hopt]. }
  split.
  { intros a b Ha Hb. rewrite (specScore_special a Ha).
    now apply specScore_ordinary. }
  intros (asg & Hp & Hv & Hsp).
  destruct (AI.hasSpecialHandArrangement (AI.arrangementOf cards x)) eqn:E;
    [reflexivity|].
  pose proof (Hopt asg Hp Hv) as Hle.
  rewrite (specScore_special _ Hsp) in Hle.
  pose proof (specScore_ordinary _ E). lia.
Qed.

(** *** Arrangements of a hand

    An arrangement of a hand places each of its cards once, three to a
    layer, in any order. *)
Definition arranges (cards : list Card) (a : PlayerArrangement) : Prop :=
  length (placed (top a)) = 3%nat /\ length (placed (middle a)) = 3%nat
  /\ length (placed (bottom a)) = 3%nat
  /\ Permutation (placed (top a) ++ placed (middle a) ++ placed (bottom a)) cards.

(** Two arrangements with the same cards in each layer. *)
Definition sameLayers (a a' : PlayerArrangement) : Prop :=
  Permutation (placed (top a)) (placed (top a'))
  /\ Permutation (placed (middle a)) (placed (middle a'))
  /\ Permutation (placed (bottom a)) (placed (bottom a')).

Lemma validateArrangement_perm a a' :
  sameLayers a a' -> validateArrangement a = validateArrangement a'.
Proof.
  intros (Ht & Hm & Hb). unfold validateArrangement.
  rewrite (Permutation_length Ht), (Permutation_length Hm), (Permutation_length Hb).
  rewrite (evalCards_perm _ _ Ht), (evalCards_perm _ _ Hm), (evalCards_perm _ _ Hb).
  reflexivity.
Qed.

Lemma countRanks_perm (l l' : list Card) :
  Permutation l l' -> countRanks l = countRanks l'.
Proof.
  intros H. unfold countRanks. apply fold_left_perm; [|exact H].
  intros m x y. destruct (isWild x), (isWild y); cbn [negb]; try reflexivity.
  destruct (decide (rankText (rank x) = rankText (rank y))) as [E|E].
  - rewrite E. reflexivity.
  - rewrite !lookup_insert_ne by congruence. apply insert_insert_ne. congruence.
Qed.

Lemma allCards_placed (a : PlayerArrangement) :
  omap id (cards (top a) ++ cards (middle a) ++ cards (bottom a))
  = placed (top a) ++ placed (middle a) ++ placed (bottom a).
Proof. unfold placed. now rewrite !omap_app. Qed.

Lemma hasSpecialHandArrangement_perm a a' :
  sameLayers a a' ->
  AI.hasSpecialHandArrangement a = AI.hasSpecialHandArrangement a'.
Proof.
  intros (Ht & Hm & Hb).
  unfold AI.hasSpecialHandArrangement, AI.isAllNinesArrangement,
    AI.hasFourOfAKindArrangement.
  rewrite !allCards_placed. cbn [forallb].
  rewrite (Permutation_length Ht), (Permutation_length Hm), (Permutation_length Hb).
  rewrite (evalCards_perm _ _ Ht), (evalCards_perm _ _ Hm), (evalCards_perm _ _ Hb).
  rewrite (existsb_perm _ _ _ Ht), (existsb_perm _ _ _ Hm), (existsb_perm _ _ _ Hb).
  rewrite (countRanks_perm _ (placed (top a') ++ placed (middle a') ++ placed (bottom a'))).
  - reflexivity.
  - now repeat apply Permutation_app.
Qed.

Lemma specScore_perm a a' : sameLayers a a' -> specScore a = specScore a'.
Proof.
  intros H. unfold specScore, layerStrength.
  rewrite (hasSpecialHandArrangement_perm _ _ H).
  destruct H as (Ht & Hm & Hb).
  rewrite (evalCards_perm _ _ Ht), (evalCards_perm _ _ Hm), (evalCards_perm _ _ Hb).
  reflexivity.
Qed.

(** The cards an assignment gives to a layer. *)
Fixpoint selectLayer (asg : list LayerName) (cs : list Card) (l : LayerName)
    : list Card :=
  match asg, cs with
  | x :: asg', c :: cs' =>
      if bool_decide (x = l) then c :: selectLayer asg' cs' l
      else selectLayer asg' cs' l
  | _, _ => []
  end.

Lemma filter_map_shift (f : nat -> bool) (l : list nat) :
  List.filter f (map S l) = map S (List.filter (fun i => f (S i)) l).
Proof.
  induction l as [|i l IH]; simpl; [reflexivity|].
  destruct (f (S i)); simpl; now rewrite IH.
Qed.

Lemma positionsOf_cons x asg l :
  positionsOf (x :: asg) l
  = (if bool_decide (x = l) then [0%nat] else []) ++ map S (positionsOf asg l).
Proof.
  unfold positionsOf. cbn [length seq List.filter lookup list_lookup].
  rewrite <- seq_shift, filter_map_shift.
  assert (E : bool_decide (Some x = Some l) = bool_decide (x = l)).
  { apply bool_decide_ext. split; congruence. }
  rewrite E. destruct (bool_decide (x = l)); reflexivity.
Qed.

Lemma pick_positionsOf (asg : list LayerName) (cs : list Card) l :
  length asg = length cs ->
  AI.pick cs (positionsOf asg l) = mkLayer (Some <$> selectLayer asg cs l).
Proof.
  revert cs. induction asg as [|x asg IH]; intros [|c cs] Hlen;
    try discriminate; [reflexivity|].
  injection Hlen as Hlen. specialize (IH cs Hlen).
  unfold AI.pick in *. injection IH as IH.
  rewrite positionsOf_cons, map_app, map_map. cbn [selectLayer].
  change (map (fun i => (c :: cs) !! S i) (positionsOf asg l))
    with (map (fun i => cs !! i) (positionsOf asg l)).
  rewrite IH. destruct (bool_decide (x = l)); reflexivity.
Qed.

Lemma placed_dealt (asg : list LayerName) (cs : list Card) :
  length asg = length cs ->
  placed (top (dealt cs asg)) = selectLayer asg cs Ltop
  /\ placed (middle (dealt cs asg)) = selectLayer asg cs Lmiddle
  /\ placed (bottom (dealt cs asg)) = selectLayer asg cs Lbottom.
Proof.
  intros Hlen. unfold dealt, partitionOf, AI.arrangementOf. cbn [top middle bottom].
  rewrite !pick_positionsOf by exact Hlen. unfold placed. cbn [cards].
  rewrite !omap_id_Some. auto.
Qed.

Lemma length_positionsOf (asg : list LayerName) (cs : list Card) l :
  length asg = length cs ->
  length (positionsOf asg l) = length (selectLayer asg cs l).
Proof.
  intros Hlen.
  pose proof (f_equal (fun x => length (cards x)) (pick_positionsOf asg cs l Hlen)) as H.
  cbn [AI.pick cards] in H. now rewrite length_map, length_fmap in H.
Qed.

Lemma selectLayer_all (asg : list LayerName) (cs : list Card) :
  length asg = length cs ->
  Permutation (selectLayer asg cs Ltop ++ selectLayer asg cs Lmiddle
               ++ selectLayer asg cs Lbottom) cs.
Proof.
  revert cs. induction asg as [|x asg IH]; intros [|c cs] Hlen;
    try discriminate; [constructor|].
  injection Hlen as Hlen. specialize (IH cs Hlen).
  destruct x; cbn [selectLayer]; simpl.
  - now constructor.
  - rewrite <- Permutation_middle. now constructor.
  - rewrite app_assoc, <- Permutation_middle, <- app_assoc. now constructor.
Qed.

(** Every way of splitting a list into three parts is, up to the order
    inside the parts, given by an assignment of its positions. *)
Lemma assignment_exists (cs t m b : list Card) :
  Permutation (t ++ m ++ b) cs ->
  exists asg, length asg = length cs
    /\ Permutation (selectLayer asg cs Ltop) t
    /\ Permutation (selectLayer asg cs Lmiddle) m
    /\ Permutation (selectLayer asg cs Lbottom) b.
Proof.
  revert t m b. induction cs as [|c cs IH]; intros t m b H.
  { apply Permutation_sym, Permutation_nil in H.
    apply app_eq_nil in H as [-> H]. apply app_eq_nil in H as [-> ->].
    exists []. repeat split; constructor. }
  assert (Hin : In c (t ++ m ++ b)).
  { eapply Permutation_in; [symmetry; exact H | now left]. }
  apply in_app_or in Hin as [Hin|Hin]; [|apply in_app_or in Hin as [Hin|Hin]];
    apply in_split in Hin as (l1 & l2 & ->).
  - destruct (IH (l1 ++ l2) m b) as (asg & Hlen & Ht & Hm & Hb).
    { apply Permutation_cons_inv with c. rewrite <- H.
      replace ((l1 ++ c :: l2) ++ m ++ b) with (l1 ++ c :: (l2 ++ m ++ b))
        by (now rewrite <- app_assoc).
      replace ((l1 ++ l2) ++ m ++ b) with (l1 ++ (l2 ++ m ++ b))
        by (now rewrite <- app_assoc).
      apply Permutation_middle. }
    exists (Ltop :: asg). cbn [selectLayer length]. simpl.
    repeat split; auto. rewrite Ht. apply Permutation_middle.
  - destruct (IH t (l1 ++ l2) b) as (asg & Hlen & Ht & Hm & Hb).
    { apply Permutation_cons_inv with c. rewrite <- H.
      replace (t ++ (l1 ++ c :: l2) ++ b) with ((t ++ l1) ++ c :: (l2 ++ b))
        by (now rewrite <- !app_assoc).
      replace (t ++ (l1 ++ l2) ++ b) with ((t ++ l1) ++ (l2 ++ b))
        by (now rewrite <- !app_assoc).
      apply Permutation_middle. }
    exists (Lmiddle :: asg). cbn [selectLayer length]. simpl.
    repeat split; auto. rewrite Hm. apply Permutation_middle.
  - destruct (IH t m (l1 ++ l2)) as (asg & Hlen & Ht & Hm & Hb).
    { apply Permutation_cons_inv with c. rewrite <- H.
      replace (t ++ m ++ l1 ++ c :: l2) with ((t ++ m ++ l1) ++ c :: l2)
        by (now rewrite <- !app_assoc).
      replace (t ++ m ++ l1 ++ l2) with ((t ++ m ++ l1) ++ l2)
        by (now rewrite <- !app_assoc).
      apply Permutation_middle. }
    exists (Lbottom :: asg). cbn [selectLayer length]. simpl.
    repeat split; auto. rewrite Hb. apply Permutation_middle.
Qed.

Lemma isPartition_inv (asg : list LayerName) :
  isPartition asg <->
  length asg = 9%nat /\ length (positionsOf asg Ltop) = 3%nat
  /\ length (positionsOf asg Lmiddle) = 3%nat
  /\ length (positionsOf asg Lbottom) = 3%nat.
Proof.
  unfold isPartition, isPartitionb. rewrite !andb_true_iff, !Nat.eqb_eq. tauto.
Qed.

Lemma arranges_partition (cards : list Card) (a : PlayerArrangement) :
  length cards = 9%nat -> arranges cards a ->
  exists asg, isPartition asg /\ sameLayers a (dealt cards asg).
Proof.
  intros Hlen (Ht & Hm & Hb & Hperm).
  destruct (assignment_exists _ _ _ _ Hperm) as (asg & Hl & Pt & Pm & Pb).
  exists asg. destruct (placed_dealt asg cards Hl) as (Et & Em & Eb). split.
  - apply isPartition_inv. rewrite !(length_positionsOf asg cards) by exact Hl.
    rewrite (Permutation_length Pt), (Permutation_length Pm), (Permutation_length Pb).
    repeat split; congruence.
  - unfold sameLayers. rewrite Et, Em, Eb. repeat split; now symmetry.
Qed.

Lemma dealt_arranges (cards : list Card) (asg : list LayerName) :
  length cards = 9%nat -> isPartition asg -> arranges cards (dealt cards asg).
Proof.
  intros Hlen Hp. apply isPartition_inv in Hp as (Hl & Ht & Hm & Hb).
  assert (Hl' : length asg = length cards) by congruence.
  destruct (placed_dealt asg cards Hl') as (Et & Em & Eb).
  unfold arranges. rewrite Et, Em, Eb.
  rewrite <- !(length_positionsOf asg cards) by exact Hl'.
  repeat split; auto. now apply selectLayer_all.
Qed.

(** C4.  On nine cards that admit a layer-order-valid arrangement,
    [findBestArrangement] returns a valid arrangement of the hand whose score
    is maximal among the valid arrangements of the hand into three layers of
    three; the score of a valid arrangement is the sum over its layers of
    (7 - category number) * 100 + tie-break value, except that one with a
    special hand scores 10000, above every ordinary score, so that a special
    hand is returned whenever some valid arrangement has one. *)
Theorem findBestArrangement_optimal (cards : list Card) :
  length cards = 9%nat ->
  (exists a, arranges cards a /\ validateArrangement a = true) ->
  validateArrangement (AI.findBestArrangement cards) = true
  /\ arranges cards (AI.findBestArrangement cards)
  /\ AI.scoreArrangement (AI.findBestArrangement cards)
     = Num (specScore (AI.findBestArrangement cards))
  /\ (forall a, arranges cards a -> validateArrangement a = true ->
        AI.scoreArrangement a = Num (specScore a)
        /\ specScore a <= specScore (AI.findBestArrangement cards))
  /\ (forall a b, AI.hasSpecialHandArrangement a = true ->
        AI.hasSpecialHandArrangement b = false -> specScore b < specScore a)
  /\ ((exists a, arranges cards a /\ validateArrangement a = true
                 /\ AI.hasSpecialHandArrangement a = true) ->
      AI.hasSpecialHandArrangement (AI.findBestArrangement cards) = true).
Proof.
  intros Hlen (a0 & Ha0 & Hv0).
  destruct (arranges_partition cards a0 Hlen Ha0) as (asg0 & Hp0 & Hs0).
  rewrite (validateArrangement_perm _ _ Hs0) in Hv0.
  destruct (findBestArrangement_partitions cards Hlen
              (ex_intro _ asg0 (conj Hp0 Hv0)))
    as (H1 & (asg & Hp & Hbest) & H3 & H4 & H5 & H6).
  split; [exact H1|]. split.
  { rewrite Hbest. now apply dealt_arranges. }
  split; [exact H3|]. split.
  { intros a Ha Hv. split; [now apply scoreArrangement_valid|].
    destruct (arranges_partition cards a Hlen Ha) as (asg' & Hp' & Hs').
    rewrite (validateArrangement_perm _ _ Hs') in Hv.
    rewrite (specScore_perm _ _ Hs'). now apply H4. }
  split; [exact H5|].
  intros (a & Ha & Hv & Hsp). apply H6.
  destruct (arranges_partition cards a Hlen Ha) as (asg' & Hp' & Hs').
  exists asg'. rewrite <- (validateArrangement_perm _ _ Hs'),
    <- (hasSpecialHandArrangement_perm _ _ Hs'). auto.
Qed.

(** Nine cards that arrange into all nines (2, 3 and 4 of one suit in each
    layer) and also into three pure three-of-a-kinds. *)
Definition nineCards : list Card :=
  [standardCard R2 hearts; standardCard R3 hearts; standardCard R4 hearts;
   standardCard R2 spades; standardCard R3 spades; standardCard R4 spades;
   standardCard R2 clubs; standardCard R3 clubs; standardCard R4 clubs].

(** The three three-of-a-kinds, the cards of a layer not in hand order. *)
Definition threeKinds : PlayerArrangement :=
  mkArrangement
    (layer3 (standardCard R2 clubs) (standardCard R2 hearts) (standardCard R2 spades))
    (layer3 (standardCard R3 spades) (standardCard R3 clubs) (standardCard R3 hearts))
    (layer3 (standardCard R4 hearts) (standardCard R4 clubs) (standardCard R4 spades)).

Lemma threeKinds_arranges : arranges nineCards threeKinds.
Proof.
  unfold arranges. repeat split; try reflexivity.
  apply (bool_decide_unpack _). vm_compute. exact I.
Defined.

Lemma findBestArrangement_optimal_witness :
  validateArrangement (AI.findBestArrangement nineCards) = true
  /\ arranges nineCards (AI.findBestArrangement nineCards)
  /\ specScore threeKinds <= specScore (AI.findBestArrangement nineCards).
Proof.
  destruct (findBestArrangement_optimal nineCards eq_refl
              (ex_intro _ threeKinds (conj threeKinds_arranges eq_refl)))
    as (H1 & H2 & _ & H4 & _).
  split; [exact H1|]. split; [exact H2|].
  apply H4; [exact threeKinds_arranges | reflexivity].
Defined.

(** The search of game-logic.ts, which [HandArrangement] calls for the
    human player, has no special case for special hands: on [nineCards] it
    returns the three three-of-a-kinds (plain score 1809), not a special
    hand, where the search of ai.ts returns all nines. *)
Lemma gameLogic_findBestArrangement_plain_sum :
  exists a, GameLogic.findBestArrangement nineCards = Some a
    /\ validateArrangement a = true
    /\ GameLogic.scoreArrangement a = 1809
    /\ AI.hasSpecialHandArrangement a = false
    /\ AI.hasSpecialHandArrangement (AI.findBestArrangement nineCards) = true.
Proof.
  eexists. split; [vm_compute; reflexivity|].
  repeat split; vm_compute; reflexivity.
Qed.

End Search.

(** ** The earlier variant of game-logic.ts

    The three rules above that the earlier text of the file does not have. *)

Section EarlierVariant.

(** No wildcard rule: the sum of the non-wild cards is the value. *)
Lemma legacy_sum_modulo_wild :
  type (Legacy.evalCards [standardCard R2 hearts; wildCard 1; standardCard R4 spades])
  = SUM_MODULO
  /\ value (Legacy.evalCards [standardCard R2 hearts; wildCard 1; standardCard R4 spades])
     = 6.
Proof. split; vm_compute; reflexivity. Qed.

(** One point for each layer won, whatever the winning category. *)
Lemma legacy_layer_points :
  player1TotalPoints (Legacy.compareArrangements playerA playerB) = 1
  /\ player2TotalPoints (Legacy.compareArrangements playerA playerB) = 2.
Proof. split; vm_compute; reflexivity. Qed.

(** Four of a kind is no automatic win: the layers are compared. *)
Lemma legacy_four_of_a_kind :
  GameLogic.checkFourOfAKind (playerWith (Some fourSevens)) = true
  /\ Legacy.checkAutoWin (playerWith (Some fourSevens)) = false
  /\ player1TotalPoints
       (Legacy.compareArrangements (playerWith (Some fourSevens)) playerB) = 1
  /\ player2TotalPoints
       (Legacy.compareArrangements (playerWith (Some fourSevens)) playerB) = 2.
Proof. repeat split; vm_compute; reflexivity. Qed.

End EarlierVariant.

(** * Further properties of the engine *)

(** ** The evaluator, category by category *)

Section Categories.

Import GameLogic.

Lemma omap_id_perm {A} (l l' : list (option A)) :
  Permutation l l' -> Permutation (omap id l) (omap id l').
Proof.
  induction 1 as [|x l l' _ IH|x y l|l l' l'' _ IH1 _ IH2].
  - constructor.
  - destruct x as [x|]; [now apply (perm_skip x) | exact IH].
  - destruct x as [x|], y as [y|]; try reflexivity.
    apply (perm_swap x y).
  - now transitivity (omap id l').
Qed.

Lemma omap_id_length_full (l : list (option Card)) :
  existsb (fun c : option Card => bool_decide (c = None)) l = false ->
  length (omap id l) = length l.
Proof.
  induction l as [|[x|] l IH]; intros H; [reflexivity | |discriminate].
  change (omap id (Some x :: l)) with (x :: omap id l). cbn [length].
  f_equal. apply IH, H.
Qed.

(** X1.  The evaluation of a hand does not depend on the order in which its
    cards are given: [evaluateHand] returns the same evaluation (category,
    value, label and same-suit flag) on any two orderings of the same
    slots. *)
Theorem evaluateHand_order_independent (slots slots' : list (option Card)) :
  Permutation slots slots' -> evaluateHand slots = evaluateHand slots'.
Proof.
  intros H. unfold evaluateHand.
  rewrite <- (Permutation_length H), <- (existsb_perm _ _ _ H).
  destruct (negb (length slots =? 3)%nat
            || existsb (fun c => bool_decide (c = None)) slots) eqn:E;
    [reflexivity|].
  apply orb_false_iff in E as [E1 E2].
  apply negb_false_iff, Nat.eqb_eq in E1.
  apply evaluateCards_perm; [|now apply omap_id_perm].
  rewrite omap_id_length_full; [exact E1 | exact E2].
Qed.

Lemma evaluateHand_order_independent_witness :
  evaluateHand [Some (standardCard RK hearts); Some (wildCard 1);
                Some (standardCard RJ hearts)]
  = evaluateHand [Some (wildCard 1); Some (standardCard RJ hearts);
                  Some (standardCard RK hearts)].
Proof.
  apply evaluateHand_order_independent.
  apply (bool_decide_unpack _). vm_compute. exact I.
Defined.

(** X2.  Three cards evaluate to [THREE_OF_KIND_PURE] exactly when none is
    a wildcard and the three ranks are equal; the tie-break value is then
    the comparison value of that rank. *)
Theorem evaluateHand_pure_iff (a b c : Card) :
  (type (evalCards [a; b; c]) = THREE_OF_KIND_PURE <->
   isWild a = false /\ isWild b = false /\ isWild c = false
   /\ rank a = rank b /\ rank b = rank c)
  /\ (type (evalCards [a; b; c]) = THREE_OF_KIND_PURE ->
      value (evalCards [a; b; c]) = getComparisonRankValue (rank a)).
Proof.
  rewrite evalCards_three by reflexivity.
  unfold evaluateCards, isThreeOfKind, nonWild, wildCount. simpl.
  destruct (isWild a), (isWild b), (isWild c); simpl;
    repeat case_bool_decide; simpl;
    repeat match goal with
      | |- context [if ?x then _ else _] => destruct x
      end; simpl;
    (split; [split; [intros; try discriminate; repeat split; congruence
                    | intros (? & ? & ? & ? & ?); try reflexivity; congruence]
            | intros; try discriminate; reflexivity]).
Qed.

Lemma isFaceCard_cases (r : CardRank) :
  isFaceCard r = true -> r = RankOf RJ \/ r = RankOf RQ \/ r = RankOf RK.
Proof. destruct r as [[]|]; simpl; intros; try discriminate; tauto. Qed.

(** X3.  A hand with two or three wildcards: three wildcards, or two with a
    jack, queen or king, make a J-Q-K straight flush (value 100); two
    wildcards with any other card make a three of a kind with wildcards whose
    value is the comparison value of that card's rank. *)
Theorem evaluateHand_two_wildcards (cs : list Card) :
  length cs = 3%nat -> (2 <= wildCount cs)%nat ->
  (nonWild cs = [] ->
   type (evalCards cs) = STRAIGHT_FLUSH_JQK /\ value (evalCards cs) = 100)
  /\ (forall c, nonWild cs = [c] ->
       if isFaceCard (rank c)
       then type (evalCards cs) = STRAIGHT_FLUSH_JQK /\ value (evalCards cs) = 100
       else type (evalCards cs) = THREE_OF_KIND_WILD
            /\ value (evalCards cs) = getComparisonRankValue (rank c)).
Proof.
  intros Hlen Hw. rewrite evalCards_three by exact Hlen.
  destruct cs as [|x [|y [|z [|? ?]]]]; try discriminate.
  unfold wildCount, nonWild in *. simpl in Hw |- *.
  destruct (isWild x) eqn:Ex, (isWild y) eqn:Ey, (isWild z) eqn:Ez;
    simpl in Hw; try lia; (split; [intros Hn; try discriminate|
                                   intros c Hc; try discriminate]).
  - unfold evaluateCards, isThreeOfKind, isJQKStraightFlush, isJQKStraight,
      nonWild, wildCount. simpl. rewrite Ex, Ey, Ez. simpl. auto.
  - injection Hc as <-.
    unfold evaluateCards, isThreeOfKind, isJQKStraightFlush, isJQKStraight,
      nonWild, wildCount. simpl. rewrite Ex, Ey, Ez. simpl.
    rewrite (bool_decide_eq_true_2 _ (eq_refl (suit z))).
    destruct (rank z) as [[]|]; vm_compute; auto.
  - injection Hc as <-.
    unfold evaluateCards, isThreeOfKind, isJQKStraightFlush, isJQKStraight,
      nonWild, wildCount. simpl. rewrite Ex, Ey, Ez. simpl.
    rewrite (bool_decide_eq_true_2 _ (eq_refl (suit y))).
    destruct (rank y) as [[]|]; vm_compute; auto.
  - injection Hc as <-.
    unfold evaluateCards, isThreeOfKind, isJQKStraightFlush, isJQKStraight,
      nonWild, wildCount. simpl. rewrite Ex, Ey, Ez. simpl.
    rewrite (bool_decide_eq_true_2 _ (eq_refl (suit x))).
    destruct (rank x) as [[]|]; vm_compute; auto.
Qed.

Lemma evaluateHand_two_wildcards_witness :
  (type (evalCards [wildCard 1; wildCard 2; wildCard 3]) = STRAIGHT_FLUSH_JQK
   /\ value (evalCards [wildCard 1; wildCard 2; wildCard 3]) = 100)
  /\ (type (evalCards [wildCard 1; standardCard R7 clubs; wildCard 3])
       = THREE_OF_KIND_WILD
      /\ value (evalCards [wildCard 1; standardCard R7 clubs; wildCard 3]) = 7).
Proof.
  split.
  - apply (proj1 (evaluateHand_two_wildcards
                    [wildCard 1; wildCard 2; wildCard 3] eq_refl
                    ltac:(vm_compute; lia))).
    reflexivity.
  - exact (proj2 (evaluateHand_two_wildcards
                    [wildCard 1; standardCard R7 clubs; wildCard 3] eq_refl
                    ltac:(vm_compute; lia))
                 (standardCard R7 clubs) eq_refl).
Defined.

(** X4.  A hand of three cards without wildcards falls to the sum-modulo
    category exactly when its ranks are not all equal and not all three cards
    are jacks, queens or kings; its value is then the sum of the scoring
    values of its ranks (ace 1, ten and faces 10) modulo 10, and its same-suit
    flag tells whether the three suits are equal. *)
Theorem evaluateHand_plain_sum_modulo (a b c : Card) :
  isWild a = false -> isWild b = false -> isWild c = false ->
  (type (evalCards [a; b; c]) = SUM_MODULO <->
   ~ (rank a = rank b /\ rank b = rank c)
   /\ ~ (isFaceCard (rank a) = true /\ isFaceCard (rank b) = true
         /\ isFaceCard (rank c) = true))
  /\ (type (evalCards [a; b; c]) = SUM_MODULO ->
      value (evalCards [a; b; c])
      = (getRankValue (rank a) + getRankValue (rank b) + getRankValue (rank c))
        mod 10
      /\ isSameSuit (evalCards [a; b; c])
         = Some (bool_decide (suit a = suit b /\ suit b = suit c))).
Proof.
  intros Ha Hb Hc. rewrite evalCards_three by reflexivity.
  assert (Hst : isJQKStraight [a; b; c] = true ->
                isFaceCard (rank a) = true /\ isFaceCard (rank b) = true
                /\ isFaceCard (rank c) = true).
  { unfold isJQKStraight, nonWild. cbn [List.filter]. rewrite Ha, Hb, Hc.
    cbn [negb forallb]. rewrite !andb_true_iff. tauto. }
  unfold evaluateCards, isJQKStraightFlush.
  remember (isJQKStraight [a; b; c]) as st eqn:Est. clear Est.
  unfold isThreeOfKind, isThreeFaceCards, isSameSuit_cards, getSumModulo,
    nonWild, wildCount.
  simpl. rewrite Ha, Hb, Hc. simpl.
  rewrite (bool_decide_eq_true_2 _ (eq_refl (suit a))).
  assert (Hsuit : true && (bool_decide (suit b = suit a)
                           && (bool_decide (suit c = suit a) && true))
                  = bool_decide (suit a = suit b /\ suit b = suit c)).
  { apply eq_true_iff_eq.
    rewrite !andb_true_iff, !bool_decide_eq_true. intuition congruence. }
  rewrite Hsuit.
  destruct (bool_decide_reflect (rank a = rank b)) as [Hab|Hab];
    [destruct (bool_decide_reflect (rank b = rank c)) as [Hbc|Hbc]|];
    cbn [andb negb isThreeOfKind_flag hasWild rankValue type value isSameSuit].
  { split; [split; [discriminate | tauto] | discriminate]. }
  all: destruct st; [destruct (Hst eq_refl) as (Fa & Fb & Fc)|];
    cbn [negb];
    destruct (isFaceCard (rank a)), (isFaceCard (rank b)), (isFaceCard (rank c));
    try discriminate;
    try destruct (bool_decide (suit a = suit b /\ suit b = suit c));
    cbn [andb type value isSameSuit];
    (split; [split; [intros Ht;
                     first [discriminate Ht
                           | split; [tauto | intros (? & ? & ?); congruence]]
                    | intros [_ Hf];
                      first [reflexivity | exfalso; apply Hf; auto]]
            | intros Ht;
              first [discriminate Ht | split; [f_equal; lia | reflexivity]]]).
Qed.

Lemma evaluateHand_plain_sum_modulo_witness :
  value (evalCards [standardCard RA hearts; standardCard RK hearts;
                    standardCard R8 hearts]) = 9
  /\ isSameSuit (evalCards [standardCard RA hearts; standardCard RK hearts;
                            standardCard R8 hearts]) = Some true.
Proof.
  apply (proj2 (evaluateHand_plain_sum_modulo
                  (standardCard RA hearts) (standardCard RK hearts)
                  (standardCard R8 hearts) eq_refl eq_refl eq_refl)).
  vm_compute. reflexivity.
Defined.

Lemma comparisonRank_nonwild (r : CardRank) :
  r <> WILD -> 2 <= getComparisonRankValue r <= 14.
Proof. destruct r as [[]|]; simpl; intros; try lia; congruence. Qed.

(** X5.  The tie-break value of a hand of three cards lies in the range of
    its category, provided no card that is not a wildcard carries the
    wildcard rank: 2 to 14 for the two three-of-a-kind categories, exactly
    100 for the two J-Q-K straights, 33 to 39 for three face cards and 0 to
    9 for sum modulo. *)
Theorem evaluateHand_value_ranges (a b c : Card) :
  (forall x, x ∈ [a; b; c] -> isWild x = false -> rank x <> WILD) ->
  match type (evalCards [a; b; c]) with
  | THREE_OF_KIND_PURE | THREE_OF_KIND_WILD =>
      2 <= value (evalCards [a; b; c]) <= 14
  | STRAIGHT_FLUSH_JQK | STRAIGHT_JQK => value (evalCards [a; b; c]) = 100
  | THREE_FACE_CARDS => 33 <= value (evalCards [a; b; c]) <= 39
  | SUM_MODULO => 0 <= value (evalCards [a; b; c]) <= 9
  end.
Proof.
  intros Hwf.
  assert (Ha : isWild a = false -> rank a <> WILD) by (apply Hwf; set_solver).
  assert (Hb : isWild b = false -> rank b <> WILD) by (apply Hwf; set_solver).
  assert (Hc : isWild c = false -> rank c <> WILD) by (apply Hwf; set_solver).
  clear Hwf. rewrite evalCards_three by reflexivity.
  unfold evaluateCards, isJQKStraightFlush.
  remember (isJQKStraight [a; b; c]) as st eqn:Est.
  unfold isThreeOfKind, isThreeFaceCards, getSumModulo, nonWild, wildCount.
  simpl.
  destruct (isWild a) eqn:Ea, (isWild b) eqn:Eb, (isWild c) eqn:Ec;
    try specialize (Ha eq_refl); try specialize (Hb eq_refl);
    try specialize (Hc eq_refl); simpl;
    try pose proof (comparisonRank_nonwild _ Ha) as Ra;
    try pose proof (comparisonRank_nonwild _ Hb) as Rb;
    try pose proof (comparisonRank_nonwild _ Hc) as Rc.
  - (* three wildcards *)
    subst st. unfold isJQKStraight, nonWild, wildCount. simpl.
    rewrite Ea, Eb, Ec. reflexivity.
  - destruct st; simpl; [destruct (bool_decide _); simpl; reflexivity | lia].
  - destruct st; simpl; [destruct (bool_decide _); simpl; reflexivity | lia].
  - generalize (bool_decide (suit b = suit b) && (bool_decide (suit c = suit b) && true)).
    intros flush.
    destruct (bool_decide_reflect (rank b = rank c)) as [Hr|Hr]; simpl.
    { destruct st; simpl; [destruct flush; reflexivity | lia]. }
    destruct st; simpl; [destruct flush; reflexivity|].
    destruct (isFaceCard (rank b)) eqn:Fb; simpl;
      [destruct (isFaceCard (rank c)) eqn:Fc; simpl|];
      try first [lia
                | match goal with |- context [?x mod 10] =>
                    pose proof (Z.mod_pos_bound x 10 ltac:(lia)) end; lia].
    exfalso. revert Est. unfold isJQKStraight, nonWild, wildCount. simpl.
    rewrite Ea, Eb, Ec. simpl. rewrite Fb, Fc.
    apply isFaceCard_cases in Fb, Fc.
    destruct Fb as [Fb | [Fb | Fb]], Fc as [Fc | [Fc | Fc]];
      rewrite Fb, Fc in *; try congruence; vm_compute; discriminate.
  - destruct st; simpl; [destruct (bool_decide _); simpl; reflexivity | lia].
  - generalize (bool_decide (suit a = suit a) && (bool_decide (suit c = suit a) && true)).
    intros flush.
    destruct (bool_decide_reflect (rank a = rank c)) as [Hr|Hr]; simpl.
    { destruct st; simpl; [destruct flush; reflexivity | lia]. }
    destruct st; simpl; [destruct flush; reflexivity|].
    destruct (isFaceCard (rank a)) eqn:Fa; simpl;
      [destruct (isFaceCard (rank c)) eqn:Fc; simpl|];
      try first [lia
                | match goal with |- context [?x mod 10] =>
                    pose proof (Z.mod_pos_bound x 10 ltac:(lia)) end; lia].
    exfalso. revert Est. unfold isJQKStraight, nonWild, wildCount. simpl.
    rewrite Ea, Eb, Ec. simpl. rewrite Fa, Fc.
    apply isFaceCard_cases in Fa, Fc.
    destruct Fa as [Fa | [Fa | Fa]], Fc as [Fc | [Fc | Fc]];
      rewrite Fa, Fc in *; try congruence; vm_compute; discriminate.
  - generalize (bool_decide (suit a = suit a) && (bool_decide (suit b = suit a) && true)).
    intros flush.
    destruct (bool_decide_reflect (rank a = rank b)) as [Hr|Hr]; simpl.
    { destruct st; simpl; [destruct flush; reflexivity | lia]. }
    destruct st; simpl; [destruct flush; reflexivity|].
    destruct (isFaceCard (rank a)) eqn:Fa; simpl;
      [destruct (isFaceCard (rank b)) eqn:Fb; simpl|];
      try first [lia
                | match goal with |- context [?x mod 10] =>
                    pose proof (Z.mod_pos_bound x 10 ltac:(lia)) end; lia].
    exfalso. revert Est. unfold isJQKStraight, nonWild, wildCount. simpl.
    rewrite Ea, Eb, Ec. simpl. rewrite Fa, Fb.
    apply isFaceCard_cases in Fa, Fb.
    destruct Fa as [Fa | [Fa | Fa]], Fb as [Fb | [Fb | Fb]];
      rewrite Fa, Fb in *; try congruence; vm_compute; discriminate.
  - (* no wildcard *)
    generalize (bool_decide (suit a = suit a)
                && (bool_decide (suit b = suit a)
                    && (bool_decide (suit c = suit a) && true))).
    intros flush.
    destruct (bool_decide (rank a = rank b) && bool_decide (rank b = rank c));
      simpl; [lia|].
    destruct st; simpl; [destruct flush; reflexivity|].
    destruct (isFaceCard (rank a)) eqn:Fa; simpl;
      [destruct (isFaceCard (rank b)) eqn:Fb; simpl;
       [destruct (isFaceCard (rank c)) eqn:Fc; simpl|]|];
      try first [lia
                | match goal with |- context [?x mod 10] =>
                    pose proof (Z.mod_pos_bound x 10 ltac:(lia)) end; lia].
    apply isFaceCard_cases in Fa, Fb, Fc.
    destruct Fa as [-> | [-> | ->]], Fb as [-> | [-> | ->]],
      Fc as [-> | [-> | ->]]; simpl; lia.
Qed.

Lemma evaluateHand_value_ranges_witness :
  33 <= value (evalCards [standardCard RJ hearts; standardCard RJ clubs;
                          standardCard RK spades]) <= 39.
Proof.
  apply (evaluateHand_value_ranges
           (standardCard RJ hearts) (standardCard RJ clubs)
           (standardCard RK spades)).
  intros x Hx _. apply list_elem_of_In in Hx. simpl in Hx.
  destruct Hx as [<- | [<- | [<- | []]]]; discriminate.
Defined.

End Categories.

(** ** The order on evaluations *)

Section HandOrder.

Import GameLogic.

Lemma compareHands_swap (h1 h2 : HandEvaluation) :
  compareHands h2 h1 = - compareHands h1 h2.
Proof.
  unfold compareHands.
  destruct (type h1), (type h2); simpl;
    repeat match goal with
      | |- context [?x >? ?y] => destruct (Z.gtb_spec x y)
      | |- context [?x <? ?y] => destruct (Z.ltb_spec x y)
      end; lia.
Qed.

(** X6.  [compareHands] returns -1, 0 or 1 and is antisymmetric: exchanging
    the two hands negates the result, so each comparison has one winner or
    is a tie for both sides. *)
Theorem compareHands_antisymmetric (h1 h2 : HandEvaluation) :
  compareHands h2 h1 = - compareHands h1 h2
  /\ (compareHands h1 h2 = -1 \/ compareHands h1 h2 = 0
      \/ compareHands h1 h2 = 1).
Proof.
  unfold compareHands.
  destruct (type h1), (type h2); simpl;
    repeat match goal with
      | |- context [?x >? ?y] => destruct (Z.gtb_spec x y)
      | |- context [?x <? ?y] => destruct (Z.ltb_spec x y)
      end; split; try lia; tauto.
Qed.

(** X7.  [compareHands] orders the evaluations: if the first hand wins or
    ties against the second and the second wins or ties against the third,
    the first wins or ties against the third, and it wins when one of the two
    steps is a win. *)
Theorem compareHands_transitive (h1 h2 h3 : HandEvaluation) :
  compareHands h1 h2 >= 0 -> compareHands h2 h3 >= 0 ->
  compareHands h1 h3 >= 0
  /\ (compareHands h1 h2 > 0 \/ compareHands h2 h3 > 0 -> compareHands h1 h3 > 0).
Proof.
  unfold compareHands.
  destruct (type h1), (type h2), (type h3); simpl;
    repeat match goal with
      | |- context [?x >? ?y] => destruct (Z.gtb_spec x y)
      | |- context [?x <? ?y] => destruct (Z.ltb_spec x y)
      end; intros; split; try lia; intros [?|?]; lia.
Qed.

Lemma compareHands_transitive_witness :
  compareHands (evalCards [standardCard R9 spades; standardCard R9 hearts;
                           standardCard R9 clubs])
               (evalCards [standardCard R2 spades; standardCard R3 hearts;
                           standardCard R4 clubs]) > 0.
Proof.
  apply (compareHands_transitive
           (evalCards [standardCard R9 spades; standardCard R9 hearts;
                       standardCard R9 clubs])
           (evalCards [standardCard RJ spades; standardCard RQ spades;
                       wildCard 1])
           (evalCards [standardCard R2 spades; standardCard R3 hearts;
                       standardCard R4 clubs])).
  - vm_compute. discriminate.
  - vm_compute. discriminate.
  - left. vm_compute. reflexivity.
Defined.

End HandOrder.

(** ** Fouls and the two sides of a matchup *)

Section MatchupMore.

Import GameLogic.

(** X8.  A player who fouls (no arrangement, or an invalid one) against a
    player who does not foul loses the matchup 0 to 10, whether or not the
    opponent has a special hand; when both foul nobody scores.  In both cases
    no layer is compared, and the result carries the two foul flags. *)
Theorem compareArrangements_foul (p1 p2 : Player) :
  isFoul p1 = true ->
  player1Foul (compareArrangements p1 p2) = true
  /\ player2Foul (compareArrangements p1 p2) = isFoul p2
  /\ player1TotalPoints (compareArrangements p1 p2) = 0
  /\ player2TotalPoints (compareArrangements p1 p2)
     = (if isFoul p2 then 0 else 10)
  /\ layerComparisons (compareArrangements p1 p2) = [].
Proof.
  intros H1. unfold compareArrangements.
  cbn [player1Foul player2Foul player1TotalPoints player2TotalPoints].
  rewrite H1. cbn [negb andb].
  destruct (isFoul p2), (hasSpecialHand p2); cbn; repeat split; reflexivity.
Qed.

Lemma compareArrangements_foul_witness :
  player1TotalPoints (compareArrangements (playerWith None) playerB) = 0
  /\ player2TotalPoints (compareArrangements (playerWith None) playerB) = 10.
Proof.
  destruct (compareArrangements_foul (playerWith None) playerB eq_refl)
    as (_ & _ & H1 & H2 & _).
  split; [exact H1 | exact H2].
Defined.

Lemma layerAward_swap (a1 a2 : PlayerArrangement) (l : LayerName) :
  layerAward a2 a1 l = (snd (layerAward a1 a2 l), fst (layerAward a1 a2 l)).
Proof.
  unfold layerAward.
  rewrite (compareHands_swap (evalCards (placed (layerOf a1 l)))
                             (evalCards (placed (layerOf a2 l)))).
  set (r := compareHands _ _).
  destruct (Z.gtb_spec r 0), (Z.ltb_spec r 0),
    (Z.gtb_spec (- r) 0), (Z.ltb_spec (- r) 0); try lia; reflexivity.
Qed.

Lemma compareArrangements_points_swap (p1 p2 : Player) :
  player1TotalPoints (compareArrangements p2 p1)
  = player2TotalPoints (compareArrangements p1 p2)
  /\ player2TotalPoints (compareArrangements p2 p1)
     = player1TotalPoints (compareArrangements p1 p2).
Proof.
  unfold compareArrangements.
  cbn [player1Foul player2Foul player1TotalPoints player2TotalPoints].
  unfold isFoul.
  destruct (arrangement p1) as [a1|], (arrangement p2) as [a2|];
    try destruct (validateArrangement a1); try destruct (validateArrangement a2);
    destruct (hasSpecialHand p1), (hasSpecialHand p2);
    cbn [negb andb setPoints player1TotalPoints player2TotalPoints];
    try (split; reflexivity).
  cbn [fold_left].
  rewrite !compareLayer_p1, !compareLayer_p2.
  rewrite (layerAward_swap a1 a2 Ltop), (layerAward_swap a1 a2 Lmiddle),
    (layerAward_swap a1 a2 Lbottom).
  cbn [fst snd player1TotalPoints player2TotalPoints]. split; lia.
Qed.

Lemma netPoints_swap (p1 p2 : Player) :
  netPoints (compareArrangements p2 p1) = - netPoints (compareArrangements p1 p2).
Proof.
  unfold netPoints.
  destruct (compareArrangements_points_swap p1 p2) as [-> ->]. lia.
Qed.

(** X9.  A matchup does not depend on which player is named first:
    exchanging the two players exchanges their points and their foul flags,
    so the net of the matchup changes sign. *)
Theorem compareArrangements_swap (p1 p2 : Player) :
  player1TotalPoints (compareArrangements p2 p1)
  = player2TotalPoints (compareArrangements p1 p2)
  /\ player2TotalPoints (compareArrangements p2 p1)
     = player1TotalPoints (compareArrangements p1 p2)
  /\ player1Foul (compareArrangements p2 p1)
     = player2Foul (compareArrangements p1 p2)
  /\ netPoints (compareArrangements p2 p1)
     = - netPoints (compareArrangements p1 p2).
Proof.
  destruct (compareArrangements_points_swap p1 p2) as [H1 H2].
  repeat split; try assumption.
  - unfold compareArrangements.
    repeat match goal with
      | |- context [if ?b then _ else _] => destruct b
      end; try reflexivity;
      destruct (arrangement p1), (arrangement p2); reflexivity.
  - apply netPoints_swap.
Qed.

End MatchupMore.

(** ** Four of a kind, and complete arrangements *)

Section WholeHand.

Import GameLogic.

(** The number of cards of [l] that are not wildcards and whose rank is
    written [k]. *)
Definition countKey (k : string) (l : list Card) : Z :=
  Z.of_nat (length (List.filter
                      (fun c => negb (isWild c) && bool_decide (rankText (rank c) = k))
                      l)).

Lemma countKey_cons k c l :
  countKey k (c :: l)
  = (if negb (isWild c) && bool_decide (rankText (rank c) = k) then 1 else 0)
    + countKey k l.
Proof.
  unfold countKey. cbn [List.filter].
  destruct (negb (isWild c) && bool_decide (rankText (rank c) = k));
    cbn [length]; lia.
Qed.

Lemma countKey_nonneg k l : 0 <= countKey k l.
Proof. unfold countKey. lia. Qed.

(** What the counting loop leaves under a key. *)
Lemma countRanks_fold (k : string) (l : list Card) :
  forall m : gmap string Z,
    fold_left
      (fun (rankCounts : gmap string Z) c =>
         if negb (isWild c)
         then <[rankText (rank c) := default 0 (rankCounts !! rankText (rank c)) + 1]>
                rankCounts
         else rankCounts) l m !! k
    = match m !! k with
      | Some v => Some (v + countKey k l)
      | None => if countKey k l =? 0 then None else Some (countKey k l)
      end.
Proof.
  induction l as [|c l IH]; intros m.
  - cbn. destruct (m !! k); [apply f_equal; unfold countKey; simpl; lia | reflexivity].
  - cbn [fold_left]. rewrite IH, countKey_cons.
    pose proof (countKey_nonneg k l).
    destruct (isWild c); cbn [negb andb].
    { destruct (m !! k); [apply f_equal; lia|]. reflexivity. }
    destruct (bool_decide_reflect (rankText (rank c) = k)) as [->|Hk];
      cbv beta iota.
    + rewrite lookup_insert_eq.
      match goal with
      | |- context [default 0 ?x] => destruct x as [v|]
      end; cbn [default from_option id].
      * apply f_equal; lia.
      * destruct (Z.eqb_spec (1 + countKey k l) 0); [lia|].
        apply f_equal; lia.
    + rewrite lookup_insert_ne by exact Hk.
      destruct (m !! k); [apply f_equal; lia | reflexivity].
Qed.

Lemma countRanks_lookup (k : string) (l : list Card) :
  countRanks l !! k = if countKey k l =? 0 then None else Some (countKey k l).
Proof. unfold countRanks. rewrite countRanks_fold, lookup_empty. reflexivity. Qed.

Lemma someCountAtLeast4_iff (m : gmap string Z) :
  someCountAtLeast4 m = true <-> exists k v, m !! k = Some v /\ 4 <= v.
Proof.
  unfold someCountAtLeast4. rewrite existsb_exists. split.
  - intros ([k v] & Hin & Hv). exists k, v. split.
    + now apply elem_of_map_to_list, list_elem_of_In.
    + cbn in Hv. apply Z.geb_le in Hv. exact Hv.
  - intros (k & v & Hk & Hv). exists (k, v). split.
    + now apply list_elem_of_In, elem_of_map_to_list.
    + cbn. now apply Z.geb_le.
Qed.

Lemma rankText_inj (r r' : CardRank) : rankText r = rankText r' -> r = r'.
Proof. destruct r as [[]|], r' as [[]|]; simpl; intros H; congruence. Qed.

(** The number of cards of [l] that are not wildcards and have rank [r]. *)
Definition countRank (r : CardRank) (l : list Card) : nat :=
  length (List.filter (fun c => negb (isWild c) && bool_decide (rank c = r)) l).

Lemma countKey_rankText r l : countKey (rankText r) l = Z.of_nat (countRank r l).
Proof.
  unfold countKey, countRank. do 2 f_equal.
  apply filter_ext. intros c. f_equal. apply bool_decide_ext.
  split; [apply rankText_inj | congruence].
Qed.

Lemma countKey_positive k l :
  0 < countKey k l -> exists r, k = rankText r.
Proof.
  unfold countKey. intros H.
  destruct (List.filter _ l) as [|c l'] eqn:E; [simpl in H; lia|].
  assert (Hin : In c (List.filter
            (fun c => negb (isWild c) && bool_decide (rankText (rank c) = k)) l))
    by (rewrite E; now left).
  apply filter_In in Hin as [_ Hc]. apply andb_true_iff in Hc as [_ Hc].
  apply bool_decide_eq_true in Hc. exists (rank c). now symmetry.
Qed.

Lemma fourOfAKind_cards (l : list Card) :
  someCountAtLeast4 (countRanks l) = true <-> exists r, (4 <= countRank r l)%nat.
Proof.
  rewrite someCountAtLeast4_iff. split.
  - intros (k & v & Hk & Hv). rewrite countRanks_lookup in Hk.
    destruct (Z.eqb_spec (countKey k l) 0); [discriminate|].
    injection Hk as <-.
    destruct (countKey_positive k l ltac:(lia)) as [r ->].
    exists r. rewrite countKey_rankText in Hv. lia.
  - intros (r & Hr). exists (rankText r), (countKey (rankText r) l).
    rewrite countRanks_lookup, countKey_rankText.
    destruct (Z.eqb_spec (Z.of_nat (countRank r l)) 0); [lia|].
    split; [reflexivity | lia].
Qed.

(** X10.  [checkFourOfAKind] holds exactly when the player has an
    arrangement among whose placed cards some rank occurs at least four
    times, wildcards not counted; how the cards are spread over the layers
    plays no part. *)
Theorem checkFourOfAKind_iff (p : Player) :
  checkFourOfAKind p = true <->
  exists a r, arrangement p = Some a
    /\ (4 <= countRank r (placed (top a) ++ placed (middle a) ++ placed (bottom a)))%nat.
Proof.
  unfold checkFourOfAKind. destruct (arrangement p) as [a|].
  2:{ split; [discriminate | intros (a & r & H & _); discriminate]. }
  unfold getCardsFromArrangement. rewrite allCards_placed, fourOfAKind_cards.
  split.
  - intros (r & Hr). exists a, r. auto.
  - intros (a' & r & [= <-] & Hr). exists r. exact Hr.
Qed.

Lemma checkFourOfAKind_iff_witness :
  checkFourOfAKind (playerWith (Some fourSevens)) = true.
Proof.
  apply (proj2 (checkFourOfAKind_iff (playerWith (Some fourSevens)))).
  exists fourSevens, (RankOf R7). split; [reflexivity|]. vm_compute. lia.
Defined.

Lemma omap_id_full (l : list (option Card)) :
  length (omap id l) = length l <->
  forallb (fun c : option Card => negb (bool_decide (c = None))) l = true.
Proof.
  induction l as [|[c|] l IH].
  - cbn. tauto.
  - change (omap id (Some c :: l)) with (c :: omap id l). cbn [length forallb].
    rewrite <- IH. cbn. split; lia.
  - change (omap id (None :: l)) with (omap id l). cbn [length forallb].
    pose proof (placed_length_le (mkLayer l)) as H. unfold placed in H. cbn in H.
    cbn. split; [lia | discriminate].
Qed.

(** X11.  A valid arrangement has nine placed cards.  With layers of three
    slots, [isArrangementComplete] holds exactly when nine cards are placed;
    so a valid arrangement is complete, and an arrangement that is not
    complete is never valid. *)
Theorem validateArrangement_complete (a : PlayerArrangement) :
  (validateArrangement a = true -> length (getCardsFromArrangement a) = 9%nat)
  /\ (length (cards (top a)) = 3%nat -> length (cards (middle a)) = 3%nat ->
      length (cards (bottom a)) = 3%nat ->
      (isArrangementComplete a = true <->
       length (getCardsFromArrangement a) = 9%nat)
      /\ (validateArrangement a = true -> isArrangementComplete a = true)).
Proof.
  assert (Hv : validateArrangement a = true ->
               length (getCardsFromArrangement a) = 9%nat).
  { intros H. apply validateArrangement_lengths in H as (H1 & H2 & H3).
    unfold getCardsFromArrangement. rewrite allCards_placed, !length_app. lia. }
  split; [exact Hv|]. intros S1 S2 S3.
  assert (Hc : isArrangementComplete a = true <->
               length (getCardsFromArrangement a) = 9%nat).
  { unfold isArrangementComplete, getCardsFromArrangement.
    rewrite <- omap_id_full, !length_app, S1, S2, S3. reflexivity. }
  split; [exact Hc|]. intros H. apply Hc, Hv, H.
Qed.

Lemma validateArrangement_complete_witness :
  isArrangementComplete allNines = true.
Proof.
  apply (proj2 (validateArrangement_complete allNines)); reflexivity.
Defined.

End WholeHand.

(** ** A player's total *)

Section Totals.

Import GameLogic.

(** The net of the matchup between the active players at positions [k] and
    [j], seen from the side of [k]. *)
Definition netAgainst (active : list Player) (k j : nat) : Z :=
  match active !! k, active !! j with
  | Some pk, Some pj => netPoints (compareArrangements pk pj)
  | _, _ => 0
  end.

Definition sumZ (l : list Z) : Z := fold_right Z.add 0 l.

Definition totalAt (scores : list RoundScore) (k : nat) : Z :=
  default 0 (totalPoints <$> scores !! k).

(** What the pass for the pair [(i, j)] adds to the total at [k]. *)
Definition contribution (active : list Player) (k : nat) (ij : nat * nat) : Z :=
  (if (k =? fst ij)%nat then netAgainst active (fst ij) (snd ij) else 0)
  + (if (k =? snd ij)%nat then - netAgainst active (fst ij) (snd ij) else 0).

Lemma netAgainst_swap active k j : netAgainst active j k = - netAgainst active k j.
Proof.
  unfold netAgainst. destruct (active !! k), (active !! j); try reflexivity.
  apply netPoints_swap.
Qed.

Lemma totalAt_alter_set key v i scores k :
  totalAt (alter (setPointsAgainst key v) i scores) k = totalAt scores k.
Proof.
  unfold totalAt. destruct (decide (k = i)) as [->|Hne].
  - rewrite list_lookup_alter_eq. destruct (scores !! i) as [s|]; [|reflexivity].
    change (totalPoints (setPointsAgainst key v s) = totalPoints s).
    apply setPointsAgainst_fields.
  - now rewrite list_lookup_alter_ne by congruence.
Qed.

Lemma totalAt_alter_add d i scores k :
  (i < length scores)%nat ->
  totalAt (alter (addTotalPoints d) i scores) k
  = totalAt scores k + (if (k =? i)%nat then d else 0).
Proof.
  intros Hi. unfold totalAt. destruct (Nat.eqb_spec k i) as [->|Hne].
  - rewrite list_lookup_alter_eq.
    destruct (lookup_lt_is_Some_2 scores i Hi) as [s ->]. reflexivity.
  - rewrite list_lookup_alter_ne by congruence. lia.
Qed.

Section WithPlayers.

Variable active : list Player.
Hypothesis ids_NoDup : NoDup (map player_id active).

Lemma scoreIndexPair_total scores i j k :
  map playerId scores = map player_id active ->
  (i < length active)%nat -> (j < length active)%nat ->
  totalAt (scoreIndexPair active scores (i, j)) k
  = totalAt scores k + contribution active k (i, j).
Proof.
  intros Hids Hi Hj.
  destruct (lookup_lt_is_Some_2 active i Hi) as [pi Epi].
  destruct (lookup_lt_is_Some_2 active j Hj) as [pj Epj].
  assert (Hlen : length scores = length active).
  { now rewrite <- (length_map playerId), Hids, length_map. }
  unfold scoreIndexPair, contribution, netAgainst. cbn [fst snd].
  rewrite Epi, Epj. unfold scorePair.
  destruct (compareArrangements_ids pi pj) as [-> ->].
  rewrite (findScore_NoDup active ids_NoDup scores i pi Hids Epi),
    (findScore_NoDup active ids_NoDup scores j pj Hids Epj).
  rewrite !totalAt_alter_add, !totalAt_alter_set by (rewrite ?length_alter; lia).
  lia.
Qed.

Lemma fold_scoreIndexPair_total ps :
  forall scores k,
    map playerId scores = map player_id active ->
    (forall i j, (i, j) ∈ ps -> (i < j /\ j < length active)%nat) ->
    totalAt (fold_left (scoreIndexPair active) ps scores) k
    = totalAt scores k + sumZ (map (contribution active k) ps).
Proof.
  induction ps as [|[i j] ps IH]; intros scores k Hids Hps.
  { cbn. lia. }
  cbn [fold_left map sumZ fold_right].
  assert (Hij : (i < j /\ j < length active)%nat) by (apply Hps; left).
  rewrite IH.
  - rewrite scoreIndexPair_total by (auto; lia). unfold sumZ. lia.
  - now rewrite scoreIndexPair_ids.
  - intros a b Hab. apply Hps. now right.
Qed.

End WithPlayers.

Lemma sumZ_app l l' : sumZ (l ++ l') = sumZ l + sumZ l'.
Proof. unfold sumZ. induction l as [|x l IH]; cbn; lia. Qed.

Lemma sumZ_flat_map {A B} (f : B -> Z) (g : A -> list B) (l : list A) :
  sumZ (map f (flat_map g l)) = sumZ (map (fun x => sumZ (map f (g x))) l).
Proof.
  induction l as [|x l IH]; [reflexivity|].
  cbn [flat_map map]. rewrite map_app, sumZ_app, IH. reflexivity.
Qed.

Lemma sumZ_zero {A} (f : A -> Z) (l : list A) :
  (forall x, In x l -> f x = 0) -> sumZ (map f l) = 0.
Proof.
  induction l as [|x l IH]; intros H; [reflexivity|].
  cbn [map sumZ fold_right]. fold (sumZ (map f l)).
  rewrite IH, (H x); [reflexivity | now left | intros y Hy; apply H; now right].
Qed.

Lemma sumZ_ext {A} (f g : A -> Z) (l : list A) :
  (forall x, In x l -> f x = g x) -> sumZ (map f l) = sumZ (map g l).
Proof. intros H. f_equal. now apply map_ext_in. Qed.

Lemma sumZ_single (c : nat -> Z) (k a m : nat) :
  sumZ (map (fun j => if (k =? j)%nat then c j else 0) (seq a m))
  = if (a <=? k)%nat && (k <? a + m)%nat then c k else 0.
Proof.
  revert a. induction m as [|m IH]; intros a.
  { cbn [seq map sumZ fold_right].
    destruct (Nat.leb_spec a k), (Nat.ltb_spec k (a + 0)); cbn [andb];
      try reflexivity; lia. }
  cbn [seq map sumZ fold_right].
  fold (sumZ (map (fun j => if (k =? j)%nat then c j else 0) (seq (S a) m))).
  rewrite IH.
  destruct (Nat.eqb_spec k a) as [->|Hne].
  - rewrite Nat.leb_refl.
    destruct (Nat.leb_spec (S a) a); [lia|].
    destruct (Nat.ltb_spec a (a + S m)); [|lia]. cbn. lia.
  - destruct (Nat.leb_spec (S a) k), (Nat.leb_spec a k),
      (Nat.ltb_spec k (S a + m)), (Nat.ltb_spec k (a + S m)); cbn; lia.
Qed.

(** The contributions of all pairs to the total at [k], collected by
    opponent. *)
Lemma contribution_sum active (k n : nat) :
  (k < n)%nat ->
  sumZ (map (contribution active k) (indexPairs n))
  = sumZ (map (netAgainst active k)
              (List.filter (fun j => negb (j =? k)%nat) (seq 0 n))).
Proof.
  intros Hk. unfold indexPairs. rewrite sumZ_flat_map.
  assert (Hinner : forall i, In i (seq 0 n) ->
            sumZ (map (contribution active k) (map (pair i) (seq (i + 1) (n - (i + 1)))))
            = if (i <? k)%nat then netAgainst active k i
              else if (i =? k)%nat
                   then sumZ (map (netAgainst active k) (seq (k + 1) (n - (k + 1))))
                   else 0).
  { intros i Hi. apply in_seq in Hi. rewrite map_map.
    destruct (Nat.ltb_spec i k) as [Hlt|Hge].
    - rewrite (sumZ_ext _ (fun j => if (k =? j)%nat then - netAgainst active i j else 0)).
      2:{ intros j Hj. apply in_seq in Hj. unfold contribution. cbn [fst snd].
          destruct (Nat.eqb_spec k i); [lia|]. lia. }
      rewrite sumZ_single.
      destruct (Nat.leb_spec (i + 1) k); [|lia].
      destruct (Nat.ltb_spec k (i + 1 + (n - (i + 1)))); [|lia].
      cbn [andb]. rewrite (netAgainst_swap active i k). lia.
    - destruct (Nat.eqb_spec i k) as [->|Hne].
      + apply sumZ_ext. intros j Hj. apply in_seq in Hj.
        unfold contribution. cbn [fst snd]. rewrite Nat.eqb_refl.
        destruct (Nat.eqb_spec k j); lia.
      + apply sumZ_zero. intros j Hj. apply in_seq in Hj.
        unfold contribution. cbn [fst snd].
        destruct (Nat.eqb_spec k i), (Nat.eqb_spec k j); lia. }
  rewrite (sumZ_ext _ _ _ Hinner).
  replace n with (k + (1 + (n - (k + 1))))%nat at 1 2 by lia.
  rewrite !seq_app, !List.filter_app, !map_app, !sumZ_app. cbn [seq map List.filter].
  rewrite !Nat.add_0_l, Nat.eqb_refl, Nat.ltb_irrefl. cbn [negb map].
  assert (F1 : List.filter (fun j => negb (j =? k)%nat) (seq 0 k) = seq 0 k).
  { apply forallb_filter_id, forallb_forall. intros j Hj. apply in_seq in Hj.
    destruct (Nat.eqb_spec j k); [lia | reflexivity]. }
  assert (F2 : List.filter (fun j => negb (j =? k)%nat) (seq (k + 1) (n - (k + 1)))
               = seq (k + 1) (n - (k + 1))).
  { apply forallb_filter_id, forallb_forall. intros j Hj. apply in_seq in Hj.
    destruct (Nat.eqb_spec j k); [lia | reflexivity]. }
  rewrite F1, F2.
  set (X := sumZ (map (netAgainst active k) (seq (k + 1) (n - (k + 1))))).
  set (f := fun i : nat =>
              if (i <? k)%nat then netAgainst active k i
              else if (i =? k)%nat then X else 0).
  assert (A1 : sumZ (map f (seq 0 k)) = sumZ (map (netAgainst active k) (seq 0 k))).
  { apply sumZ_ext. intros i Hi. apply in_seq in Hi. unfold f.
    destruct (Nat.ltb_spec i k); [reflexivity | lia]. }
  assert (A2 : sumZ (map f (seq (k + 1) (n - (k + 1)))) = 0).
  { apply sumZ_zero. intros i Hi. apply in_seq in Hi. unfold f.
    destruct (Nat.ltb_spec i k); [lia|].
    destruct (Nat.eqb_spec i k); [lia | reflexivity]. }
  rewrite A1, A2. change (sumZ []) with 0. change (sumZ [X]) with (X + 0). lia.
Qed.

Lemma totalPoints_at (players : list Player) :
  let active := List.filter (fun p => negb (isBankrupt p)) players in
  NoDup (map player_id active) ->
  forall k s,
    calculateRoundScores players !! k = Some s ->
    totalPoints s
    = sumZ (map (netAgainst active k)
                (List.filter (fun j => negb (j =? k)%nat) (seq 0 (length active))))
    /\ cashChange s = totalPoints s.
Proof.
  intros active Hnd k s Hs.
  rewrite calculateRoundScores_pairs in Hs. cbv zeta in Hs. fold active in Hs.
  change (map setCashChange ?l) with (setCashChange <$> l) in Hs.
  rewrite list_lookup_fmap in Hs.
  destruct (fold_left (scoreIndexPair active) (indexPairs (length active))
              (initialScores active) !! k) as [s0|] eqn:E; [|discriminate].
  injection Hs as <-. split; [|reflexivity]. cbn [setCashChange totalPoints].
  assert (Hk : (k < length active)%nat).
  { apply lookup_lt_Some in E.
    rewrite <- (length_map playerId), fold_scoreIndexPair_ids, initialScores_ids,
      length_map in E. exact E. }
  pose proof (fold_scoreIndexPair_total active Hnd (indexPairs (length active))
                (initialScores active) k (initialScores_ids active)) as Hfold.
  unfold totalAt at 1 in Hfold. rewrite E in Hfold. cbn in Hfold.
  rewrite Hfold.
  2:{ intros i j Hij. now apply elem_of_indexPairs. }
  rewrite contribution_sum by exact Hk.
  assert (H0 : totalAt (initialScores active) k = 0).
  { unfold totalAt, initialScores.
    change (map ?f active) with (f <$> active).
    rewrite list_lookup_fmap. destruct (active !! k); reflexivity. }
  rewrite H0. lia.
Qed.

(** X12.  With players told apart by their ids, the [totalPoints] (and so
    the [cashChange]) of each entry of [calculateRoundScores] is the sum,
    over the other active players, of the net points of the matchup with
    that player, seen from the side of the entry's player. *)
Theorem calculateRoundScores_totals (players : list Player) :
  let active := List.filter (fun p => negb (isBankrupt p)) players in
  NoDup (map player_id active) ->
  forall k s,
    calculateRoundScores players !! k = Some s ->
    totalPoints s
    = sumZ (map (netAgainst active k)
                (List.filter (fun j => negb (j =? k)%nat) (seq 0 (length active))))
    /\ cashChange s = totalPoints s.
Proof. apply totalPoints_at. Qed.

Lemma calculateRoundScores_totals_witness :
  exists s,
    calculateRoundScores [playerA; playerB; playerC] !! 0%nat = Some s
    /\ totalPoints s
       = sumZ (map (netAgainst [playerA; playerB; playerC] 0) [1; 2]%nat).
Proof.
  destruct (calculateRoundScores [playerA; playerB; playerC] !! 0%nat)
    as [s|] eqn:E.
  - exists s. split; [reflexivity|].
    apply (calculateRoundScores_totals [playerA; playerB; playerC]
             ltac:(apply (bool_decide_unpack _); vm_compute; exact I) 0%nat s E).
  - vm_compute in E. discriminate.
Defined.

End Totals.

(** ** Settling a round *)

Section Settlement.

Import GameLogic.

(** The cash of all players together. *)
Definition sumCash (players : list Player) : Z :=
  fold_right Z.add 0 (map cash players).

Definition sumCashChange (scores : list RoundScore) : Z :=
  fold_right Z.add 0 (map cashChange scores).

Lemma applyRoundScores_cons_skip s scores players :
  (forall p, p ∈ players -> player_id p <> playerId s) ->
  applyRoundScores players (s :: scores) = applyRoundScores players scores.
Proof.
  intros H. unfold applyRoundScores. apply map_ext_in. intros p Hp.
  apply list_elem_of_In, H in Hp. cbn [list_find].
  rewrite decide_False by congruence.
  destruct (list_find _ scores) as [[k x]|]; reflexivity.
Qed.

Lemma list_find_absent (pid : string) (scores : list RoundScore) :
  pid ∉ map playerId scores ->
  list_find (fun s => playerId s = pid) scores = None.
Proof.
  intros H. apply list_find_None, Forall_forall. intros s Hs E. apply H.
  rewrite <- E. apply list_elem_of_In, in_map, list_elem_of_In, Hs.
Qed.

Lemma active_ids_subset (players : list Player) pid :
  pid ∈ map player_id (List.filter (fun p => negb (isBankrupt p)) players) ->
  pid ∈ map player_id players.
Proof.
  intros H. apply list_elem_of_In, in_map_iff in H as (q & <- & Hq).
  apply filter_In in Hq as [Hq _]. apply list_elem_of_In, in_map, Hq.
Qed.

Lemma applyRoundScores_sum (players : list Player) :
  forall scores,
    NoDup (map player_id players) ->
    map playerId scores
    = map player_id (List.filter (fun p => negb (isBankrupt p)) players) ->
    sumCash (applyRoundScores players scores)
    = sumCash players + sumCashChange scores.
Proof.
  induction players as [|p players IH]; intros scores Hnd Hids.
  { destruct scores; [reflexivity | discriminate]. }
  cbn [map] in Hnd. apply NoDup_cons in Hnd as [Hp Hnd].
  cbn [List.filter] in Hids. destruct (isBankrupt p) eqn:Eb; cbn [negb] in Hids.
  - unfold applyRoundScores, sumCash in *. cbn [map fold_right].
    rewrite list_find_absent.
    2:{ rewrite Hids. intros H. apply Hp, active_ids_subset, H. }
    rewrite (IH scores Hnd Hids). lia.
  - destruct scores as [|s scores]; [discriminate|].
    cbn [map] in Hids. injection Hids as Hs Hids.
    change (applyRoundScores (p :: players) (s :: scores))
      with ((let player := p in
             match list_find (fun s0 => playerId s0 = player_id player) (s :: scores) with
             | None => player
             | Some (_, score) =>
                 let newCash := cash player + cashChange score in
                 mkPlayer (player_id player) (name player) (isHuman player) newCash
                   (hand player) (arrangement player) (isReady player) (newCash <=? 0)
             end) :: applyRoundScores players (s :: scores)).
    rewrite applyRoundScores_cons_skip.
    2:{ intros q Hq E. apply Hp. rewrite <- Hs, <- E.
        apply list_elem_of_In, in_map, list_elem_of_In, Hq. }
    cbn [list_find]. rewrite decide_True by exact Hs.
    unfold sumCash, sumCashChange in *. cbn [map fold_right cash].
    rewrite (IH scores Hnd Hids). lia.
Qed.

Lemma applyRoundScores_ids players scores :
  map player_id (applyRoundScores players scores) = map player_id players.
Proof.
  unfold applyRoundScores. rewrite map_map. apply map_ext. intros p.
  destruct (list_find _ scores) as [[k s]|]; reflexivity.
Qed.

Lemma player_id_unique (players : list Player) p q :
  NoDup (map player_id players) -> p ∈ players -> q ∈ players ->
  player_id p = player_id q -> p = q.
Proof.
  intros Hnd Hp Hq E.
  apply list_elem_of_lookup in Hp as [i Hi]. apply list_elem_of_lookup in Hq as [j Hj].
  assert (i = j) by (eapply (player_id_inj players); eauto).
  congruence.
Qed.

Lemma sumCashChange_calculateRoundScores players :
  sumCashChange (calculateRoundScores players) = 0.
Proof.
  rewrite calculateRoundScores_pairs. cbv zeta. unfold sumCashChange.
  rewrite map_map. cbn [setCashChange cashChange].
  change (fold_right Z.add 0 (map (fun x => totalPoints x) ?l)) with (sumTotalPoints l).
  rewrite fold_scoreIndexPair_sum. apply initialScores_sum.
Qed.

Lemma calculateRoundScores_ids players :
  map playerId (calculateRoundScores players)
  = map player_id (List.filter (fun p => negb (isBankrupt p)) players).
Proof.
  rewrite calculateRoundScores_pairs. cbv zeta.
  rewrite map_map. cbn [setCashChange playerId].
  rewrite fold_scoreIndexPair_ids. apply initialScores_ids.
Qed.

(** ** The winner *)

Lemma richest_fold (rest : list Player) (first : Player) :
  let w := fold_left (fun richest player =>
                        if cash player >? cash richest then player else richest)
                     rest first in
  exists k, (first :: rest) !! k = Some w
    /\ (forall p, p ∈ first :: rest -> cash p <= cash w)
    /\ (forall j p, (j < k)%nat -> (first :: rest) !! j = Some p -> cash p < cash w).
Proof.
  induction rest as [|x rest IH] using rev_ind.
  { exists 0%nat. cbn. split; [reflexivity|]. split.
    - intros p Hp. apply list_elem_of_singleton in Hp as ->. lia.
    - intros j p Hj. lia. }
  cbv zeta in *. rewrite fold_left_app. cbn [fold_left].
  destruct IH as (k & Hk & Hmax & Hfirst).
  set (w := fold_left _ rest first) in *.
  assert (Hlt : (k < length (first :: rest))%nat) by (eapply lookup_lt_Some, Hk).
  destruct (Z.gtb_spec (cash x) (cash w)) as [Hgt|Hle].
  - exists (length (first :: rest)). split; [|split].
    + change (first :: rest ++ [x]) with ((first :: rest) ++ [x]).
      rewrite lookup_app_r by lia. now rewrite Nat.sub_diag.
    + intros p Hp. change (first :: rest ++ [x]) with ((first :: rest) ++ [x]) in Hp.
      apply elem_of_app in Hp as [Hp|Hp].
      * specialize (Hmax p Hp). lia.
      * apply list_elem_of_singleton in Hp as ->. lia.
    + intros j p Hj Hp. change (first :: rest ++ [x]) with ((first :: rest) ++ [x]) in Hp.
      rewrite lookup_app_l in Hp by lia.
      apply list_elem_of_lookup_2, Hmax in Hp. lia.
  - exists k. split; [|split].
    + change (first :: rest ++ [x]) with ((first :: rest) ++ [x]).
      now apply lookup_app_l_Some.
    + intros p Hp. change (first :: rest ++ [x]) with ((first :: rest) ++ [x]) in Hp.
      apply elem_of_app in Hp as [Hp|Hp]; [now apply Hmax|].
      apply list_elem_of_singleton in Hp as ->. lia.
    + intros j p Hj Hp. change (first :: rest ++ [x]) with ((first :: rest) ++ [x]) in Hp.
      rewrite lookup_app_l in Hp by lia. now apply (Hfirst j).
Qed.

(** X14.  [findWinner] returns no one exactly when every player is
    bankrupt.  Otherwise it returns a player who is not bankrupt and whose
    cash no other such player exceeds; among several of equal cash it is the
    first in the list. *)
Theorem findWinner_spec (players : list Player) :
  let active := List.filter (fun p => negb (isBankrupt p)) players in
  (findWinner players = None <-> forallb (fun p => isBankrupt p) players = true)
  /\ (forall w, findWinner players = Some w ->
        exists k, active !! k = Some w
          /\ w ∈ players /\ isBankrupt w = false
          /\ (forall p, p ∈ players -> isBankrupt p = false -> cash p <= cash w)
          /\ (forall j p, (j < k)%nat -> active !! j = Some p -> cash p < cash w)).
Proof.
  intros active. unfold findWinner. fold active. split.
  - split.
    + intros H. destruct active as [|first rest] eqn:E; [|discriminate].
      apply forallb_forall. intros p Hp.
      destruct (isBankrupt p) eqn:Eb; [reflexivity|]. exfalso.
      assert (Hin : In p active) by (apply filter_In; split; [exact Hp | now rewrite Eb]).
      rewrite E in Hin. destruct Hin.
    + intros H. destruct active as [|first rest] eqn:E; [reflexivity|]. exfalso.
      assert (Hin : In first active) by (rewrite E; now left).
      apply filter_In in Hin as [Hin Hb].
      rewrite forallb_forall in H. rewrite (H _ Hin) in Hb. discriminate.
  - intros w Hw. destruct active as [|first rest] eqn:E; [discriminate|].
    injection Hw as <-.
    destruct (richest_fold rest first) as (k & Hk & Hmax & Hfirst). cbv zeta in *.
    set (w := fold_left _ rest first) in *.
    assert (Hin : In w active).
    { rewrite E. apply list_elem_of_In. eapply list_elem_of_lookup_2, Hk. }
    apply filter_In in Hin as [Hin Hb].
    exists k. split; [exact Hk|]. split; [now apply list_elem_of_In|]. split.
    { now destruct (isBankrupt w). }
    split; [|exact Hfirst].
    intros p Hp Hpb. apply Hmax. rewrite <- E. apply list_elem_of_In, filter_In.
    split; [now apply list_elem_of_In | now rewrite Hpb].
Qed.

End Settlement.

(** ** The deck, the shuffle and the deal *)

Section Dealing.

Import GameLogic.

Lemma insert_swap_head (l : list Card) (j : nat) (x y : Card) :
  l !! j = Some x -> Permutation (x :: <[j := y]> l) (y :: l).
Proof.
  revert j. induction l as [|z l IH]; intros [|j] H; try discriminate.
  - injection H as ->. cbn. apply perm_swap.
  - cbn in H. cbn [list_insert insert]. change (<[S j := y]> (z :: l)) with (z :: <[j := y]> l).
    rewrite perm_swap, (IH j H). apply perm_swap.
Qed.

Lemma swapAt_Permutation (l : list Card) (i j : nat) :
  Permutation (swapAt l i j) l.
Proof.
  unfold swapAt. destruct (l !! i) as [xi|] eqn:Ei; [|reflexivity].
  destruct (l !! j) as [xj|] eqn:Ej; [|reflexivity].
  revert i j Ei Ej. induction l as [|z l IH]; intros [|i] [|j] Ei Ej; try discriminate.
  - injection Ei as ->. injection Ej as ->. reflexivity.
  - injection Ei as ->. cbn in Ej.
    change (Permutation (xj :: <[j := xi]> l) (xi :: l)).
    now apply insert_swap_head.
  - injection Ej as ->. cbn in Ei.
    change (Permutation (xi :: <[i := xj]> l) (xj :: l)).
    now apply insert_swap_head.
  - cbn in Ei, Ej.
    change (Permutation (z :: <[j := xi]> (<[i := xj]> l)) (z :: l)).
    constructor. now apply IH.
Qed.

Lemma shuffle_fold_Permutation (array : list N) (js : list nat) (deck : list Card) :
  Permutation
    (fold_left
       (fun shuffled i =>
          let j := N.to_nat (default 0%N (array !! i) mod N.of_nat (i + 1)) in
          swapAt shuffled i j) js deck)
    deck.
Proof.
  revert deck. induction js as [|i js IH]; intros deck; [reflexivity|].
  cbn [fold_left]. rewrite IH. apply swapAt_Permutation.
Qed.

(** X15.  Whatever random values it draws, [shuffleDeck] returns a
    rearrangement of the deck it was given: every card is there as often as
    before, none is lost and none is added; in particular the length is
    kept. *)
Theorem shuffleDeck_Permutation (array : list N) (deck : list Card) :
  Permutation (shuffleDeck array deck) deck
  /\ length (shuffleDeck array deck) = length deck.
Proof.
  assert (H : Permutation (shuffleDeck array deck) deck)
    by apply shuffle_fold_Permutation.
  split; [exact H | now apply Permutation_length].
Qed.

(** The number of cards the deal hands out. *)
Definition dealtCount (numPlayers startingPlayerIndex : nat) : nat :=
  (9 * numPlayers
   + (if (numPlayers =? 6) && (startingPlayerIndex <? 6) then 1 else 0))%nat.

Definition dealStep (shuffled : list Card) (numPlayers startingPlayerIndex : nat)
    (st : nat * list (list (option Card))) (i : nat)
    : nat * list (list (option Card)) :=
  let cardCount := getCardCount numPlayers startingPlayerIndex i in
  ((fst st + cardCount)%nat,
   snd st ++ [map (fun k => shuffled !! k) (seq (fst st) cardCount)]).

Lemma dealFrom_eq shuffled n s :
  dealFrom shuffled n s
  = (snd (fold_left (dealStep shuffled n s) (seq 0 n) (0%nat, [])),
     drop (fst (fold_left (dealStep shuffled n s) (seq 0 n) (0%nat, []))) shuffled).
Proof.
  unfold dealFrom. fold (dealStep shuffled n s).
  destruct (fold_left _ _ _). reflexivity.
Qed.

Lemma dealStep_fold shuffled n s (ixs : list nat) :
  forall st,
    let counts := map (getCardCount n s) ixs in
    let total := fold_right Nat.add 0%nat counts in
    let res := fold_left (dealStep shuffled n s) ixs st in
    fst res = (fst st + total)%nat
    /\ map (@length _) (snd res) = map (@length _) (snd st) ++ counts
    /\ concat (snd res)
       = concat (snd st) ++ map (fun k => shuffled !! k) (seq (fst st) total).
Proof.
  induction ixs as [|i ixs IH]; intros st; cbv zeta.
  { cbn. rewrite Nat.add_0_r, !app_nil_r. auto. }
  cbn [fold_left map fold_right].
  destruct (IH (dealStep shuffled n s st i)) as (H1 & H2 & H3). cbv zeta in *.
  rewrite H1, H2, H3. unfold dealStep. cbn [fst snd].
  split; [lia|]. split.
  - rewrite map_app. cbn [map]. rewrite length_map, length_seq, <- app_assoc.
    reflexivity.
  - rewrite concat_app. cbn [concat]. rewrite app_nil_r, <- app_assoc. f_equal.
    rewrite <- map_app, <- seq_app. reflexivity.
Qed.

Lemma sum_getCardCount n s :
  fold_right Nat.add 0%nat (map (getCardCount n s) (seq 0 n)) = dealtCount n s.
Proof.
  unfold dealtCount. destruct (n =? 6)%nat eqn:E.
  - apply Nat.eqb_eq in E. subst n. unfold getCardCount. cbn [Nat.eqb andb].
    do 6 (destruct s as [|s]; [reflexivity|]). reflexivity.
  - cbn [andb]. rewrite Nat.add_0_r.
    rewrite (map_ext _ (fun _ => 9%nat)).
    2:{ intros i. unfold getCardCount. now rewrite E. }
    assert (H : forall l : list nat,
               fold_right Nat.add 0%nat (map (fun _ => 9%nat) l) = (9 * length l)%nat).
    { induction l as [|i l IH]; cbn [map fold_right length]; lia. }
    now rewrite H, length_seq.
Qed.

Lemma lookup_defined (shuffled : list Card) (a n : nat) :
  (a + n <= length shuffled)%nat ->
  map (fun k => shuffled !! k) (seq a n) = Some <$> take n (drop a shuffled).
Proof.
  revert a shuffled. induction n as [|n IH]; intros a shuffled H; [reflexivity|].
  cbn [seq map]. destruct (lookup_lt_is_Some_2 shuffled a ltac:(lia)) as [c Hc].
  rewrite (drop_S _ _ _ Hc). cbn [take fmap list_fmap]. rewrite Hc.
  change (Some c :: map (fun k => shuffled !! k) (seq (S a) n)
          = Some c :: (Some <$> take n (drop (S a) shuffled))).
  f_equal. apply IH. lia.
Qed.

(** X16.  [dealCards] hands out one hand per player, of nine cards each
    except that in a game of six the starting player gets ten.  When the
    deck has enough cards for that, every slot of every hand holds a card,
    and the hands taken together followed by the remaining deck are the
    shuffled deck, card by card: no card is dealt twice and none is dropped,
    so hands and remaining deck together are a rearrangement of the deck.
    When the deck is too short nothing fails: the slots past the end of the
    deck are left undefined and the remaining deck is empty. *)
Theorem dealCards_spec (array : list N) (deck : list Card)
    (numPlayers startingPlayerIndex : nat) :
  let hands := fst (dealCards array deck numPlayers startingPlayerIndex) in
  let remainingDeck := snd (dealCards array deck numPlayers startingPlayerIndex) in
  map (@length _) hands
  = map (getCardCount numPlayers startingPlayerIndex) (seq 0 numPlayers)
  /\ ((dealtCount numPlayers startingPlayerIndex <= length deck)%nat ->
      concat hands ++ (Some <$> remainingDeck) = Some <$> shuffleDeck array deck
      /\ Permutation (omap id (concat hands) ++ remainingDeck) deck
      /\ length remainingDeck
         = (length deck - dealtCount numPlayers startingPlayerIndex)%nat)
  /\ ((length deck < dealtCount numPlayers startingPlayerIndex)%nat ->
      None ∈ concat hands /\ remainingDeck = []).
Proof.
  cbv zeta. unfold dealCards. rewrite dealFrom_eq. cbn [fst snd].
  set (shuffled := shuffleDeck array deck).
  destruct (dealStep_fold shuffled numPlayers startingPlayerIndex
              (seq 0 numPlayers) (0%nat, [])) as (H1 & H2 & H3).
  cbv zeta in H1, H2, H3. cbn [fst snd map concat app] in H1, H2, H3.
  rewrite sum_getCardCount in H1, H3. rewrite Nat.add_0_l in H1.
  split; [exact H2|].
  assert (Hsh : length shuffled = length deck)
    by apply Permutation_length, shuffle_fold_Permutation.
  rewrite H1, H3. split.
  - intros Hlen. rewrite lookup_defined by (rewrite Hsh; lia).
    rewrite drop_0. split; [|split].
    + rewrite <- fmap_app, take_drop. reflexivity.
    + rewrite omap_id_Some, take_drop. apply shuffle_fold_Permutation.
    + rewrite length_drop, Hsh. reflexivity.
  - intros Hlen. split.
    + apply list_elem_of_In, in_map_iff. exists (length deck). split.
      * apply lookup_ge_None. lia.
      * apply in_seq. lia.
    + apply drop_ge. lia.
Qed.

(** The deck of the game, shuffled with some random values and dealt to six
    players, the third of them starting. *)
Definition someRandomValues : list N :=
  map (fun i => (N.of_nat i * 2654435761 mod 4294967296)%N) (seq 0 55).

Lemma dealCards_spec_witness :
  Permutation
    (omap id (concat (fst (dealCards someRandomValues createDeck 6 2)))
     ++ snd (dealCards someRandomValues createDeck 6 2)) createDeck
  /\ length (snd (dealCards someRandomValues createDeck 6 2)) = 0%nat.
Proof.
  destruct (dealCards_spec someRandomValues createDeck 6 2) as (_ & H & _).
  destruct H as (_ & H2 & H3); [vm_compute; lia|].
  split; [exact H2 | exact H3].
Defined.

(** X17.  [createDeck] returns 55 cards with 55 different ids: each rank in
    each suit once, flagged not wild, and three cards flagged wild that carry
    the rank and suit of a wildcard.  That is enough to deal to up to six
    players. *)
Theorem createDeck_spec :
  length createDeck = 55%nat
  /\ NoDup (map card_id createDeck)
  /\ (forall r s, standardCard r s ∈ createDeck)
  /\ (forall c, c ∈ createDeck ->
        (isWild c = true <-> rank c = WILD) /\ (isWild c = true <-> suit c = wild))
  /\ length (List.filter (fun c => isWild c) createDeck) = 3%nat
  /\ (forall numPlayers startingPlayerIndex, (numPlayers <= 6)%nat ->
        (dealtCount numPlayers startingPlayerIndex <= length createDeck)%nat).
Proof.
  split; [reflexivity|]. split.
  { apply (bool_decide_unpack _). vm_compute. exact I. }
  split.
  { intros r s. destruct r, s; apply (bool_decide_unpack _); vm_compute; exact I. }
  split.
  { intros c Hc. apply list_elem_of_In in Hc.
    assert (H : forallb (fun c => bool_decide ((isWild c = true <-> rank c = WILD)
                                   /\ (isWild c = true <-> suit c = wild)))
                        createDeck = true) by (vm_compute; reflexivity).
    rewrite forallb_forall in H. specialize (H c Hc).
    apply bool_decide_eq_true_1 in H. exact H. }
  split; [reflexivity|].
  intros n s Hn. unfold dealtCount. change (length createDeck) with 55%nat.
  destruct (n =? 6)%nat, (s <? 6)%nat; cbn [andb]; lia.
Qed.

End Dealing.

(** ** Enumerations *)

Section Enumerations.

Import GameLogic.

(** The number of ways to choose [k] of [n] things, by Pascal's rule. *)
Fixpoint choose (n k : nat) : nat :=
  match k, n with
  | O, _ => 1
  | S _, O => 0
  | S k', S n' => choose n' k' + choose n' k
  end.

Lemma choose_small (n k : nat) : (n < k)%nat -> choose n k = 0%nat.
Proof.
  revert k. induction n as [|n IH]; intros [|k] H; try lia; [reflexivity|].
  cbn [choose]. rewrite !IH by lia. reflexivity.
Qed.

Lemma combinations_cons {T} (first : T) (rest : list T) (k' : nat) :
  combinations (first :: rest) (S k')
  = if (length (first :: rest) <? S k')%nat then []
    else map (cons first) (combinations rest k') ++ combinations rest (S k').
Proof. reflexivity. Qed.

Lemma combinations_nil {T} (k' : nat) : combinations (@nil T) (S k') = [].
Proof. reflexivity. Qed.

Lemma combinations_0 {T} (arr : list T) : combinations arr 0 = [[]].
Proof. destruct arr; reflexivity. Qed.

Lemma combinations_sound {T} (arr : list T) :
  forall k l, l ∈ combinations arr k -> sublist l arr /\ length l = k.
Proof.
  induction arr as [|a rest IH]; intros [|k] l H.
  - rewrite combinations_0 in H. apply list_elem_of_singleton in H as ->.
    split; [constructor | reflexivity].
  - rewrite combinations_nil in H. inversion H.
  - rewrite combinations_0 in H. apply list_elem_of_singleton in H as ->.
    split; [apply sublist_nil_l | reflexivity].
  - rewrite combinations_cons in H.
    destruct (length (a :: rest) <? S k)%nat; [inversion H|].
    apply elem_of_app in H as [H|H].
    + apply list_elem_of_In, in_map_iff in H as (l' & <- & H).
      apply list_elem_of_In, IH in H as [H1 H2].
      split; [now constructor | cbn; lia].
    + apply IH in H as [H1 H2]. split; [now constructor | exact H2].
Qed.

Lemma combinations_complete {T} (arr : list T) :
  forall k l, sublist l arr -> length l = k -> l ∈ combinations arr k.
Proof.
  induction arr as [|a rest IH]; intros k l Hs Hl.
  - apply sublist_nil_r in Hs as ->. cbn in Hl. subst k. left.
  - destruct k as [|k].
    { destruct l; [|discriminate]. rewrite combinations_0. left. }
    rewrite combinations_cons.
    pose proof (sublist_length _ _ Hs) as Hle.
    destruct (Nat.ltb_spec (length (a :: rest)) (S k)) as [Hlt|_]; [lia|].
    apply elem_of_app. inversion Hs as [|x l1 l2 Hs'|x l1 l2 Hs']; subst.
    + left. apply list_elem_of_In, in_map, list_elem_of_In, IH; [exact Hs'|].
      cbn in Hl. lia.
    + right. now apply IH.
Qed.

(** X18.  [combinations arr k] lists exactly the ways of keeping [k]
    elements of [arr] in their order (the sublists of length [k]), each way
    once: there are "length of [arr] choose [k]" of them; in particular
    there is the one empty choice for [k = 0] and none when [k] exceeds the
    length. *)
Theorem combinations_spec {T} (arr : list T) (k : nat) :
  (forall l, l ∈ combinations arr k <-> sublist l arr /\ length l = k)
  /\ length (combinations arr k) = choose (length arr) k.
Proof.
  split.
  - intros l. split; [apply combinations_sound|].
    intros [H1 H2]. now apply combinations_complete.
  - revert k. induction arr as [|a rest IH]; intros [|k]; try reflexivity.
    rewrite combinations_cons.
    destruct (Nat.ltb_spec (length (a :: rest)) (S k)) as [Hlt|Hge].
    + now rewrite choose_small.
    + rewrite length_app, length_map, !IH. reflexivity.
Qed.

(** *** Permutations (ai.ts) *)

Lemma remove_middle {T} (arr : list T) (i : nat) (x : T) :
  arr !! i = Some x ->
  Permutation arr (x :: (take i arr ++ drop (i + 1) arr)).
Proof.
  intros H. rewrite Nat.add_1_r.
  rewrite <- (take_drop_middle arr i x H) at 1.
  symmetry. apply Permutation_middle.
Qed.

Lemma length_remove {T} (arr : list T) (i : nat) :
  (i < length arr)%nat ->
  length (take i arr ++ drop (i + 1) arr) = (length arr - 1)%nat.
Proof. intros H. rewrite length_app, length_take, length_drop. lia. Qed.

Lemma permutationsFuel_sound {T} (fuel : nat) :
  forall (arr p : list T), p ∈ AI.permutationsFuel fuel arr -> Permutation p arr.
Proof.
  induction fuel as [|fuel IH]; intros arr p H; cbn [AI.permutationsFuel] in H;
    destruct (length arr <=? 1)%nat.
  - apply list_elem_of_singleton in H as ->. reflexivity.
  - inversion H.
  - apply list_elem_of_singleton in H as ->. reflexivity.
  - apply list_elem_of_In, in_flat_map in H as (i & _ & H).
    destruct (arr !! i) as [x|] eqn:E; [|destruct H].
    apply in_map_iff in H as (q & <- & H).
    apply list_elem_of_In, IH in H.
    rewrite (remove_middle arr i x E). now constructor.
Qed.

Lemma permutationsFuel_complete {T} (fuel : nat) :
  forall (arr p : list T),
    (length arr <= fuel)%nat -> Permutation p arr ->
    p ∈ AI.permutationsFuel fuel arr.
Proof.
  induction fuel as [|fuel IH]; intros arr p Hf H; cbn [AI.permutationsFuel];
    destruct (Nat.leb_spec (length arr) 1) as [Hle|Hgt]; try lia.
  - destruct arr as [|a [|b arr]]; cbn in Hle; try lia.
    + apply Permutation_nil_r in H as ->. left.
    + apply Permutation_sym, Permutation_length_1_inv in H as ->. left.
  - destruct arr as [|a [|b arr]]; cbn in Hle; try lia.
    + apply Permutation_nil_r in H as ->. left.
    + apply Permutation_sym, Permutation_length_1_inv in H as ->. left.
  - destruct p as [|x q].
    { apply Permutation_nil in H. subst arr. cbn in Hgt. lia. }
    assert (Hx : x ∈ arr).
    { apply list_elem_of_In. eapply Permutation_in; [exact H | now left]. }
    apply list_elem_of_lookup in Hx as [i Hi].
    pose proof (lookup_lt_Some _ _ _ Hi) as Hlt.
    apply list_elem_of_In, in_flat_map. exists i. split; [apply in_seq; lia|].
    rewrite Hi. apply in_map, list_elem_of_In, IH.
    + rewrite length_remove by exact Hlt. lia.
    + rewrite (remove_middle arr i x Hi) in H.
      now apply Permutation_cons_inv in H.
Qed.

Lemma length_flat_map_const {A B} (f : A -> list B) (l : list A) (m : nat) :
  (forall x, In x l -> length (f x) = m) ->
  length (flat_map f l) = (length l * m)%nat.
Proof.
  induction l as [|x l IH]; intros H; [reflexivity|].
  cbn [flat_map length]. rewrite length_app, IH, (H x).
  - lia.
  - now left.
  - intros y Hy. apply H. now right.
Qed.

Lemma permutationsFuel_length {T} (fuel : nat) :
  forall (arr : list T),
    (length arr <= fuel)%nat ->
    length (AI.permutationsFuel fuel arr) = fact (length arr).
Proof.
  induction fuel as [|fuel IH]; intros arr Hf; cbn [AI.permutationsFuel];
    destruct (Nat.leb_spec (length arr) 1) as [Hle|Hgt]; try lia.
  - destruct arr as [|a [|b arr]]; cbn in Hle; try lia; reflexivity.
  - destruct arr as [|a [|b arr]]; cbn in Hle; try lia; reflexivity.
  - rewrite (length_flat_map_const _ _ (fact (length arr - 1))).
    + rewrite length_seq. destruct (length arr) as [|n]; [lia|].
      cbn [fact]. rewrite Nat.sub_succ, Nat.sub_0_r. reflexivity.
    + intros i Hi. apply in_seq in Hi.
      destruct (lookup_lt_is_Some_2 arr i ltac:(lia)) as [x Hx]. rewrite Hx.
      rewrite length_map, IH; rewrite length_remove by lia; [reflexivity | lia].
Qed.

(** X19.  [permutations arr] lists exactly the rearrangements of [arr]:
    every list it returns has the elements of [arr], each as often as [arr]
    has it, and every such list is returned.  It returns as many lists as
    there are orderings of the positions, the factorial of the length (so a
    rearrangement shows up more than once only when [arr] repeats an
    element). *)
Theorem permutations_spec {T} (arr : list T) :
  (forall p, p ∈ AI.permutations arr <-> Permutation p arr)
  /\ length (AI.permutations arr) = fact (length arr).
Proof.
  unfold AI.permutations. split.
  - intros p. split; [apply permutationsFuel_sound|].
    apply permutationsFuel_complete. lia.
  - apply permutationsFuel_length. lia.
Qed.

End Enumerations.

(** ** An arrangement without foul always exists *)

Section NoFoul.

Import GameLogic.

(** The arrangement with the three given groups of cards as its layers. *)
Definition arr3 (t m b : list Card) : PlayerArrangement :=
  mkArrangement (mkLayer (Some <$> t)) (mkLayer (Some <$> m)) (mkLayer (Some <$> b)).

Lemma placed_Some (cs : list Card) : placed (mkLayer (Some <$> cs)) = cs.
Proof. unfold placed. cbn [cards]. apply omap_id_Some. Qed.

Lemma validateArrangement_arr3 (t m b : list Card) :
  length t = 3%nat -> length m = 3%nat -> length b = 3%nat ->
  validateArrangement (arr3 t m b) = true
  <-> compareHands (evalCards t) (evalCards m) <= 0
      /\ compareHands (evalCards m) (evalCards b) <= 0.
Proof.
  intros Ht Hm Hb. unfold validateArrangement, arr3. cbn [top middle bottom].
  rewrite !placed_Some, Ht, Hm, Hb. cbn [Nat.eqb negb orb].
  destruct (Z.gtb_spec (compareHands (evalCards t) (evalCards m)) 0);
    destruct (Z.gtb_spec (compareHands (evalCards m) (evalCards b)) 0);
    split; try discriminate; try reflexivity; lia.
Qed.

(** The six orders of three groups. *)
Definition orders3 (g1 g2 g3 : list Card) : list (list Card * list Card * list Card) :=
  [(g1, g2, g3); (g1, g3, g2); (g2, g1, g3); (g2, g3, g1); (g3, g1, g2); (g3, g2, g1)].

Lemma orders3_Permutation g1 g2 g3 t m b :
  In (t, m, b) (orders3 g1 g2 g3) -> Permutation (t ++ m ++ b) (g1 ++ g2 ++ g3).
Proof.
  intros H. cbn in H.
  destruct H as [H|[H|[H|[H|[H|[H|[]]]]]]]; injection H as <- <- <-.
  - reflexivity.
  - apply Permutation_app_head, Permutation_app_comm.
  - apply Permutation_app_swap_app.
  - rewrite (app_assoc g2 g3 g1). apply Permutation_app_comm.
  - rewrite (app_assoc g1 g2 g3). apply Permutation_app_comm.
  - rewrite (Permutation_app_comm g2 g1), (app_assoc g1 g2 g3).
    apply Permutation_app_comm.
Qed.

Lemma orders3_length g1 g2 g3 t m b :
  length g1 = 3%nat -> length g2 = 3%nat -> length g3 = 3%nat ->
  In (t, m, b) (orders3 g1 g2 g3) ->
  length t = 3%nat /\ length m = 3%nat /\ length b = 3%nat.
Proof.
  intros H1 H2 H3 H. cbn in H.
  destruct H as [H|[H|[H|[H|[H|[H|[]]]]]]]; injection H as <- <- <-; auto.
Qed.

(** Three groups of three can always be put in an order that is valid:
    weakest on top, strongest at the bottom. *)
Lemma some_order_valid (g1 g2 g3 : list Card) :
  length g1 = 3%nat -> length g2 = 3%nat -> length g3 = 3%nat ->
  exists t m b, In (t, m, b) (orders3 g1 g2 g3)
    /\ validateArrangement (arr3 t m b) = true.
Proof.
  intros H1 H2 H3.
  pose proof (compareHands_swap (evalCards g1) (evalCards g2)) as S12.
  pose proof (compareHands_swap (evalCards g2) (evalCards g3)) as S23.
  pose proof (compareHands_swap (evalCards g1) (evalCards g3)) as S13.
  assert (try_order : forall t m b,
            In (t, m, b) (orders3 g1 g2 g3) ->
            compareHands (evalCards t) (evalCards m) <= 0 ->
            compareHands (evalCards m) (evalCards b) <= 0 ->
            exists t m b, In (t, m, b) (orders3 g1 g2 g3)
              /\ validateArrangement (arr3 t m b) = true).
  { intros t m b Hin Htm Hmb. exists t, m, b. split; [exact Hin|].
    destruct (orders3_length g1 g2 g3 t m b H1 H2 H3 Hin) as (Lt & Lm & Lb).
    apply validateArrangement_arr3; auto. }
  destruct (Z_le_gt_dec (compareHands (evalCards g1) (evalCards g2)) 0) as [C12|C12];
  destruct (Z_le_gt_dec (compareHands (evalCards g2) (evalCards g3)) 0) as [C23|C23];
  destruct (Z_le_gt_dec (compareHands (evalCards g1) (evalCards g3)) 0) as [C13|C13].
  - apply (try_order g1 g2 g3); [cbn; tauto | lia | lia].
  - apply (try_order g1 g2 g3); [cbn; tauto | lia | lia].
  - apply (try_order g1 g3 g2); [cbn; tauto | lia | lia].
  - apply (try_order g3 g1 g2); [cbn; tauto | lia | lia].
  - apply (try_order g2 g1 g3); [cbn; tauto | lia | lia].
  - apply (try_order g2 g3 g1); [cbn; tauto | lia | lia].
  - apply (try_order g2 g1 g3); [cbn; tauto | lia | lia].
  - apply (try_order g3 g2 g1); [cbn; tauto | lia | lia].
Qed.

Lemma arr3_arranges (cards g1 g2 g3 t m b : list Card) :
  length g1 = 3%nat -> length g2 = 3%nat -> length g3 = 3%nat ->
  Permutation (g1 ++ g2 ++ g3) cards ->
  In (t, m, b) (orders3 g1 g2 g3) -> arranges cards (arr3 t m b).
Proof.
  intros H1 H2 H3 Hp Hin.
  destruct (orders3_length g1 g2 g3 t m b H1 H2 H3 Hin) as (Lt & Lm & Lb).
  unfold arranges, arr3. cbn [top middle bottom]. rewrite !placed_Some.
  repeat split; auto. rewrite <- Hp. now apply orders3_Permutation.
Qed.

Lemma valid_arrangement_of_hand (cards : list Card) :
  length cards = 9%nat ->
  exists a, arranges cards a /\ validateArrangement a = true.
Proof.
  intros Hlen.
  set (g1 := take 3 cards). set (g2 := take 3 (drop 3 cards)).
  set (g3 := drop 3 (drop 3 cards)).
  assert (H1 : length g1 = 3%nat) by (unfold g1; rewrite length_take; lia).
  assert (H2 : length g2 = 3%nat)
    by (unfold g2; rewrite length_take, length_drop; lia).
  assert (H3 : length g3 = 3%nat) by (unfold g3; rewrite !length_drop; lia).
  assert (Hp : Permutation (g1 ++ g2 ++ g3) cards).
  { unfold g1, g2, g3. now rewrite !take_drop. }
  destruct (some_order_valid g1 g2 g3 H1 H2 H3) as (t & m & b & Hin & Hv).
  exists (arr3 t m b). split; [|exact Hv].
  now apply (arr3_arranges cards g1 g2 g3).
Qed.

(** X20.  Every hand of nine cards has an arrangement without foul: the
    cards can be split into three layers of three so that
    [validateArrangement] accepts the arrangement. *)
Theorem validateArrangement_satisfiable (cards : list Card) :
  length cards = 9%nat ->
  exists a, arranges cards a /\ validateArrangement a = true.
Proof. apply valid_arrangement_of_hand. Qed.

Lemma validateArrangement_satisfiable_witness :
  exists a, arranges nineCards a /\ validateArrangement a = true.
Proof. apply (validateArrangement_satisfiable nineCards). reflexivity. Defined.

Lemma ai_search_succeeds (cards : list Card) :
  length cards = 9%nat ->
  AI.searchCandidates cards
  = (Some (AI.findBestArrangement cards),
     AI.scoreArrangement (AI.findBestArrangement cards))
  /\ validateArrangement (AI.findBestArrangement cards) = true
  /\ arranges cards (AI.findBestArrangement cards)
  /\ AI.scoreArrangement (AI.findBestArrangement cards) <> NegInfinity.
Proof.
  intros Hlen.
  destruct (valid_arrangement_of_hand cards Hlen) as (a0 & Ha0 & Hv0).
  destruct (arranges_partition cards a0 Hlen Ha0) as (asg0 & Hp0 & Hs0).
  rewrite (validateArrangement_perm _ _ Hs0) in Hv0.
  destruct (findBestArrangement_partitions cards Hlen
              (ex_intro _ asg0 (conj Hp0 Hv0)))
    as (H1 & (asg & Hp & Hbest) & H3 & _).
  split; [|split; [exact H1|split]].
  - destruct (searchCandidates_spec cards) as [_ Hcase].
    destruct Hcase as [[Hres Hall]|(i & x & Hi & Hres & Hgt & _)].
    + specialize (Hall _ (candidateIndices_complete asg0 Hp0)).
      pose proof (scoreArrangement_valid _ Hv0) as Hs. unfold dealt in Hs.
      rewrite Hs in Hall. discriminate.
    + destruct (AI.scoreArrangement (AI.arrangementOf cards x)) as [|z] eqn:Ex;
        [discriminate|].
      assert (E : AI.findBestArrangement cards = AI.arrangementOf cards x).
      { unfold AI.findBestArrangement. rewrite Hlen, Hres. reflexivity. }
      rewrite E, Ex. exact Hres.
  - rewrite Hbest. now apply dealt_arranges.
  - rewrite H3. discriminate.
Qed.

(** X21.  On nine cards the search of ai.ts never fouls and never needs its
    fallback: the loop over the candidates ends with a best arrangement,
    which is what [findBestArrangement] returns; it is valid, has a finite
    score and places each card of the hand once.  On any other number of
    cards the result is the empty arrangement, which is a foul. *)
Theorem ai_findBestArrangement_never_fouls (cards : list Card) :
  (length cards = 9%nat ->
     AI.searchCandidates cards
     = (Some (AI.findBestArrangement cards),
        AI.scoreArrangement (AI.findBestArrangement cards))
     /\ validateArrangement (AI.findBestArrangement cards) = true
     /\ arranges cards (AI.findBestArrangement cards)
     /\ AI.scoreArrangement (AI.findBestArrangement cards) <> NegInfinity)
  /\ (length cards <> 9%nat ->
        AI.findBestArrangement cards = createEmptyArrangement
        /\ validateArrangement (AI.findBestArrangement cards) = false).
Proof.
  split; [apply ai_search_succeeds|].
  intros Hlen. unfold AI.findBestArrangement.
  destruct (Nat.eqb_spec (length cards) 9) as [E|_]; [contradiction|].
  cbn [negb]. split; reflexivity.
Qed.

Lemma ai_findBestArrangement_never_fouls_witness :
  validateArrangement (AI.findBestArrangement nineCards) = true.
Proof.
  apply (proj1 (ai_findBestArrangement_never_fouls nineCards)). reflexivity.
Defined.

End NoFoul.

(** ** The search of game-logic.ts *)

Section GameSearch.

Import GameLogic.

Definition groupsArrangement (groups : list (list Card)) (perm : nat * nat * nat)
    : PlayerArrangement :=
  let '(i, j, k) := perm in
  mkArrangement (mkLayer (Some <$> groups !!! i)) (mkLayer (Some <$> groups !!! j))
                (mkLayer (Some <$> groups !!! k)).

(** The arrangements [findBestArrangement] tries, in the order of its three
    nested loops. *)
Definition gameCandidates (hand : list Card) : list PlayerArrangement :=
  flat_map
    (fun group1 =>
       let remaining1 :=
         List.filter (fun c => negb (bool_decide (c ∈ group1))) hand in
       flat_map
         (fun group2 =>
            let group3 :=
              List.filter (fun c => negb (bool_decide (c ∈ group2))) remaining1 in
            map (groupsArrangement [group1; group2; group3]) layerPermutations)
         (combinations remaining1 3))
    (combinations hand 3).

Lemma findBestArrangement_candidates (hand : list Card) :
  length hand = 9%nat ->
  findBestArrangement hand
  = fst (fold_left tryArrangement (gameCandidates hand) (None, NegInfinity)).
Proof.
  intros Hlen. unfold findBestArrangement, gameCandidates. rewrite Hlen.
  cbn [Nat.eqb negb]. f_equal.
  rewrite fold_left_flat_map. apply fold_left_pointwise. intros best group1.
  rewrite fold_left_flat_map. apply fold_left_pointwise. intros best' group2.
  rewrite fold_left_map. apply fold_left_pointwise. intros best'' [[i j] k].
  reflexivity.
Qed.

(** The score a candidate enters the comparison with. *)
Definition validScore (a : PlayerArrangement) : Score :=
  if validateArrangement a then Num (scoreArrangement a) else NegInfinity.

Lemma tryArrangement_eq best a :
  tryArrangement best a
  = if score_gt (validScore a) (snd best) then (Some a, validScore a) else best.
Proof.
  unfold tryArrangement, validScore. destruct (validateArrangement a); reflexivity.
Qed.

Lemma scoreArrangement_perm a a' :
  sameLayers a a' -> scoreArrangement a = scoreArrangement a'.
Proof.
  intros (Ht & Hm & Hb). unfold scoreArrangement.
  rewrite (evalCards_perm _ _ Ht), (evalCards_perm _ _ Hm), (evalCards_perm _ _ Hb).
  reflexivity.
Qed.

Lemma filter_sublist_of {A} (f : A -> bool) (l : list A) :
  sublist (List.filter f l) l.
Proof.
  induction l as [|x l IH]; [constructor|].
  cbn [List.filter]. destruct (f x); now constructor.
Qed.

Lemma filter_split_Permutation {A} (f : A -> bool) (l : list A) :
  Permutation (List.filter f l ++ List.filter (fun x => negb (f x)) l) l.
Proof.
  induction l as [|x l IH]; [constructor|].
  cbn [List.filter]. destruct (f x); cbn [negb app].
  - now constructor.
  - rewrite <- Permutation_middle. now constructor.
Qed.

Lemma elem_of_filter_iff {A} (f : A -> bool) (l : list A) x :
  x ∈ List.filter f l <-> x ∈ l /\ f x = true.
Proof. rewrite !list_elem_of_In. apply filter_In. Qed.

Lemma NoDup_filter_list {A} (f : A -> bool) (l : list A) :
  NoDup l -> NoDup (List.filter f l).
Proof. rewrite !NoDup_ListNoDup. apply List.NoDup_filter. Qed.

(** Selecting the cards of a group from a hand without repeated cards gives
    the group back, up to order. *)
Lemma filter_group_Permutation (hand g : list Card) :
  NoDup hand -> NoDup g -> (forall c, c ∈ g -> c ∈ hand) ->
  Permutation (List.filter (fun c => bool_decide (c ∈ g)) hand) g.
Proof.
  intros Hh Hg Hsub. apply NoDup_Permutation; [now apply NoDup_filter_list | exact Hg |].
  intros c. rewrite elem_of_filter_iff, bool_decide_eq_true. split; [tauto|].
  intros H. split; [now apply Hsub | exact H].
Qed.

(** A group chosen by [combinations] and the cards left over make up the
    hand. *)
Lemma group_rest_Permutation (hand g : list Card) :
  NoDup hand -> sublist g hand ->
  Permutation (g ++ List.filter (fun c => negb (bool_decide (c ∈ g))) hand) hand.
Proof.
  intros Hh Hs.
  rewrite <- (filter_split_Permutation (fun c => bool_decide (c ∈ g)) hand) at 2.
  apply Permutation_app_tail. symmetry. apply filter_group_Permutation; auto.
  - eapply sublist_NoDup; eauto.
  - intros c Hc. eapply elem_of_sublist; eauto.
Qed.

Lemma layerPermutations_orders (g1 g2 g3 : list Card) perm :
  In perm layerPermutations ->
  exists t m b, In (t, m, b) (orders3 g1 g2 g3)
    /\ groupsArrangement [g1; g2; g3] perm = arr3 t m b.
Proof.
  intros H. cbn in H.
  destruct H as [H|[H|[H|[H|[H|[H|[]]]]]]]; subst perm;
    cbn; eexists _, _, _; (split; [|reflexivity]); tauto.
Qed.

(** Every candidate is an arrangement of the hand, provided its three
    groups have three cards each. *)
Lemma gameCandidates_sound (hand : list Card) a :
  NoDup hand -> In a (gameCandidates hand) ->
  length hand = 9%nat -> arranges hand a.
Proof.
  intros Hh Hin Hlen. unfold gameCandidates in Hin.
  apply in_flat_map in Hin as (g1 & Hg1 & Hin).
  apply in_flat_map in Hin as (g2 & Hg2 & Hin).
  apply in_map_iff in Hin as (perm & <- & Hperm).
  apply list_elem_of_In, combinations_sound in Hg1 as [S1 L1].
  apply list_elem_of_In, combinations_sound in Hg2 as [S2 L2].
  set (remaining1 := List.filter (fun c => negb (bool_decide (c ∈ g1))) hand) in *.
  set (g3 := List.filter (fun c => negb (bool_decide (c ∈ g2))) remaining1).
  assert (Hr : NoDup remaining1) by (apply NoDup_filter_list, Hh).
  pose proof (group_rest_Permutation hand g1 Hh S1) as P1. fold remaining1 in P1.
  pose proof (group_rest_Permutation remaining1 g2 Hr S2) as P2. fold g3 in P2.
  assert (L3 : length g3 = 3%nat).
  { pose proof (Permutation_length P1) as E1. pose proof (Permutation_length P2) as E2.
    rewrite length_app in E1, E2. lia. }
  destruct (layerPermutations_orders g1 g2 g3 perm Hperm) as (t & m & b & Ho & ->).
  apply (arr3_arranges hand g1 g2 g3); auto.
  rewrite P2. exact P1.
Qed.

(** Every arrangement of the hand is among the candidates, up to the order
    of the cards inside the layers. *)
Lemma gameCandidates_complete (hand : list Card) a :
  NoDup hand -> arranges hand a ->
  exists c, In c (gameCandidates hand) /\ sameLayers a c.
Proof.
  intros Hh (Lt & Lm & Lb & Hp).
  set (T := placed (top a)) in *. set (M := placed (middle a)) in *.
  set (B := placed (bottom a)) in *.
  assert (Hnd : NoDup (T ++ M ++ B)) by (now rewrite Hp).
  apply NoDup_app in Hnd as (NT & HTd & Hnd).
  apply NoDup_app in Hnd as (NM & HMd & NB).
  assert (Hin : forall c, c ∈ hand <-> c ∈ T \/ c ∈ M \/ c ∈ B).
  { intros c. rewrite <- Hp, !elem_of_app. tauto. }
  set (g1 := List.filter (fun c => bool_decide (c ∈ T)) hand).
  set (remaining1 := List.filter (fun c => negb (bool_decide (c ∈ g1))) hand).
  set (g2 := List.filter (fun c => bool_decide (c ∈ M)) remaining1).
  set (g3 := List.filter (fun c => negb (bool_decide (c ∈ g2))) remaining1).
  assert (P1 : Permutation g1 T).
  { apply filter_group_Permutation; auto. intros c Hc. apply Hin. auto. }
  assert (Hr : NoDup remaining1) by (apply NoDup_filter_list, Hh).
  assert (Er : forall c, c ∈ remaining1 <-> c ∈ M \/ c ∈ B).
  { intros c. unfold remaining1.
    rewrite elem_of_filter_iff, negb_true_iff, bool_decide_eq_false, P1, Hin.
    split.
    - intros [[H|H] Hn]; [contradiction | exact H].
    - intros H. split; [tauto|]. intros HT.
      destruct H as [H|H]; [apply (HTd c HT) | apply (HTd c HT)];
        apply elem_of_app; auto. }
  assert (P2 : Permutation g2 M).
  { apply filter_group_Permutation; auto. intros c Hc. apply Er. auto. }
  assert (P3 : Permutation g3 B).
  { apply NoDup_Permutation; [apply NoDup_filter_list, Hr | exact NB |].
    intros c. unfold g3.
    rewrite elem_of_filter_iff, negb_true_iff, bool_decide_eq_false, P2, Er.
    split.
    - intros [[H|H] Hn]; [contradiction | exact H].
    - intros H. split; [tauto|]. intros HM. apply (HMd c HM H). }
  exists (arr3 g1 g2 g3). split.
  - unfold gameCandidates. apply in_flat_map. exists g1. split.
    { apply list_elem_of_In, combinations_complete; [apply filter_sublist_of|].
      now rewrite (Permutation_length P1). }
    apply in_flat_map. exists g2. split.
    { apply list_elem_of_In, combinations_complete; [apply filter_sublist_of|].
      now rewrite (Permutation_length P2). }
    apply in_map_iff. exists (0, 1, 2)%nat. split; [reflexivity | now left].
  - unfold sameLayers, arr3. cbn [top middle bottom]. rewrite !placed_Some.
    fold T M B. repeat split; now symmetry.
Qed.

(** X22.  On a hand of nine different cards the search of game-logic.ts
    always finds an arrangement.  The arrangement is valid, places each card
    of the hand once, and no valid arrangement of the hand has a greater
    score, the score being the plain sum over the layers of
    (7 - category number) * 100 + tie-break value.  On a hand that is not of
    nine cards the search returns nothing. *)
Theorem gameLogic_findBestArrangement_optimal (hand : list Card) :
  (length hand <> 9%nat -> findBestArrangement hand = None)
  /\ (length hand = 9%nat -> NoDup hand ->
      exists best,
        findBestArrangement hand = Some best
        /\ validateArrangement best = true
        /\ arranges hand best
        /\ forall a, arranges hand a -> validateArrangement a = true ->
             scoreArrangement a <= scoreArrangement best).
Proof.
  split.
  { intros Hlen. unfold findBestArrangement.
    destruct (Nat.eqb_spec (length hand) 9); [contradiction | reflexivity]. }
  intros Hlen Hh. rewrite (findBestArrangement_candidates hand Hlen).
  pose proof (keep_best_fold validScore (fun a => Some a) (gameCandidates hand)
                None NegInfinity) as Hfold.
  cbv zeta in Hfold.
  rewrite (fold_left_pointwise _ tryArrangement) in Hfold
    by (intros best a; now rewrite tryArrangement_eq).
  destruct Hfold as [Hmax Hcase].
  set (res := fold_left tryArrangement (gameCandidates hand) (None, NegInfinity)) in *.
  destruct (valid_arrangement_of_hand hand Hlen) as (a0 & Ha0 & Hv0).
  destruct (gameCandidates_complete hand a0 Hh Ha0) as (c0 & Hc0 & Hs0).
  destruct Hcase as [[Hres Hall]|(i & x & Hi & Hres & Hgt & _)].
  { specialize (Hall c0 (proj2 (list_elem_of_In _ _) Hc0)). unfold validScore in Hall.
    rewrite <- (validateArrangement_perm _ _ Hs0), Hv0 in Hall. discriminate. }
  exists x. rewrite Hres. cbn [fst]. split; [reflexivity|].
  assert (Hvx : validateArrangement x = true).
  { unfold validScore in Hgt. destruct (validateArrangement x);
      [reflexivity | discriminate]. }
  split; [exact Hvx|]. split.
  { apply gameCandidates_sound; auto.
    apply list_elem_of_In. eapply list_elem_of_lookup_2, Hi. }
  intros a Ha Hv.
  destruct (gameCandidates_complete hand a Hh Ha) as (c & Hc & Hs).
  specialize (Hmax c (proj2 (list_elem_of_In _ _) Hc)). rewrite Hres in Hmax.
  cbn [snd] in Hmax. unfold validScore in Hmax.
  rewrite <- (validateArrangement_perm _ _ Hs), Hv, Hvx in Hmax.
  rewrite <- (scoreArrangement_perm _ _ Hs) in Hmax.
  cbn in Hmax. rewrite Z.gtb_ltb, Z.ltb_ge in Hmax. exact Hmax.
Qed.

Lemma gameLogic_findBestArrangement_optimal_witness :
  exists best,
    findBestArrangement nineCards = Some best
    /\ validateArrangement best = true
    /\ arranges nineCards best
    /\ forall a, arranges nineCards a -> validateArrangement a = true ->
         scoreArrangement a <= scoreArrangement best.
Proof.
  apply (proj2 (gameLogic_findBestArrangement_optimal nineCards)).
  - reflexivity.
  - apply (bool_decide_unpack _). vm_compute. exact I.
Defined.

End GameSearch.

(** ** The two variants of the evaluator *)

Section Variants.

Import GameLogic.

(** X23.  The earlier and the later text of [evaluateHand] put every hand in
    the same category; they give it the same tie-break value too, except for
    a sum-modulo hand that holds a wildcard, which the later text values at
    9.  So on hands without wildcards the two variants compare alike. *)
Theorem evaluateHand_variants_agree (slots : list (option Card)) :
  type (Legacy.evaluateHand slots) = type (evaluateHand slots)
  /\ (existsb (fun c => isWild c) (omap id slots) = false
      \/ type (evaluateHand slots) <> SUM_MODULO ->
      value (Legacy.evaluateHand slots) = value (evaluateHand slots))
  /\ (existsb (fun c => isWild c) (omap id slots) = true ->
      type (evaluateHand slots) = SUM_MODULO ->
      length slots = 3%nat -> existsb (fun c => bool_decide (c = None)) slots = false ->
      value (evaluateHand slots) = 9).
Proof.
  unfold Legacy.evaluateHand, evaluateHand.
  destruct (negb (length slots =? 3)%nat) eqn:El;
    destruct (existsb (fun c => bool_decide (c = None)) slots) eqn:En; cbn [orb].
  1-3: split; [reflexivity|]; split; [reflexivity|]; intros _ _ Hl Hn;
       try discriminate; apply negb_true_iff, Nat.eqb_neq in El; contradiction.
  unfold Legacy.evaluateCards, evaluateCards.
  assert (Hcs : length (omap id slots) = 3%nat).
  { rewrite omap_id_length_full by exact En.
    apply negb_false_iff, Nat.eqb_eq in El. exact El. }
  revert Hcs. generalize (omap id slots). intros cs Hcs.
  destruct (isThreeOfKind_three cs Hcs) as [tk ->].
  repeat match goal with
    | |- context [if ?b then _ else _] =>
        lazymatch b with
        | existsb _ cs => fail
        | _ => destruct b; cbn [type value];
               [split; [reflexivity|]; split;
                [reflexivity | intros _ Ht; exfalso; discriminate Ht]|]
        end
    end.
  destruct (existsb (fun c => isWild c) cs); cbn [type value].
  - split; [reflexivity|]. split; [|reflexivity].
    intros [H|H]; [discriminate | contradiction].
  - split; [reflexivity|]. split; [reflexivity | discriminate].
Qed.

Lemma evaluateHand_variants_agree_witness :
  value (Legacy.evaluateHand
           [Some (standardCard R2 hearts); Some (standardCard RJ spades);
            Some (standardCard R5 clubs)])
  = value (evaluateHand
           [Some (standardCard R2 hearts); Some (standardCard RJ spades);
            Some (standardCard R5 clubs)]).
Proof.
  apply (evaluateHand_variants_agree
           [Some (standardCard R2 hearts); Some (standardCard RJ spades);
            Some (standardCard R5 clubs)]).
  left. reflexivity.
Defined.

(** X24.  The score the search of ai.ts gives an arrangement is minus
    infinity exactly when the arrangement is not valid.  A valid arrangement
    scores 10000 when it has a special hand and otherwise the sum of its
    layer strengths, which lies between 300 and 2100. *)
Theorem ai_scoreArrangement_range (a : PlayerArrangement) :
  (AI.scoreArrangement a = NegInfinity <-> validateArrangement a = false)
  /\ (validateArrangement a = true ->
      exists z, AI.scoreArrangement a = Num z
        /\ (if AI.hasSpecialHandArrangement a then z = 10000
            else z = layerStrength (top a) + layerStrength (middle a)
                     + layerStrength (bottom a)
                 /\ 300 <= z <= 2100)).
Proof.
  split.
  - split.
    + intros H. destruct (validateArrangement a) eqn:Hv; [|reflexivity].
      rewrite (scoreArrangement_valid a Hv) in H. discriminate.
    + intros H. destruct (AI.scoreArrangement a) as [|z] eqn:E; [reflexivity|].
      apply scoreArrangement_Num in E. congruence.
  - intros Hv. exists (specScore a). split; [now apply scoreArrangement_valid|].
    unfold specScore. destruct (AI.hasSpecialHandArrangement a); [reflexivity|].
    split; [reflexivity|].
    pose proof (layerStrength_bound (top a)).
    pose proof (layerStrength_bound (middle a)).
    pose proof (layerStrength_bound (bottom a)). lia.
Qed.

Lemma ai_scoreArrangement_range_witness :
  exists z, AI.scoreArrangement threeKinds = Num z
    /\ (if AI.hasSpecialHandArrangement threeKinds then z = 10000
        else z = layerStrength (top threeKinds) + layerStrength (middle threeKinds)
                 + layerStrength (bottom threeKinds)
             /\ 300 <= z <= 2100).
Proof.
  apply (proj2 (ai_scoreArrangement_range threeKinds)). reflexivity.
Defined.

End Variants.

(** ** The fallback arrangement of ai.ts *)

Section Fallback.

Import GameLogic.

Lemma insertCard_Permutation x l : Permutation (AI.insertCard x l) (x :: l).
Proof.
  induction l as [|y l IH]; [reflexivity|].
  cbn [AI.insertCard]. destruct (AI.compareCards x y <=? 0); [reflexivity|].
  rewrite IH. apply perm_swap.
Qed.

Lemma sortCards_Permutation l : Permutation (AI.sortCards l) l.
Proof.
  induction l as [|x l IH]; [reflexivity|].
  cbn [AI.sortCards]. rewrite insertCard_Permutation. now constructor.
Qed.

(** The order the comparator sorts by: [a] may stand before [b]. *)
Definition cardBefore (a b : Card) : Prop := AI.compareCards a b <= 0.

Lemma cardBefore_total a b : cardBefore a b \/ cardBefore b a.
Proof.
  unfold cardBefore, AI.compareCards.
  destruct (isWild a), (isWild b); cbn; lia.
Qed.

Lemma cardBefore_trans a b c : cardBefore a b -> cardBefore b c -> cardBefore a c.
Proof.
  unfold cardBefore, AI.compareCards.
  destruct (isWild a), (isWild b), (isWild c); cbn; lia.
Qed.

Lemma insertCard_sorted x l :
  StronglySorted cardBefore l -> StronglySorted cardBefore (AI.insertCard x l).
Proof.
  induction l as [|y l IH]; intros Hs.
  - cbn. repeat constructor.
  - cbn [AI.insertCard]. destruct (Z.leb_spec (AI.compareCards x y) 0) as [Hle|Hgt].
    + constructor; [exact Hs|]. constructor; [exact Hle|].
      apply StronglySorted_inv in Hs as [_ Hy].
      eapply Forall_impl; [exact Hy|]. intros z Hz. now apply cardBefore_trans with y.
    + apply StronglySorted_inv in Hs as [Hs Hy].
      constructor; [now apply IH|].
      rewrite (insertCard_Permutation x l). constructor; [|exact Hy].
      destruct (cardBefore_total x y) as [H|H]; [unfold cardBefore in H; lia | exact H].
Qed.

(** X25.  The sort of [createSimpleArrangement] keeps the cards and puts
    them in the order of its comparator: cards that are not wild by
    descending rank, two to ace, and the wildcards last.  The comparator is
    total and transitive, the condition for [sort] to have a defined
    result. *)
Theorem sortCards_spec (cards : list Card) :
  Permutation (AI.sortCards cards) cards
  /\ StronglySorted cardBefore (AI.sortCards cards)
  /\ (forall a b, cardBefore a b <->
        (isWild a = false /\ isWild b = true)
        \/ (isWild a = true /\ isWild b = true)
        \/ (isWild a = false /\ isWild b = false
            /\ AI.getCardSortValue b <= AI.getCardSortValue a))
  /\ (forall a b, cardBefore a b \/ cardBefore b a)
  /\ (forall a b c, cardBefore a b -> cardBefore b c -> cardBefore a c).
Proof.
  split; [apply sortCards_Permutation|]. split.
  - induction cards as [|x l IH]; [constructor|].
    cbn [AI.sortCards]. now apply insertCard_sorted.
  - split; [|split; [apply cardBefore_total | apply cardBefore_trans]].
    intros a b. unfold cardBefore, AI.compareCards.
    destruct (isWild a), (isWild b); cbn [andb negb]; split; intros H;
      try lia; try tauto;
      try (destruct H as [[? ?]|[[? ?]|(? & ? & ?)]]; try discriminate; lia).
Qed.

Lemma pick_three (cs : list Card) (i j k : nat) a b c :
  cs !! i = Some a -> cs !! j = Some b -> cs !! k = Some c ->
  placed (AI.pick cs [i; j; k]) = [a; b; c].
Proof.
  intros Hi Hj Hk. unfold placed, AI.pick. cbn [cards map]. rewrite Hi, Hj, Hk.
  reflexivity.
Qed.

Lemma nine_cards (cs : list Card) :
  length cs = 9%nat ->
  exists c0 c1 c2 c3 c4 c5 c6 c7 c8, cs = [c0; c1; c2; c3; c4; c5; c6; c7; c8].
Proof.
  intros H. do 9 (destruct cs as [|? cs]; [discriminate|]).
  destruct cs; [|discriminate]. eauto 10.
Qed.

(** X26.  On nine cards [createSimpleArrangement] returns an arrangement
    that places each card of the hand once, three to a layer, whichever of
    its three attempts it ends with. *)
Theorem createSimpleArrangement_arranges (cards : list Card) :
  length cards = 9%nat -> arranges cards (AI.createSimpleArrangement cards).
Proof.
  intros Hlen.
  pose proof (sortCards_Permutation cards) as Hp.
  pose proof (Permutation_length Hp) as Hl. rewrite Hlen in Hl.
  destruct (nine_cards _ Hl) as (s0 & s1 & s2 & s3 & s4 & s5 & s6 & s7 & s8 & Es).
  destruct (nine_cards _ Hlen) as (c0 & c1 & c2 & c3 & c4 & c5 & c6 & c7 & c8 & Ec).
  unfold AI.createSimpleArrangement. rewrite Es in *.
  repeat match goal with
    | |- context [if ?b then _ else _] => destruct b
    end; unfold arranges; cbn [top middle bottom].
  - rewrite (pick_three _ 6 7 8 s6 s7 s8), (pick_three _ 3 4 5 s3 s4 s5),
      (pick_three _ 0 1 2 s0 s1 s2) by reflexivity.
    repeat split; try reflexivity. rewrite <- Hp.
    change (Permutation ([s6; s7; s8] ++ [s3; s4; s5] ++ [s0; s1; s2])
                        ([s0; s1; s2] ++ [s3; s4; s5] ++ [s6; s7; s8])).
    apply (orders3_Permutation [s0; s1; s2] [s3; s4; s5] [s6; s7; s8]).
    cbn. tauto.
  - rewrite (pick_three _ 6 7 8 s6 s7 s8), (pick_three _ 3 4 5 s3 s4 s5),
      (pick_three _ 0 1 2 s0 s1 s2) by reflexivity.
    repeat split; try reflexivity. exact Hp.
  - subst cards.
    rewrite (pick_three _ 6 7 8 c6 c7 c8), (pick_three _ 3 4 5 c3 c4 c5),
      (pick_three _ 0 1 2 c0 c1 c2) by reflexivity.
    repeat split; reflexivity.
Qed.

Lemma createSimpleArrangement_arranges_witness :
  arranges nineCards (AI.createSimpleArrangement nineCards).
Proof. apply (createSimpleArrangement_arranges nineCards). reflexivity. Defined.

End Fallback.

(** ** Bounds on a matchup and on a round *)

Section Bounds.

Import GameLogic.

Lemma specPoints_bound (h : HandEvaluation) : 1 <= specPoints h <= 5.
Proof.
  unfold specPoints. destruct (type h); try lia.
  destruct (bool_decide _); lia.
Qed.

Lemma layerAward_bound (a1 a2 : PlayerArrangement) (l : LayerName) :
  0 <= fst (layerAward a1 a2 l) /\ 0 <= snd (layerAward a1 a2 l)
  /\ fst (layerAward a1 a2 l) + snd (layerAward a1 a2 l) <= 5.
Proof.
  unfold layerAward.
  pose proof (specPoints_bound (evalCards (placed (layerOf a1 l)))).
  pose proof (specPoints_bound (evalCards (placed (layerOf a2 l)))).
  destruct (compareHands _ _ >? 0); [|destruct (compareHands _ _ <? 0)];
    cbn [fst snd]; lia.
Qed.

Lemma compareArrangements_points_bound (p1 p2 : Player) :
  0 <= player1TotalPoints (compareArrangements p1 p2)
  /\ 0 <= player2TotalPoints (compareArrangements p1 p2)
  /\ player1TotalPoints (compareArrangements p1 p2)
     + player2TotalPoints (compareArrangements p1 p2) <= 15.
Proof.
  unfold compareArrangements.
  cbn [player1Foul player2Foul player1TotalPoints player2TotalPoints].
  destruct (negb (isFoul p1) && hasSpecialHand p1),
    (negb (isFoul p2) && hasSpecialHand p2), (isFoul p1), (isFoul p2);
    cbn [andb setPoints player1TotalPoints player2TotalPoints]; try lia.
  destruct (arrangement p1) as [a1|], (arrangement p2) as [a2|];
    cbn [player1TotalPoints player2TotalPoints]; try lia.
  cbn [fold_left]. rewrite !compareLayer_p1, !compareLayer_p2.
  cbn [player1TotalPoints player2TotalPoints].
  pose proof (layerAward_bound a1 a2 Ltop).
  pose proof (layerAward_bound a1 a2 Lmiddle).
  pose proof (layerAward_bound a1 a2 Lbottom). lia.
Qed.

(** X27.  In every matchup, fouls and special hands included, neither side
    gets a negative number of points, the two sides together get at most 15
    (three layers of at most 5, all to one side or shared), and the net of
    the matchup lies between -15 and 15. *)
Theorem compareArrangements_bounds (p1 p2 : Player) :
  0 <= player1TotalPoints (compareArrangements p1 p2)
  /\ 0 <= player2TotalPoints (compareArrangements p1 p2)
  /\ player1TotalPoints (compareArrangements p1 p2)
     + player2TotalPoints (compareArrangements p1 p2) <= 15
  /\ -15 <= netPoints (compareArrangements p1 p2) <= 15.
Proof.
  pose proof (compareArrangements_points_bound p1 p2) as (H1 & H2 & H3).
  unfold netPoints. repeat split; lia.
Qed.

Lemma netAgainst_bound active k j : -15 <= netAgainst active k j <= 15.
Proof.
  unfold netAgainst. destruct (active !! k) as [pk|]; [|lia].
  destruct (active !! j) as [pj|]; [|lia].
  pose proof (compareArrangements_points_bound pk pj). unfold netPoints. lia.
Qed.

Lemma sumZ_bound {A} (f : A -> Z) (l : list A) (b : Z) :
  (forall x, - b <= f x <= b) ->
  - (b * Z.of_nat (length l)) <= sumZ (map f l) <= b * Z.of_nat (length l).
Proof.
  intros H. induction l as [|x l IH]; [cbn; lia|].
  cbn [map sumZ fold_right length]. fold (sumZ (map f l)).
  specialize (H x). lia.
Qed.

Lemma length_others (k n : nat) :
  (k < n)%nat ->
  length (List.filter (fun j => negb (j =? k)%nat) (seq 0 n)) = (n - 1)%nat.
Proof.
  intros Hk. replace n with (k + (1 + (n - (k + 1))))%nat at 1 by lia.
  rewrite !seq_app, !List.filter_app, !length_app. cbn [seq List.filter].
  rewrite Nat.add_0_l, Nat.eqb_refl. cbn [negb length].
  rewrite !forallb_filter_id, !length_seq; [lia| |];
    apply forallb_forall; intros j Hj; apply in_seq in Hj;
    destruct (Nat.eqb_spec j k); try reflexivity; lia.
Qed.

Lemma roundScores_bounded (players : list Player) :
  let active := List.filter (fun p => negb (isBankrupt p)) players in
  NoDup (map player_id active) ->
  forall s, s ∈ calculateRoundScores players ->
    - (15 * (Z.of_nat (length active) - 1)) <= totalPoints s
      <= 15 * (Z.of_nat (length active) - 1)
    /\ - (15 * (Z.of_nat (length active) - 1)) <= cashChange s
       <= 15 * (Z.of_nat (length active) - 1).
Proof.
  intros active Hnd s Hs. apply list_elem_of_lookup in Hs as [k Hk].
  assert (Hlt : (k < length active)%nat).
  { apply lookup_lt_Some in Hk.
    rewrite <- (length_map playerId), calculateRoundScores_ids, length_map in Hk.
    exact Hk. }
  destruct (totalPoints_at players Hnd k s Hk) as [Ht Hc].
  rewrite Hc, Ht. fold active.
  pose proof (sumZ_bound (netAgainst active k)
                (List.filter (fun j => negb (j =? k)%nat) (seq 0 (length active)))
                15 (netAgainst_bound active k)) as Hb.
  rewrite length_others in Hb by exact Hlt. lia.
Qed.

(** X28.  With players told apart by their ids, no player wins or loses
    more than 15 points per opponent in a round: the [totalPoints] and the
    [cashChange] of every entry of [calculateRoundScores] lie between
    -15 (n - 1) and 15 (n - 1), [n] being the number of active players. *)
Theorem calculateRoundScores_bounded (players : list Player) :
  let active := List.filter (fun p => negb (isBankrupt p)) players in
  NoDup (map player_id active) ->
  forall s, s ∈ calculateRoundScores players ->
    - (15 * (Z.of_nat (length active) - 1)) <= totalPoints s
      <= 15 * (Z.of_nat (length active) - 1)
    /\ - (15 * (Z.of_nat (length active) - 1)) <= cashChange s
       <= 15 * (Z.of_nat (length active) - 1).
Proof. apply roundScores_bounded. Qed.

Lemma calculateRoundScores_bounded_witness :
  forallb (fun s => (-30 <=? totalPoints s) && (totalPoints s <=? 30))
          (calculateRoundScores [playerA; playerB; playerC]) = true.
Proof.
  apply forallb_forall. intros s Hs. apply list_elem_of_In in Hs.
  destruct (calculateRoundScores_bounded [playerA; playerB; playerC]
              ltac:(apply (bool_decide_unpack _); vm_compute; exact I) s Hs)
    as [Ht _].
  change (Z.of_nat (length (List.filter (fun p => negb (isBankrupt p))
                              [playerA; playerB; playerC]))) with 3 in Ht.
  apply andb_true_intro. split; [apply Z.leb_le | apply Z.leb_le]; lia.
Defined.

(** ** Discarding, then arranging *)

(** X29.  On ten cards, the card [chooseCardToDiscard] returns stands at
    some position of the hand, and the nine cards left after discarding it
    are then arranged by [findBestArrangement] without foul, each of them
    placed once. *)
Theorem chooseCardToDiscard_then_arrange (cards : list Card) :
  length cards = 10%nat ->
  exists i c,
    cards !! i = Some c
    /\ AI.chooseCardToDiscard cards = Some c
    /\ length (AI.removeAt cards i) = 9%nat
    /\ validateArrangement (AI.findBestArrangement (AI.removeAt cards i)) = true
    /\ arranges (AI.removeAt cards i)
                (AI.findBestArrangement (AI.removeAt cards i)).
Proof.
  intros Hlen.
  assert (Hrem : forall i, (i < 10)%nat -> length (AI.removeAt cards i) = 9%nat).
  { intros i Hi. unfold AI.removeAt.
    rewrite length_app, length_take, length_drop. lia. }
  assert (Hok : forall i c, (i < 10)%nat -> cards !! i = Some c ->
            AI.chooseCardToDiscard cards = Some c ->
            exists i c,
              cards !! i = Some c
              /\ AI.chooseCardToDiscard cards = Some c
              /\ length (AI.removeAt cards i) = 9%nat
              /\ validateArrangement (AI.findBestArrangement (AI.removeAt cards i)) = true
              /\ arranges (AI.removeAt cards i)
                          (AI.findBestArrangement (AI.removeAt cards i))).
  { intros i c Hi Hc Hres. exists i, c.
    destruct (ai_search_succeeds (AI.removeAt cards i) (Hrem i Hi))
      as (_ & Hv & Ha & _).
    auto using Hrem. }
  unfold AI.chooseCardToDiscard in *. rewrite Hlen in *. cbn [Nat.eqb negb] in *.
  destruct (keep_best_fold (AI.discardScore cards) (fun i => cards !! i)
              (seq 0 10) (cards !! 0%nat) NegInfinity) as [_ Hcase].
  cbv zeta in Hcase.
  set (res := fold_left _ (seq 0 10) (cards !! 0%nat, NegInfinity)) in *.
  destruct Hcase as [[Hres _]|(i & x & Hi & Hres & _)].
  - destruct (lookup_lt_is_Some_2 cards 0 ltac:(lia)) as [c Hc].
    apply (Hok 0%nat c); [lia | exact Hc | now rewrite Hres].
  - assert (Hx : x = i /\ (i < 10)%nat) by (apply lookup_seq in Hi; lia).
    destruct Hx as [-> Hi10].
    destruct (lookup_lt_is_Some_2 cards i ltac:(lia)) as [c Hc].
    apply (Hok i c); [exact Hi10 | exact Hc | now rewrite Hres].
Qed.

Lemma chooseCardToDiscard_then_arrange_witness :
  exists i c,
    tenCards !! i = Some c
    /\ AI.chooseCardToDiscard tenCards = Some c
    /\ length (AI.removeAt tenCards i) = 9%nat
    /\ validateArrangement (AI.findBestArrangement (AI.removeAt tenCards i)) = true
    /\ arranges (AI.removeAt tenCards i)
                (AI.findBestArrangement (AI.removeAt tenCards i)).
Proof. apply (chooseCardToDiscard_then_arrange tenCards). reflexivity. Defined.

End Bounds.

(** ** The J-Q-K straights *)

Section Straights.

Import GameLogic.

Lemma isFaceCard_iff (r : CardRank) :
  isFaceCard r = true <-> r = RankOf RJ \/ r = RankOf RQ \/ r = RankOf RK.
Proof.
  split; [apply isFaceCard_cases|]. intros [-> | [-> | ->]]; reflexivity.
Qed.

(** Three cards are a J-Q-K straight exactly when those that are not
    wildcards are jacks, queens and kings of pairwise different ranks. *)
Lemma isJQKStraight_iff (a b c : Card) :
  isJQKStraight [a; b; c] = true
  <-> (forall x, x ∈ nonWild [a; b; c] -> isFaceCard (rank x) = true)
      /\ NoDup (map rank (nonWild [a; b; c])).
Proof.
  assert (Hfaces : forallb (fun x => isFaceCard (rank x)) (nonWild [a; b; c]) = true
                   <-> forall x, x ∈ nonWild [a; b; c] -> isFaceCard (rank x) = true).
  { rewrite forallb_forall. split; intros H x Hx; apply H; now apply list_elem_of_In. }
  rewrite <- Hfaces. unfold isJQKStraight. cbv zeta. rewrite andb_true_iff.
  destruct (forallb (fun x => isFaceCard (rank x)) (nonWild [a; b; c])) eqn:Ef.
  2:{ split; [intros [_ H] | intros [H _]]; discriminate. }
  assert (Hcount : (length
             (List.filter (fun r => negb (bool_decide (RankOf r ∈ map rank (nonWild [a; b; c]))))
                          [RJ; RQ; RK]) <=? wildCount [a; b; c])%nat = true
          <-> NoDup (map rank (nonWild [a; b; c]))).
  { revert Ef. unfold nonWild, wildCount. cbn [List.filter].
    destruct (isWild a), (isWild b), (isWild c); cbn [negb forallb map length];
      rewrite ?andb_true_iff, ?isFaceCard_iff; intros Hf;
      repeat match goal with
        | H : _ /\ _ |- _ => destruct H
        | H : _ \/ _ |- _ => destruct H
        | H : rank _ = _ |- _ => rewrite H
        end;
      (split;
       [ intros Hl; first [ apply (bool_decide_unpack _); vm_compute; exact I
                          | vm_compute in Hl; discriminate Hl ]
       | intros Hn; first [ reflexivity
                          | vm_compute; reflexivity
                          | exfalso; apply (bool_decide_pack _) in Hn;
                            vm_compute in Hn; exact Hn ] ]). }
  rewrite Hcount. tauto.
Qed.

(** X30.  Three cards evaluate to one of the two J-Q-K straights exactly
    when the cards that are not wildcards are jacks, queens and kings of
    pairwise different ranks, the wildcards standing for the missing ranks.
    The straight is a straight flush exactly when those cards have one
    suit. *)
Theorem evaluateHand_straight_iff (a b c : Card) :
  (type (evalCards [a; b; c]) = STRAIGHT_FLUSH_JQK
   \/ type (evalCards [a; b; c]) = STRAIGHT_JQK
   <-> (forall x, x ∈ nonWild [a; b; c] -> isFaceCard (rank x) = true)
       /\ NoDup (map rank (nonWild [a; b; c])))
  /\ (type (evalCards [a; b; c]) = STRAIGHT_FLUSH_JQK
      <-> isJQKStraight [a; b; c] = true
          /\ forall x y, x ∈ nonWild [a; b; c] -> y ∈ nonWild [a; b; c] ->
               suit x = suit y).
Proof.
  rewrite <- isJQKStraight_iff.
  assert (Hflush : isJQKStraightFlush [a; b; c] = true
                   <-> isJQKStraight [a; b; c] = true
                       /\ forall x y, x ∈ nonWild [a; b; c] -> y ∈ nonWild [a; b; c] ->
                            suit x = suit y).
  { unfold isJQKStraightFlush. destruct (isJQKStraight [a; b; c]); cbn [negb].
    2:{ split; [discriminate | intros [H _]; discriminate]. }
    destruct (nonWild [a; b; c]) as [|c0 rest].
    - split; [|reflexivity]. intros _. split; [reflexivity|].
      intros x y Hx. inversion Hx.
    - rewrite forallb_forall. split.
      + intros H. split; [reflexivity|]. intros x y Hx Hy.
        apply list_elem_of_In, H, bool_decide_eq_true in Hx.
        apply list_elem_of_In, H, bool_decide_eq_true in Hy. congruence.
      + intros [_ H] x Hx. apply bool_decide_eq_true.
        apply H; [now apply list_elem_of_In | left]. }
  rewrite <- Hflush. clear Hflush.
  assert (Hpure : forall tk, isThreeOfKind [a; b; c] = Some tk ->
            isThreeOfKind_flag tk && negb (hasWild tk) = true ->
            isJQKStraight [a; b; c] = false).
  { intros tk Htk Hp. destruct (isJQKStraight [a; b; c]) eqn:Es; [|reflexivity].
    exfalso. apply isJQKStraight_iff in Es as [_ Hnd].
    revert Htk Hnd. unfold isThreeOfKind, nonWild, wildCount. cbn [List.filter].
    destruct (isWild a), (isWild b), (isWild c);
      cbn [negb length Nat.eqb lookup list_lookup mbind option_bind map];
      try (intros [= <-]; discriminate Hp);
      try (destruct (bool_decide _); intros [= <-]; discriminate Hp).
    destruct (bool_decide_reflect (rank a = rank b)) as [E|E]; cbn [andb];
      [|intros [= <-]; discriminate Hp].
    intros _ Hnd. apply NoDup_cons in Hnd as [Hnd _]. apply Hnd. rewrite E. left. }
  rewrite evalCards_three by reflexivity. unfold evaluateCards.
  destruct (isThreeOfKind_three [a; b; c] eq_refl) as [tk Htk]. rewrite Htk.
  specialize (Hpure tk Htk).
  assert (Hfs : isJQKStraightFlush [a; b; c] = true -> isJQKStraight [a; b; c] = true).
  { unfold isJQKStraightFlush. destruct (isJQKStraight [a; b; c]);
      [reflexivity | discriminate]. }
  destruct (isThreeOfKind_flag tk && negb (hasWild tk)).
  { rewrite (Hpure eq_refl) in *. cbn [type].
    destruct (isJQKStraightFlush [a; b; c]); [specialize (Hfs eq_refl); discriminate|].
    split; split; try discriminate. intros [H|H]; discriminate. }
  destruct (isJQKStraightFlush [a; b; c]) eqn:Efl.
  { rewrite (Hfs eq_refl). cbn [type]. split; split; auto. }
  destruct (isJQKStraight [a; b; c]).
  { cbn [type]. split; split; auto; discriminate. }
  repeat match goal with
    | |- context [if ?b then _ else _] => destruct b
    end; cbn [type]; split; split; try discriminate; intros [H|H]; discriminate.
Qed.

End Straights.

(** ** Settling a round *)

Section SafeCash.

Import GameLogic.

(** [Number.MAX_SAFE_INTEGER]: up to this size JavaScript's numbers hold the
    integers exactly, and [+] on two of them whose sum is in range is the
    sum of the integers. *)
Definition MAX_SAFE_INTEGER : Z := 2 ^ 53 - 1.

Lemma active_ids_NoDup (players : list Player) :
  NoDup (map player_id players) ->
  NoDup (map player_id (List.filter (fun p => negb (isBankrupt p)) players)).
Proof.
  induction players as [|p players IH]; intros H; [exact H|].
  cbn [map] in H. apply NoDup_cons in H as [Hp H].
  cbn [List.filter]. destruct (negb (isBankrupt p)); [|now apply IH].
  cbn [map]. apply NoDup_cons. split; [|now apply IH].
  intros Hin. apply Hp, active_ids_subset, Hin.
Qed.

Lemma length_active_le (players : list Player) :
  (length (List.filter (fun p => negb (isBankrupt p)) players) <= length players)%nat.
Proof.
  induction players as [|p players IH]; [reflexivity|].
  cbn [List.filter length]. destruct (negb (isBankrupt p)); cbn [length]; lia.
Qed.

(** X13.  Settling a round moves cash between the players and creates or
    destroys none.  The players are told apart by their ids, and their cash
    is far enough inside the safe integers that no sum leaves them (a
    player wins or loses at most 15 points per opponent), so that every
    addition of the code is exact.  Then the cash of all players together
    is the same before and after [applyRoundScores] with the scores of
    [calculateRoundScores], and every new amount is a safe integer again.
    The players keep their ids and their order, a player who was bankrupt is
    returned as they were, and every other player is flagged bankrupt
    exactly when their new cash is zero or less. *)
Theorem applyRoundScores_conserves_cash (players : list Player) :
  NoDup (map player_id players) ->
  (forall p, p ∈ players ->
     Z.abs (cash p) + 15 * Z.of_nat (length players) <= MAX_SAFE_INTEGER) ->
  let settled := applyRoundScores players (calculateRoundScores players) in
  sumCash settled = sumCash players
  /\ (forall p', p' ∈ settled -> Z.abs (cash p') <= MAX_SAFE_INTEGER)
  /\ map player_id settled = map player_id players
  /\ (forall i p, players !! i = Some p -> isBankrupt p = true ->
        settled !! i = Some p)
  /\ (forall i p p', players !! i = Some p -> isBankrupt p = false ->
        settled !! i = Some p' -> isBankrupt p' = (cash p' <=? 0)).
Proof.
  intros Hnd Hsafe settled. subst settled.
  split; [|split; [|split; [|split]]].
  - rewrite applyRoundScores_sum, sumCashChange_calculateRoundScores;
      auto using calculateRoundScores_ids.
    lia.
  - intros p' Hp'. unfold applyRoundScores in Hp'.
    apply list_elem_of_In, in_map_iff in Hp' as (p & <- & Hp).
    apply list_elem_of_In in Hp. specialize (Hsafe p Hp).
    destruct (list_find _ (calculateRoundScores players)) as [[k s]|] eqn:E;
      [|lia].
    cbn [cash]. apply list_find_Some in E as (Hk & _).
    apply list_elem_of_lookup_2 in Hk.
    destruct (roundScores_bounded players (active_ids_NoDup players Hnd) s Hk)
      as [_ Hc].
    pose proof (length_active_le players). lia.
  - apply applyRoundScores_ids.
  - intros i p Hi Hb. unfold applyRoundScores.
    change (map ?f players) with (f <$> players).
    rewrite list_lookup_fmap, Hi. cbn. rewrite list_find_absent; [reflexivity|].
    rewrite calculateRoundScores_ids. intros H.
    apply list_elem_of_In, in_map_iff in H as (q & E & Hq).
    apply filter_In in Hq as [Hq Hqb].
    assert (q = p).
    { apply (player_id_unique players); auto.
      - now apply list_elem_of_In.
      - eapply list_elem_of_lookup_2, Hi. }
    subst q. rewrite Hb in Hqb. discriminate.
  - intros i p p' Hi Hb Hi'. unfold applyRoundScores in Hi'.
    change (map ?f players) with (f <$> players) in Hi'.
    rewrite list_lookup_fmap, Hi in Hi'. cbn in Hi'.
    destruct (list_find _ (calculateRoundScores players)) as [[k s]|] eqn:E.
    + injection Hi' as <-. reflexivity.
    + exfalso. apply list_find_None in E. rewrite Forall_forall in E.
      assert (Hin : player_id p ∈ map playerId (calculateRoundScores players)).
      { rewrite calculateRoundScores_ids.
        apply list_elem_of_In, in_map, filter_In. split.
        - apply list_elem_of_In. eapply list_elem_of_lookup_2, Hi.
        - now rewrite Hb. }
      apply list_elem_of_In, in_map_iff in Hin as (s & Hs & Hin).
      apply (E s); [now apply list_elem_of_In | exact Hs].
Qed.

Lemma applyRoundScores_conserves_cash_witness :
  sumCash (applyRoundScores [playerA; playerB; playerC]
             (calculateRoundScores [playerA; playerB; playerC]))
  = sumCash [playerA; playerB; playerC]
  /\ map cash (applyRoundScores [playerA; playerB; playerC]
                 (calculateRoundScores [playerA; playerB; playerC]))
     = [1001; 1019; 980].
Proof.
  split; [|vm_compute; reflexivity].
  apply (applyRoundScores_conserves_cash [playerA; playerB; playerC]).
  - apply (bool_decide_unpack _). vm_compute. exact I.
  - intros p Hp. apply list_elem_of_In in Hp. cbn in Hp.
    destruct Hp as [<- | [<- | [<- | []]]]; vm_compute; discriminate.
Defined.

End SafeCash.
